(** * GeoPay-Protocol: routing and resilience engine

    A shallow embedding of the TypeScript sources of the engine
    (quote cache, filter, scorer, strategy, circuit breaker,
    idempotency manager, gateway client and the [GeoPaySwitch.pay] fallback
    loop), followed by the properties the design document states about
    them.

    Conventions of the embedding.
    - [Date.now()] is a parameter [now : Z] (milliseconds) of every
      operation that reads the clock, or the field [clock] of the outside
      world; a method that reads the clock several times between two
      [await]s reads the same value.
    - An [async] function that waits for a callback takes the behaviour of
      that callback as a function from the clock at its start to its
      outcome and the clock at its end.  One call runs at a time: no other
      call and no timer interleaves with a pending one.
    - A JavaScript [Map] is an insertion-ordered association list with
      unique keys ([JsMap]); a [Set] of strings is a list without
      repetition.
    - A JavaScript [number] that carries an amount, a cost, a rate or a
      score is an exact rational ([Q]); the places where the source can
      divide by zero are written out with the IEEE result.  [NaN] and
      infinite inputs, and rounding, are outside the model.  Times,
      counters and thresholds are integers.
    - A thrown exception is the [Throw] branch of an [Outcome].
    - Strings built only to be read by people (reasons, summaries, error
      details) are kept as the values they are built from.
    - Logging and event emission have no effect on results and are left
      out. *)

From Stdlib Require Import String Ascii ZArith QArith Qminmax Bool Lia Lqa Arith.
From Stdlib Require DecimalString.
From Stdlib Require Import List Permutation Sorted.
Import ListNotations.

Set Implicit Arguments.

Local Open Scope Z_scope.

(** ** Completion of a call *)

Module Js.

(** What a call completes with: a value or a thrown error. *)
Inductive Outcome (T E : Type) :=
| Return (v : T)
| Throw (e : E).
Arguments Return {T E} v.
Arguments Throw {T E} e.

(** [a ?? d] *)
Definition orElse {A} (a : option A) (d : A) : A :=
  match a with Some x => x | None => d end.

End Js.

(** ** JavaScript [Map] with string keys *)

Module JsMap.
Section Defs.
Context {V : Type}.

Definition t := list (string * V).

Definition keys (m : t) : list string := map fst m.

Definition size (m : t) : nat := length m.

Fixpoint get (m : t) (k : string) : option V :=
  match m with
  | [] => None
  | (k', v) :: m' => if String.eqb k k' then Some v else get m' k
  end.

(** [Map.prototype.set]: an existing key keeps its position. *)
Fixpoint set (m : t) (k : string) (v : V) : t :=
  match m with
  | [] => [(k, v)]
  | (k', v') :: m' =>
      if String.eqb k k' then (k, v) :: m' else (k', v') :: set m' k v
  end.

Fixpoint delete (m : t) (k : string) : t :=
  match m with
  | [] => []
  | (k', v') :: m' =>
      if String.eqb k k' then m' else (k', v') :: delete m' k
  end.

Definition has (m : t) (k : string) : bool :=
  match get m k with Some _ => true | None => false end.

Definition wf (m : t) : Prop := NoDup (keys m).
End Defs.
Arguments t : clear implicits.
End JsMap.

(** ** src/cache/index.ts: [Cache] *)

Module CacheM.

Record CacheEntry (T : Type) := mkEntry {
  value : T;
  expiresAt : Z;
  createdAt : Z
}.

Record Cache (T : Type) := mkCache {
  store : JsMap.t (CacheEntry T);
  ttlMs : Z;
  maxEntries : Z
}.

Section Ops.
Context {T : Type}.

(** [new Cache(options)]: [maxEntries] defaults to 1000. *)
Definition new (ttl : Z) (maxE : option Z) : Cache T :=
  mkCache [] ttl (match maxE with Some n => n | None => 1000 end).

Definition with_store (c : Cache T) (s : JsMap.t (CacheEntry T)) : Cache T :=
  mkCache s (ttlMs c) (maxEntries c).

Definition expired (now : Z) (e : CacheEntry T) : bool :=
  expiresAt e <? now.

(** [get(key)]: an expired entry is deleted and reported as absent. *)
Definition get (now : Z) (c : Cache T) (key : string) : option T * Cache T :=
  match JsMap.get (store c) key with
  | None => (None, c)
  | Some entry =>
      if expired now entry
      then (None, with_store c (JsMap.delete (store c) key))
      else (Some (value entry), c)
  end.

Definition size (c : Cache T) : nat := JsMap.size (store c).

(** The test of [prune] and [stats] on an entry of [store.entries()]. *)
Definition isExpired (now : Z) (ke : string * CacheEntry T) : bool :=
  expired now (snd ke).

(** [prune()]: the loop over [store.entries()], deleting as it goes. *)
Definition prune_step (now : Z) (acc : nat * JsMap.t (CacheEntry T))
    (ke : string * CacheEntry T) : nat * JsMap.t (CacheEntry T) :=
  if expired now (snd ke)
  then (S (fst acc), JsMap.delete (snd acc) (fst ke))
  else acc.

Definition prune (now : Z) (c : Cache T) : nat * Cache T :=
  let r := fold_left (prune_step now) (store c) (O, store c) in
  (fst r, with_store c (snd r)).

(** The scan for the oldest entry in [evictOldest]: the first entry with
    the strictly smallest [createdAt]. *)
Definition oldest_step (oldest : option (string * Z))
    (ke : string * CacheEntry T) : option (string * Z) :=
  match oldest with
  | None => Some (fst ke, createdAt (snd ke))
  | Some (k, ca) =>
      if createdAt (snd ke) <? ca then Some (fst ke, createdAt (snd ke))
      else oldest
  end.

Definition evictOldest (now : Z) (c : Cache T) : Cache T :=
  let c1 := snd (prune now c) in
  if maxEntries c1 <=? Z.of_nat (size c1) then
    match fold_left oldest_step (store c1) None with
    | Some (k, _) => with_store c1 (JsMap.delete (store c1) k)
    | None => c1
    end
  else c1.

(** [set(key, value, ttlMs?)] *)
Definition set (now : Z) (c : Cache T) (key : string) (v : T)
    (ttl : option Z) : Cache T :=
  let c1 := if maxEntries c <=? Z.of_nat (size c) then evictOldest now c else c in
  let ttl' := match ttl with Some x => x | None => ttlMs c1 end in
  with_store c1 (JsMap.set (store c1) key (mkEntry v (now + ttl') now)).

Definition has (now : Z) (c : Cache T) (key : string) : bool * Cache T :=
  let r := get now c key in
  (match fst r with Some _ => true | None => false end, snd r).

Definition delete (c : Cache T) (key : string) : bool * Cache T :=
  (JsMap.has (store c) key, with_store c (JsMap.delete (store c) key)).

Definition clear (c : Cache T) : Cache T := with_store c [].



Record CacheStats := mkStats {
  s_size : nat;
  validEntries : nat;
  expiredEntries : nat;
  averageAgeMs : Q;
  s_maxEntries : Z;
  s_ttlMs : Z
}.

(** The loop of [stats] over [store.values()]: the counters [expired],
    [validCount] and [totalAge]. *)
Definition stats_step (now : Z) (acc : nat * nat * Z) (ke : string * CacheEntry T)
  : nat * nat * Z :=
  let '(expiredCount, validCount, totalAge) := acc in
  if expired now (snd ke)
  then (S expiredCount, validCount, totalAge)
  else (expiredCount, S validCount, totalAge + (now - createdAt (snd ke))).

(** [stats()] *)
Definition stats (now : Z) (c : Cache T) : CacheStats :=
  let '(expiredCount, validCount, totalAge) :=
    fold_left (stats_step now) (store c) (O, O, 0) in
  mkStats (size c) validCount expiredCount
    (if (0 <? validCount)%nat
     then (inject_Z totalAge / inject_Z (Z.of_nat validCount))%Q
     else 0%Q)
    (maxEntries c) (ttlMs c).

Definition wf (c : Cache T) : Prop := JsMap.wf (store c).
End Ops.

End CacheM.

(** ** src/types/quote.ts, src/types/intent.ts, src/types/config.ts *)

Module Types.

Record FeeBreakdown := mkFees {
  percentFee : Q;
  fixedFee : Q;
  fxFee : Q;
  networkFee : option Q;
  crossBorderFee : option Q
}.

Record RegionLimits := mkLimits {
  min : Q;
  max : Q;
  remainingDaily : option Q;
  remainingMonthly : option Q;
  perTransaction : option Q
}.

(** The result of an IEEE division whose divisor may be zero. *)
Inductive Ratio :=
| RFin (q : Q)
| RPosInf
| RNegInf
| RNaN.

(** One line of [RegionQuote.reasons].  The scorer builds its lines from
    numbers with [toFixed]; the embedding keeps the number that is printed
    instead of its decimal rendering.  [RText] is a line that came with the
    quote. *)
Inductive Reason :=
| RText (s : string)
| RCost (cost weight : Q)
| RSuccessRate (pct : Q)
| RBelowAverageSuccess
| RLatency (ms : Q)
| RHighLatency
| RDailyLimit (remainingPct : Ratio)
| RFinalScore (score : Q).

Record RegionQuote := mkQuote {
  region : string;
  routerId : string;
  routerName : option string;
  totalCost : Q;
  feeBreakdown : FeeBreakdown;
  limits : RegionLimits;
  successRate : option Q;
  latencyMs : option Q;
  score : Q;
  reasons : list Reason;
  available : bool;
  unavailableReason : option string;
  supportedMethods : option (list string);
  regionCurrency : option string
}.

(** [{ ...quote, score, reasons }] *)
Definition with_score (q : RegionQuote) (s : Q) (rs : list Reason) : RegionQuote :=
  mkQuote (region q) (routerId q) (routerName q) (totalCost q) (feeBreakdown q)
    (limits q) (successRate q) (latencyMs q) s rs (available q)
    (unavailableReason q) (supportedMethods q) (regionCurrency q).

Record PaymentIntent := mkIntent {
  id : string;
  amount : Q;
  currency : string;
  paymentMethod : string;
  userCountry : option string;
  merchantCountry : option string
}.

Record RoutingWeights := mkWeights {
  price : Q;
  success : Q;
  latency : Q
}.

Inductive RoutingMode := ModeAuto | ModePinned | ModeDryRun.

Inductive RoutingStrategy := Cheapest | HighestSuccess | Balanced | Custom.

Record FallbackConfig := mkFallback {
  enabled : bool;
  maxTries : Z;
  backoffMs : Z
}.

Record RoutingConfig := mkRouting {
  mode : RoutingMode;
  pinnedRegion : option string;
  allowedRegions : option (list string);
  blockedRegions : option (list string);
  weights : option RoutingWeights;
  fallback : option FallbackConfig;
  strategy : option RoutingStrategy;
  customScorer : option (list RegionQuote -> RoutingWeights -> list RegionQuote)
}.

Record ComplianceConfig := mkCompliance {
  enforceAllowedRegions : bool;
  sanctionsCheck : bool;
  kycRequired : bool
}.

(** [Array.prototype.includes] on strings. *)
Definition includes (l : list string) (s : string) : bool :=
  existsb (String.eqb s) l.

End Types.

(** ** src/routing/filter.ts *)

Module Filter.
Import Types.

Inductive FilterReason :=
| region_not_allowed
| region_blocked
| amount_below_min
| amount_above_max
| daily_limit_exceeded
| method_not_supported
| region_unavailable
| compliance_blocked
| currency_not_supported.

(** The [details] string of a [FilteredQuote], before interpolation. *)
Inductive FilterDetails :=
| DUnavailable (why : option string)
| DNotInAllowed (r : string)
| DBlocked (r : string)
| DBelowMin (amt lo : Q)
| DAboveMax (amt hi : Q)
| DDailyLimit (amt rem : Q)
| DMethod (m r : string).

Record FilteredQuote := mkFiltered {
  quote : RegionQuote;
  reason : FilterReason;
  details : FilterDetails
}.

Record FilterResult := mkFilterResult {
  passed : list RegionQuote;
  filtered : list FilteredQuote
}.

(** [a < b] on numbers. *)
Definition Qltb (a b : Q) : bool := negb (Qle_bool b a).

(** [checkQuote]: [None] is the source's [null] (the quote passes).
    [routingConfig?.allowedRegions] is [None] when the configuration or the
    field is missing. *)
Definition checkQuote (q : RegionQuote) (intent : PaymentIntent)
    (routingConfig : option RoutingConfig)
    (complianceConfig : option ComplianceConfig) : option FilteredQuote :=
  let allowed := match routingConfig with Some rc => allowedRegions rc | None => None end in
  let blocked := match routingConfig with Some rc => blockedRegions rc | None => None end in
  if negb (available q) then
    Some (mkFiltered q region_unavailable (DUnavailable (unavailableReason q)))
  else if match allowed with
          | Some l => (0 <? length l)%nat && negb (includes l (region q))
          | None => false
          end then
    Some (mkFiltered q region_not_allowed (DNotInAllowed (region q)))
  else if match blocked with
          | Some l => (0 <? length l)%nat && includes l (region q)
          | None => false
          end then
    Some (mkFiltered q region_blocked (DBlocked (region q)))
  else if Qltb (amount intent) (min (limits q)) then
    Some (mkFiltered q amount_below_min (DBelowMin (amount intent) (min (limits q))))
  else if Qltb (max (limits q)) (amount intent) then
    Some (mkFiltered q amount_above_max (DAboveMax (amount intent) (max (limits q))))
  else
    let methods :=
      if match supportedMethods q with
         | Some l => (0 <? length l)%nat && negb (includes l (paymentMethod intent))
         | None => false
         end then
        Some (mkFiltered q method_not_supported
                (DMethod (paymentMethod intent) (region q)))
      else None in
    match remainingDaily (limits q) with
    | Some rd =>
        if Qltb rd (amount intent) then
          Some (mkFiltered q daily_limit_exceeded (DDailyLimit (amount intent) rd))
        else methods
    | None => methods
    end.

(** Whether [checkQuote] filters the quote out, and the record it returns
    as a list of zero or one element. *)
Definition fails (i : PaymentIntent) (rc : option RoutingConfig)
    (cc : option ComplianceConfig) (q : RegionQuote) : bool :=
  match checkQuote q i rc cc with Some _ => true | None => false end.

Definition verdict (i : PaymentIntent) (rc : option RoutingConfig)
    (cc : option ComplianceConfig) (q : RegionQuote) : list FilteredQuote :=
  match checkQuote q i rc cc with Some f => [f] | None => [] end.

(** [filterQuotes]: the loop pushes onto [passed] or [filtered]. *)
Definition filterQuotes_step (intent : PaymentIntent)
    (routingConfig : option RoutingConfig)
    (complianceConfig : option ComplianceConfig)
    (acc : FilterResult) (q : RegionQuote) : FilterResult :=
  match checkQuote q intent routingConfig complianceConfig with
  | None => mkFilterResult (passed acc ++ [q]) (filtered acc)
  | Some f => mkFilterResult (passed acc) (filtered acc ++ [f])
  end.

Definition filterQuotes (quotes : list RegionQuote) (intent : PaymentIntent)
    (routingConfig : option RoutingConfig)
    (complianceConfig : option ComplianceConfig) : FilterResult :=
  fold_left (filterQuotes_step intent routingConfig complianceConfig) quotes
    (mkFilterResult [] []).

(** [isRegionAllowed]: the block-list is consulted first. *)
Definition isRegionAllowed (region : string)
    (routingConfig : option RoutingConfig) : bool :=
  match routingConfig with
  | None => true
  | Some rc =>
      if match blockedRegions rc with
         | Some l => includes l region
         | None => false
         end
      then false
      else
        match allowedRegions rc with
        | Some l => if (0 <? length l)%nat then includes l region else true
        | None => true
        end
  end.

(** The gates of the design document, in its order: each gate is the
    condition under which it fails a quote and the reason it records.
    This is the specification side of the comparison with [checkQuote]. *)
Definition gate_unavailable (q : RegionQuote) : bool := negb (available q).

Definition gate_allow (rc : option RoutingConfig) (q : RegionQuote) : bool :=
  match rc with
  | Some c =>
      match allowedRegions c with
      | Some (r :: l) => negb (includes (r :: l) (region q))
      | _ => false
      end
  | None => false
  end.

Definition gate_block (rc : option RoutingConfig) (q : RegionQuote) : bool :=
  match rc with
  | Some c =>
      match blockedRegions c with
      | Some l => includes l (region q)
      | None => false
      end
  | None => false
  end.

Definition gate_below_min (i : PaymentIntent) (q : RegionQuote) : bool :=
  Qltb (amount i) (min (limits q)).

Definition gate_above_max (i : PaymentIntent) (q : RegionQuote) : bool :=
  Qltb (max (limits q)) (amount i).

Definition gate_daily (i : PaymentIntent) (q : RegionQuote) : bool :=
  match remainingDaily (limits q) with
  | Some rd => Qltb rd (amount i)
  | None => false
  end.

Definition gate_method (i : PaymentIntent) (q : RegionQuote) : bool :=
  match supportedMethods q with
  | Some (m :: l) => negb (includes (m :: l) (paymentMethod i))
  | _ => false
  end.

Definition spec_gates (i : PaymentIntent) (rc : option RoutingConfig)
  : list ((RegionQuote -> bool) * FilterReason) :=
  [ (gate_unavailable, region_unavailable);
    (gate_allow rc, region_not_allowed);
    (gate_block rc, region_blocked);
    (gate_below_min i, amount_below_min);
    (gate_above_max i, amount_above_max);
    (gate_daily i, daily_limit_exceeded);
    (gate_method i, method_not_supported) ].

(** The reason of the first failing gate, if any gate fails. *)
Fixpoint first_failing (gs : list ((RegionQuote -> bool) * FilterReason))
    (q : RegionQuote) : option FilterReason :=
  match gs with
  | [] => None
  | (g, r) :: gs' => if g q then Some r else first_failing gs' q
  end.

End Filter.

(** ** src/routing/scorer.ts *)

Module Scorer.
Import Js Types.

Local Open Scope Q_scope.

Record Range := mkRange { rmin : Q; rmax : Q }.

Record Ranges := mkRanges {
  cost : Range;
  successRateRange : Range;
  latencyRange : Range
}.

Record ScoringMeta := mkMeta {
  totalQuotes : nat;
  weightsUsed : RoutingWeights;
  ranges : Ranges
}.

Record ScoringResult := mkScoring {
  quotes : list RegionQuote;
  best : option RegionQuote;
  meta : ScoringMeta
}.

Definition DEFAULT_WEIGHTS : RoutingWeights := mkWeights (7#10) (25#100) (5#100).

Definition Qltb (a b : Q) : bool := negb (Qle_bool b a).

(** [Math.min(...xs)] and [Math.max(...xs)].  The source applies them to
    non-empty arrays only (on an empty one they give an infinity, for which
    [0] stands here). *)
Definition Math_min (xs : list Q) : Q :=
  match xs with [] => 0 | x :: r => fold_left Qmin r x end.
Definition Math_max (xs : list Q) : Q :=
  match xs with [] => 0 | x :: r => fold_left Qmax r x end.

(** [a / b] as the source computes it: a zero divisor gives an infinity
    or [NaN]. *)
Definition js_div (a b : Q) : Ratio :=
  if Qeq_bool b 0 then
    if Qltb 0 a then RPosInf else if Qltb a 0 then RNegInf else RNaN
  else RFin (a / b).

(** [normalize] *)
Definition normalize (value lo hi : Q) : Q :=
  if Qeq_bool hi lo then 0 else (value - lo) / (hi - lo).

(** A penalty is a finite number or [+Infinity] (from a zero [limits.max]
    with a negative [remainingDaily]). *)
Inductive Penalty := Fin (p : Q) | Inf.

Definition penalty_add (a : Penalty) (b : Q) : Penalty :=
  match a with Fin p => Fin (p + b) | Inf => Inf end.

(** [calculatePenalties] *)
Definition calculatePenalties (quote : RegionQuote) : Penalty :=
  let penalty := Fin 0 in
  let penalty :=
    match remainingDaily (limits quote) with
    | Some rd =>
        match js_div rd (max (limits quote)) with
        | RFin r =>
            let limitRatio := 1 - r in
            if Qltb (8#10) limitRatio
            then penalty_add penalty ((1#10) * (limitRatio - (8#10)) * 5)
            else penalty
        | RNegInf => Inf          (* limitRatio = +Infinity *)
        | RPosInf => penalty      (* limitRatio = -Infinity *)
        | RNaN => penalty         (* NaN > 0.8 is false *)
        end
    | None => penalty
    end in
  let penalty :=
    match successRate quote with
    | Some sr => if Qltb sr (8#10)
                 then penalty_add penalty (((8#10) - sr) * (2#10)) else penalty
    | None => penalty
    end in
  let penalty :=
    match latencyMs quote with
    | Some l => if Qltb 500 l then penalty_add penalty (5#100) else penalty
    | None => penalty
    end in
  penalty.

(** [calculateScore]: the weighted sum plus penalties, clamped to [0,1]. *)
Definition calculateScore (quote : RegionQuote) (weights : RoutingWeights)
    (ranges : Ranges) : Q :=
  let normalizedCost :=
    normalize (totalCost quote) (rmin (cost ranges)) (rmax (cost ranges)) in
  let successRate := orElse (successRate quote) (9#10) in
  let normalizedSuccessInverted :=
    1 - normalize successRate (rmin (successRateRange ranges))
                              (rmax (successRateRange ranges)) in
  let latency := orElse (latencyMs quote) 100 in
  let normalizedLatency :=
    normalize latency (rmin (latencyRange ranges)) (rmax (latencyRange ranges)) in
  let score :=
    price weights * normalizedCost
    + success weights * normalizedSuccessInverted
    + Types.latency weights * normalizedLatency in
  match calculatePenalties quote with
  | Fin p => Qmax 0 (Qmin 1 (score + p))
  | Inf => Qmax 0 (Qmin 1 1)
  end.

Definition ratio_times (r : Ratio) (k : Q) : Ratio :=
  match r with RFin q => RFin (q * k) | _ => r end.

(** [generateReasons] *)
Definition generateReasons (quote : RegionQuote) (score : Q)
    (weights : RoutingWeights) : list Reason :=
  (if Qltb (5#10) (price weights)
   then [RCost (totalCost quote) (price weights)] else [])
  ++ match successRate quote with
     | Some sr =>
         RSuccessRate (sr * 100)
         :: (if Qltb sr (85#100) then [RBelowAverageSuccess] else [])
     | None => []
     end
  ++ match latencyMs quote with
     | Some l => RLatency l :: (if Qltb 500 l then [RHighLatency] else [])
     | None => []
     end
  ++ match remainingDaily (limits quote) with
     | Some rd => [RDailyLimit (ratio_times (js_div rd (max (limits quote))) 100)]
     | None => []
     end
  ++ [RFinalScore score].

(** [Array.prototype.sort(compare)]: a stable sort; [a] stays before [b]
    when [compare(a, b) <= 0]. *)
Section Sort.
Context {A : Type} (compare : A -> A -> Q).

Fixpoint insert (x : A) (l : list A) : list A :=
  match l with
  | [] => [x]
  | y :: l' => if Qle_bool (compare x y) 0 then x :: l else y :: insert x l'
  end.

Definition sort (l : list A) : list A := fold_right insert [] l.
End Sort.

Definition byScore (a b : RegionQuote) : Q := score a - score b.

(** The normalization ranges computed at the head of [scoreQuotes]. *)
Definition computeRanges (quotes : list RegionQuote) : Ranges :=
  let costs := map totalCost quotes in
  let successRates := map (fun q => orElse (successRate q) (9#10)) quotes in
  let latencies := map (fun q => orElse (latencyMs q) 100) quotes in
  mkRanges
    (mkRange (Math_min costs) (Math_max costs))
    (mkRange (Math_min successRates) (Math_max successRates))
    (mkRange (Math_min latencies) (Math_max latencies)).

(** The body of the [quotes.map] callback in [scoreQuotes]. *)
Definition scoreOne (weights : RoutingWeights) (ranges : Ranges)
    (quote : RegionQuote) : RegionQuote :=
  let score := calculateScore quote weights ranges in
  let reasons := generateReasons quote score weights in
  with_score quote score reasons.

(** [scoreQuotes] *)
Definition scoreQuotes (quotes : list RegionQuote) (weights : RoutingWeights)
  : ScoringResult :=
  match quotes with
  | [] =>
      mkScoring [] None
        (mkMeta 0 weights
           (mkRanges (mkRange 0 0) (mkRange 0 0) (mkRange 0 0)))
  | _ :: _ =>
      let ranges := computeRanges quotes in
      let scoredQuotes := map (scoreOne weights ranges) quotes in
      let scoredQuotes := sort byScore scoredQuotes in
      mkScoring scoredQuotes (hd_error scoredQuotes)
        (mkMeta (length quotes) weights ranges)
  end.

(** [customScore] *)
Definition customScore (quotes : list RegionQuote)
    (scoreFn : RegionQuote -> Q) : list RegionQuote :=
  sort byScore
    (map (fun quote => with_score quote (scoreFn quote) (reasons quote)) quotes).

End Scorer.

(** ** src/routing/strategy.ts *)

Module Strategy.
Import Types.

Record QuoteResult := mkQuoteResult {
  intentId : string;
  quotes : list RegionQuote;
  best : option RegionQuote;
  generatedAt : Z;
  durationMs : Z;
  fromCache : bool;
  (** [warnings]: the number in ["N regions filtered out"], if any *)
  warnings : option nat
}.

Inductive StrategyName := SPinned | SNamed (s : RoutingStrategy).

(** [reasonSummary], before it is joined into one string. *)
Inductive ReasonSummary :=
| PinnedTo (region : string)
| Selected (region router : string) (cost : Q) (successRate : option Q)
    (alternatives : nat) (strategy : RoutingStrategy).

Record RouteDecision := mkDecision {
  d_intentId : string;
  chosenRegion : string;
  chosenRouterId : string;
  alternatives : list RegionQuote;
  reasonSummary : ReasonSummary;
  quoteResult : QuoteResult;
  strategy : StrategyName;
  decidedAt : Z
}.

Definition default_weights : RoutingWeights := mkWeights (7#10) (25#100) (5#100).

(** The table [strategies] of built-in strategies. *)
Definition strategies (s : RoutingStrategy)
  : option (list RegionQuote -> RoutingConfig -> list RegionQuote) :=
  match s with
  | Cheapest =>
      Some (fun quotes _ => Scorer.quotes (Scorer.scoreQuotes quotes (mkWeights 1 0 0)))
  | HighestSuccess =>
      Some (fun quotes _ => Scorer.quotes (Scorer.scoreQuotes quotes (mkWeights 0 1 0)))
  | Balanced =>
      Some (fun quotes config =>
              let weights := Js.orElse (weights config) default_weights in
              Scorer.quotes (Scorer.scoreQuotes quotes weights))
  | Custom => None
  end.

Definition balanced (quotes : list RegionQuote) (config : RoutingConfig)
  : list RegionQuote :=
  let weights := Js.orElse (weights config) default_weights in
  Scorer.quotes (Scorer.scoreQuotes quotes weights).

(** [applyStrategy] *)
Definition applyStrategy (quotes : list RegionQuote) (intent : PaymentIntent)
    (config : RoutingConfig) : list RegionQuote :=
  let strategy := Js.orElse (Types.strategy config) Balanced in
  match strategy, customScorer config with
  | Custom, Some scorer =>
      scorer quotes (Js.orElse (weights config) default_weights)
  | _, _ =>
      match strategies strategy with
      | None => balanced quotes config
      | Some strategyFn => strategyFn quotes config
      end
  end.

(** [generateDecisionSummary] *)
Definition generateDecisionSummary (chosen : RegionQuote)
    (alts : list RegionQuote) (config : RoutingConfig) : ReasonSummary :=
  Selected (region chosen) (Js.orElse (routerName chosen) (routerId chosen))
    (totalCost chosen) (successRate chosen) (length alts)
    (Js.orElse (Types.strategy config) Balanced).

(** [makeRouteDecision]; [None] is the source's [null]. *)
Definition makeRouteDecision (now : Z) (quoteResult : QuoteResult)
    (intent : PaymentIntent) (config : RoutingConfig) : option RouteDecision :=
  let auto :=
    let availableQuotes := filter available (quotes quoteResult) in
    match availableQuotes with
    | [] => None
    | _ =>
        let rankedQuotes := applyStrategy availableQuotes intent config in
        match rankedQuotes with
        | [] => None
        | best :: rest =>
            Some (mkDecision (id intent) (region best) (routerId best) rest
                    (generateDecisionSummary best rankedQuotes config)
                    quoteResult
                    (SNamed (Js.orElse (Types.strategy config) Balanced))
                    now)
        end
    end in
  match mode config, pinnedRegion config with
  | ModePinned, Some pinned =>
      if String.eqb pinned "" then auto else
      match find (fun q => String.eqb (region q) pinned && available q)
                 (quotes quoteResult) with
      | Some pinnedQuote =>
          Some (mkDecision (id intent) (region pinnedQuote) (routerId pinnedQuote)
                  (filter (fun q => negb (String.eqb (region q) (region pinnedQuote)))
                          (quotes quoteResult))
                  (PinnedTo pinned) quoteResult SPinned now)
      | None => auto
      end
  | _, _ => auto
  end.

(** [getNextFallback]: [failedRegions] is a [Set<string>]. *)
Definition getNextFallback (decision : RouteDecision)
    (failedRegions : list string) : option RegionQuote :=
  find (fun alternative =>
          negb (includes failedRegions (region alternative))
          && available alternative)
       (alternatives decision).

End Strategy.

(** ** src/circuit-breaker/index.ts *)

Module CircuitBreaker.
Import Js.

Inductive CircuitState := closed | open | half_open.

Definition state_eqb (a b : CircuitState) : bool :=
  match a, b with
  | closed, closed | open, open | half_open, half_open => true
  | _, _ => false
  end.

(** Errors that leave [execute]: the wrapped function's own error, or the
    [CircuitOpenError] of the default fallback. *)
Inductive Thrown (E : Type) :=
| CircuitOpenError (message : string)
| Raised (e : E).
Arguments CircuitOpenError {E} message.
Arguments Raised {E} e.

Section Breaker.
(** [T]: results of the protected calls; [E]: the errors they throw. *)
Context {T E : Type}.

Record CircuitBreakerConfig := mkConfig {
  failureThreshold : Z;
  resetTimeoutMs : Z;
  successThreshold : Z;
  rollingWindowMs : Z;
  isFailure : E -> bool;
  fallback : Outcome T (Thrown E);
  monitorIntervalMs : Z
}.

(** The constructor's defaults. *)
Definition defaultConfig (failureThreshold resetTimeoutMs : Z)
    (successThreshold rollingWindowMs : option Z)
    (isFailure : option (E -> bool))
    (fallback : option (Outcome T (Thrown E)))
    (monitorIntervalMs : option Z) : CircuitBreakerConfig :=
  mkConfig failureThreshold resetTimeoutMs
    (match successThreshold with Some n => n | None => 3 end)
    (match rollingWindowMs with Some n => n | None => 60000 end)
    (match isFailure with Some f => f | None => fun _ => true end)
    (match fallback with
     | Some f => f
     | None => Throw (CircuitOpenError "Circuit is open")
     end)
    (match monitorIntervalMs with Some n => n | None => 10000 end).

Record CircuitCall := mkCall {
  timestamp : Z;
  success : bool;
  duration : Z;
  error : option E
}.

(** Which transition callback ran. *)
Inductive Callback := onOpen | onClose | onHalfOpen.

Record t := mkBreaker {
  state : CircuitState;
  config : CircuitBreakerConfig;
  calls : list CircuitCall;
  consecutiveSuccesses : nat;
  consecutiveFailures : nat;
  lastFailureTime : option Z;
  lastSuccessTime : option Z;
  openedAt : option Z;
  (** due time of the pending [setTimeout], if one is scheduled *)
  halfOpenTimer : option Z;
  (** the callbacks run so far, latest first *)
  fired : list Callback
}.

Definition new (cfg : CircuitBreakerConfig) : t :=
  mkBreaker closed cfg [] O O None None None None [].

(** [cleanupOldCalls] *)
Definition cleanupOldCalls (now : Z) (b : t) : t :=
  let cutoff := now - rollingWindowMs (config b) in
  mkBreaker (state b) (config b)
    (filter (fun c => cutoff <=? timestamp c) (calls b))
    (consecutiveSuccesses b) (consecutiveFailures b) (lastFailureTime b)
    (lastSuccessTime b) (openedAt b) (halfOpenTimer b) (fired b).

Definition failuresOf (b : t) : Z :=
  Z.of_nat (length (filter (fun c => negb (success c)) (calls b))).

(** [shouldAttemptReset]: a missing (or zero) [openedAt] counts as due. *)
Definition shouldAttemptReset (now : Z) (b : t) : bool :=
  match openedAt b with
  | None => true
  | Some o => if o =? 0 then true else resetTimeoutMs (config b) <=? now - o
  end.

(** [transitionTo]; [getStats()] inside it runs [cleanupOldCalls]. *)
Definition transitionTo (now : Z) (newState : CircuitState) (b : t) : t :=
  if state_eqb (state b) newState then b else
  let b1 := cleanupOldCalls now b in
  match newState with
  | open =>
      mkBreaker open (config b1) (calls b1) (consecutiveSuccesses b1)
        (consecutiveFailures b1) (lastFailureTime b1) (lastSuccessTime b1)
        (Some now) (Some (now + resetTimeoutMs (config b1)))
        (onOpen :: fired b1)
  | half_open =>
      mkBreaker half_open (config b1) (calls b1) (consecutiveSuccesses b1)
        (consecutiveFailures b1) (lastFailureTime b1) (lastSuccessTime b1)
        (openedAt b1) None (onHalfOpen :: fired b1)
  | closed =>
      mkBreaker closed (config b1) (calls b1) (consecutiveSuccesses b1)
        O (lastFailureTime b1) (lastSuccessTime b1)
        None None (onClose :: fired b1)
  end.

(** [recordSuccess] *)
Definition recordSuccess (now : Z) (duration : Z) (b : t) : t :=
  let b1 :=
    mkBreaker (state b) (config b)
      (calls b ++ [mkCall now true duration None])
      (S (consecutiveSuccesses b)) O (lastFailureTime b) (Some now)
      (openedAt b) (halfOpenTimer b) (fired b) in
  let b2 := cleanupOldCalls now b1 in
  if state_eqb (state b2) half_open
     && (successThreshold (config b2) <=? Z.of_nat (consecutiveSuccesses b2))
  then transitionTo now closed b2
  else b2.

(** [recordFailure] *)
Definition recordFailure (now : Z) (duration : Z) (err : option E) (b : t) : t :=
  let b1 :=
    mkBreaker (state b) (config b)
      (calls b ++ [mkCall now false duration err])
      O (S (consecutiveFailures b)) (Some now) (lastSuccessTime b)
      (openedAt b) (halfOpenTimer b) (fired b) in
  let b2 := cleanupOldCalls now b1 in
  match state b2 with
  | half_open => transitionTo now open b2
  | closed =>
      if failureThreshold (config b2) <=? failuresOf b2
      then transitionTo now open b2
      else b2
  | open => b2
  end.

(** The check at the head of [execute]: the breaker that lets the call
    through (moved to half-open when the reset is due), or [None] when an
    open circuit refuses the call. *)
Definition letThrough (startTime : Z) (b : t) : option t :=
  match state b with
  | open =>
      if shouldAttemptReset startTime b
      then Some (transitionTo startTime half_open b)
      else None
  | _ => Some b
  end.

(** The result of [execute]: what the caller gets, whether the wrapped
    function was invoked, and the breaker afterwards. *)
Record Run := mkRun {
  result : Outcome T (Thrown E);
  invoked : bool;
  after : t
}.

(** [execute(fn)].  [startTime] is the clock when [execute] is entered;
    [fn startTime] is what the wrapped function completes with, and the
    clock at that moment.  No other call on the breaker and no timer runs
    while [fn] is pending. *)
Definition execute (startTime : Z) (fn : Z -> Outcome T E * Z) (b : t) : Run :=
  match letThrough startTime b with
  | None => mkRun (fallback (config b)) false b
  | Some b1 =>
      let '(out, endTime) := fn startTime in
      match out with
      | Return v =>
          mkRun (Return v) true (recordSuccess endTime (endTime - startTime) b1)
      | Throw e =>
          if isFailure (config b1) e
          then mkRun (Throw (Raised e)) true
                 (recordFailure endTime (endTime - startTime) (Some e) b1)
          else mkRun (Throw (Raised e)) true
                 (recordSuccess endTime (endTime - startTime) b1)
      end
  end.

(** [executeWithFallback] *)
Definition executeWithFallback (startTime : Z) (fn : Z -> Outcome T E * Z)
    (fallbackValue : T) (b : t) : Run :=
  let r := execute startTime fn b in
  match result r with
  | Throw (CircuitOpenError _) => mkRun (Return fallbackValue) (invoked r) (after r)
  | _ => r
  end.

Record CircuitStats := mkCircuitStats {
  st_state : CircuitState;
  st_failures : nat;
  st_successes : nat;
  st_consecutiveSuccesses : nat;
  st_consecutiveFailures : nat;
  st_lastFailureTime : option Z;
  st_lastSuccessTime : option Z;
  st_openedAt : option Z;
  st_totalCalls : nat;
  st_failureRate : Q
}.

(** [getStats()]: it first drops the calls that left the window. *)
Definition getStats (now : Z) (b : t) : CircuitStats * t :=
  let b1 := cleanupOldCalls now b in
  let failures := length (filter (fun c => negb (success c)) (calls b1)) in
  let successes := length (filter (fun c => success c) (calls b1)) in
  (mkCircuitStats (state b1) failures successes (consecutiveSuccesses b1)
     (consecutiveFailures b1) (lastFailureTime b1) (lastSuccessTime b1)
     (openedAt b1) (length (calls b1))
     (if (0 <? length (calls b1))%nat
      then (inject_Z (Z.of_nat failures)
            / inject_Z (Z.of_nat (length (calls b1))))%Q
      else 0%Q),
   b1).

Definition getState (b : t) : CircuitState := state b.

Definition trip (now : Z) (b : t) : t := transitionTo now open b.

(** [reset] *)
Definition reset (now : Z) (b : t) : t :=
  let b1 := transitionTo now closed b in
  mkBreaker (state b1) (config b1) [] O O None None None
    (halfOpenTimer b1) (fired b1).

Definition isAllowed (now : Z) (b : t) : bool :=
  match state b with
  | closed => true
  | half_open => true
  | open => shouldAttemptReset now b
  end.

(** The [setTimeout] callback scheduled on opening. *)
Definition halfOpenTimerFires (now : Z) (b : t) : t :=
  match state b with
  | open => transitionTo now half_open b
  | _ => b
  end.

(** One tick of the monitor started by [startMonitoring]. *)
Definition monitorTick (now : Z) (b : t) : t :=
  let b1 := cleanupOldCalls now b in
  if state_eqb (state b1) open && shouldAttemptReset now b1
  then transitionTo now half_open b1
  else b1.

(** A run of calls made one after the other: each element is the clock at
    entry and the behaviour of the wrapped function. *)
Fixpoint executeAll (cs : list (Z * (Z -> Outcome T E * Z))) (b : t) : t :=
  match cs with
  | [] => b
  | (startTime, fn) :: cs' => executeAll cs' (after (execute startTime fn b))
  end.
End Breaker.
Arguments CircuitBreakerConfig : clear implicits.
Arguments CircuitCall : clear implicits.
Arguments t : clear implicits.
Arguments Run : clear implicits.

End CircuitBreaker.

(** ** src/idempotency/index.ts *)

Module Idempotency.
Import Js.

Inductive Status := processing | completed | failed.

Section Manager.
(** [D]: request payloads; [T]: results of the guarded function;
    [E]: the errors it throws.  [hashRequest] is the SHA-256 of the JSON
    text of the payload. *)
Context {D T E : Type}.
Variable hashRequest : D -> string.

(** What the field [response] holds: a result, or the error stored by
    [fail]. *)
Inductive Response :=
| Result (r : T)
| Failure (e : E).

(** [response] and [lockedUntil] are [None] when the field is
    [undefined]. *)
Record IdempotencyRecord := mkRecord {
  key : string;
  requestHash : string;
  response : option Response;
  status : Status;
  createdAt : Z;
  completedAt : option Z;
  expiresAt : Z;
  lockedUntil : option Z
}.

Inductive ErrorCode := KEY_MISMATCH | IN_PROGRESS | NOT_FOUND.

Record IdempotencyError := mkError {
  code : ErrorCode;
  existingRecord : option IdempotencyRecord
}.

(** [MemoryStorage] *)
Definition Storage := JsMap.t IdempotencyRecord.

Definition storage_get (now : Z) (s : Storage) (k : string)
  : option IdempotencyRecord * Storage :=
  match JsMap.get s k with
  | None => (None, s)
  | Some record =>
      if expiresAt record <? now then (None, JsMap.delete s k)
      else (Some record, s)
  end.

Definition storage_set (s : Storage) (k : string) (r : IdempotencyRecord)
  : Storage := JsMap.set s k r.

Definition storage_delete (s : Storage) (k : string) : Storage :=
  JsMap.delete s k.

Definition cleanup_step (now : Z) (acc : nat * Storage)
    (kr : string * IdempotencyRecord) : nat * Storage :=
  if expiresAt (snd kr) <? now
  then (S (fst acc), JsMap.delete (snd acc) (fst kr))
  else acc.

Definition storage_cleanup (now : Z) (s : Storage) : nat * Storage :=
  fold_left (cleanup_step now) s (O, s).

Record IdempotencyManager := mkManager {
  storage : Storage;
  ttlMs : Z;
  lockTimeoutMs : Z;
  maxConcurrent : Z
}.

Definition new (ttl lockTimeout maxConc : option Z) : IdempotencyManager :=
  mkManager [] (orElse ttl (24 * 60 * 60 * 1000)) (orElse lockTimeout 60000)
    (orElse maxConc 1000).

Definition with_storage (m : IdempotencyManager) (s : Storage)
  : IdempotencyManager :=
  mkManager s (ttlMs m) (lockTimeoutMs m) (maxConcurrent m).

Record CheckResult := mkCheck {
  canProceed : bool;
  existingResponse : option Response;
  record : option IdempotencyRecord
}.

(** [check(key, requestData)] *)
Definition check (now : Z) (m : IdempotencyManager) (k : string) (requestData : D)
  : Outcome CheckResult IdempotencyError * IdempotencyManager :=
  let hash := hashRequest requestData in
  let '(existing, s) := storage_get now (storage m) k in
  let m' := with_storage m s in
  match existing with
  | None => (Return (mkCheck true None None), m')
  | Some existing =>
      if negb (String.eqb (requestHash existing) hash) then
        (Throw (mkError KEY_MISMATCH (Some existing)), m')
      else
        match status existing with
        | completed =>
            (Return (mkCheck false (response existing) (Some existing)), m')
        | failed => (Return (mkCheck true None (Some existing)), m')
        | processing =>
            match lockedUntil existing with
            | Some l =>
                if negb (l =? 0) && (now <? l)
                then (Throw (mkError IN_PROGRESS (Some existing)), m')
                else (Return (mkCheck true None (Some existing)), m')
            | None => (Return (mkCheck true None (Some existing)), m')
            end
        end
  end.

(** [startProcessing(key, requestData)] *)
Definition startProcessing (now : Z) (m : IdempotencyManager) (k : string)
    (requestData : D) : IdempotencyRecord * IdempotencyManager :=
  let record :=
    mkRecord k (hashRequest requestData) None processing now None
      (now + ttlMs m) (Some (now + lockTimeoutMs m)) in
  (record, with_storage m (storage_set (storage m) k record)).

(** [complete(key, response)]; the response may be [undefined]. *)
Definition complete (now : Z) (m : IdempotencyManager) (k : string)
    (resp : option T) : Outcome unit IdempotencyError * IdempotencyManager :=
  let '(existing, s) := storage_get now (storage m) k in
  match existing with
  | None => (Throw (mkError NOT_FOUND None), with_storage m s)
  | Some existing =>
      let updated :=
        mkRecord (key existing) (requestHash existing)
          (option_map Result resp) completed (createdAt existing) (Some now)
          (expiresAt existing) None in
      (Return tt, with_storage m (storage_set s k updated))
  end.

(** [fail(key, error)] *)
Definition fail (now : Z) (m : IdempotencyManager) (k : string)
    (err : option Response) : IdempotencyManager :=
  let '(existing, s) := storage_get now (storage m) k in
  match existing with
  | None => with_storage m s
  | Some existing =>
      let updated :=
        mkRecord (key existing) (requestHash existing)
          err failed (createdAt existing) (Some now)
          (expiresAt existing) None in
      with_storage m (storage_set s k updated)
  end.

(** What [execute] throws: an error of the guard, or the error of the
    guarded function. *)
Inductive ExecuteError :=
| Guard (e : IdempotencyError)
| Fn (e : E).

Record Run := mkRun {
  result : Outcome (option Response) ExecuteError;
  invoked : bool;
  after : IdempotencyManager
}.

(** [execute(key, requestData, fn)].  [fn now] is what the guarded function
    completes with ([None] for [undefined]) and the clock at that moment.
    The value an [IdempotencyError] of [complete] leaves in [response]
    through [fail] is outside [T] and [E]; it is stored as [None]. *)
Definition execute (now : Z) (m : IdempotencyManager) (k : string)
    (requestData : D) (fn : Z -> Outcome (option T) E * Z) : Run :=
  match check now m k requestData with
  | (Throw e, m1) => mkRun (Throw (Guard e)) false m1
  | (Return c, m1) =>
      match canProceed c, existingResponse c with
      | false, Some r => mkRun (Return (Some r)) false m1
      | _, _ =>
          let m2 := snd (startProcessing now m1 k requestData) in
          let '(out, endTime) := fn now in
          match out with
          | Return r =>
              match complete endTime m2 k r with
              | (Return _, m3) => mkRun (Return (option_map Result r)) true m3
              | (Throw e, m3) =>
                  mkRun (Throw (Guard e)) true (fail endTime m3 k None)
              end
          | Throw e =>
              mkRun (Throw (Fn e)) true (fail endTime m2 k (Some (Failure e)))
          end
      end
  end.

Definition delete (m : IdempotencyManager) (k : string) : IdempotencyManager :=
  with_storage m (storage_delete (storage m) k).

Definition get (now : Z) (m : IdempotencyManager) (k : string)
  : option IdempotencyRecord * IdempotencyManager :=
  let '(r, s) := storage_get now (storage m) k in (r, with_storage m s).

Definition cleanup (now : Z) (m : IdempotencyManager)
  : nat * IdempotencyManager :=
  let '(n, s) := storage_cleanup now (storage m) in (n, with_storage m s).
End Manager.

End Idempotency.

(** ** src/types/errors.ts, src/types/payment.ts *)

Module Errors.

Inductive GeoPayErrorCode :=
| REGION_NOT_ALLOWED | REGION_NOT_FOUND | NO_AVAILABLE_REGIONS
| REGION_LIMIT_EXCEEDED | METHOD_NOT_SUPPORTED
| PAYMENT_DECLINED | INSUFFICIENT_FUNDS | CARD_EXPIRED | INVALID_CARD
| FRAUD_DETECTED | AUTHENTICATION_REQUIRED | AUTHENTICATION_FAILED
| TIMEOUT | NETWORK_ERROR | SERVICE_UNAVAILABLE | RATE_LIMITED | INTERNAL_ERROR
| INVALID_INTENT | MISSING_REQUIRED_FIELD | INVALID_AMOUNT | INVALID_CURRENCY
| INVALID_TOKEN
| SANCTIONS_BLOCKED | KYC_REQUIRED | COMPLIANCE_REJECTED
| LAYER403_ERROR | INVALID_SIGNATURE | AUTHENTICATION_ERROR
| UNKNOWN_ERROR.

(** [RETRYABLE_CODES.has(code)] *)
Definition RETRYABLE_CODES_has (c : GeoPayErrorCode) : bool :=
  match c with
  | TIMEOUT | NETWORK_ERROR | SERVICE_UNAVAILABLE | RATE_LIMITED
  | INTERNAL_ERROR | LAYER403_ERROR => true
  | _ => false
  end.

Inductive AttemptStatus := attempt_succeeded | attempt_failed.

(** [GeoPayError], its [details] and [PaymentAttempt] refer to each other:
    the error of the last line of [pay] carries the attempts, and an attempt
    carries the error it failed with.  [details] is one of the objects the
    sources put there; [GatewayDetails] is the JSON the gateway sent. *)
Inductive GeoPayError :=
| mkError (code : GeoPayErrorCode) (message : string) (isRetryable : bool)
    (details : Details) (timestamp : Z) (requestId : option string)
with Details :=
| NoDetails
| GatewayDetails (json : string)
| IntentDetails (intentId : string)
| DecisionDetails (decision : Strategy.RouteDecision)
| AttemptsDetails (attempts : list PaymentAttempt)
with PaymentAttempt :=
| mkAttempt (attemptNumber : Z) (region routerId : string)
    (status : AttemptStatus) (error : option GeoPayError)
    (timestamp durationMs : Z).

Definition code (e : GeoPayError) := let '(mkError c _ _ _ _ _) := e in c.
Definition message (e : GeoPayError) := let '(mkError _ m _ _ _ _) := e in m.
Definition isRetryable (e : GeoPayError) := let '(mkError _ _ r _ _ _) := e in r.
Definition details (e : GeoPayError) := let '(mkError _ _ _ d _ _) := e in d.

Definition attemptNumber (a : PaymentAttempt) := let '(mkAttempt n _ _ _ _ _ _) := a in n.
Definition region (a : PaymentAttempt) := let '(mkAttempt _ r _ _ _ _ _) := a in r.
Definition routerId (a : PaymentAttempt) := let '(mkAttempt _ _ r _ _ _ _) := a in r.
Definition status (a : PaymentAttempt) := let '(mkAttempt _ _ _ s _ _ _) := a in s.
Definition error (a : PaymentAttempt) := let '(mkAttempt _ _ _ _ e _ _) := a in e.

(** What a [catch] can receive: a [GeoPayException] (it has the fields of
    its [GeoPayError]) or some other error. *)
Inductive Exception :=
| GeoPayException (e : GeoPayError)
| OtherError (message : string).

(** [GeoPayException.toJSON] *)
Definition toJSON (e : GeoPayError) : GeoPayError := e.

(** [createError] *)
Definition createError (now : Z) (c : GeoPayErrorCode) (msg : string)
    (d : Details) (requestId : option string) : GeoPayError :=
  mkError c msg (RETRYABLE_CODES_has c) d now requestId.

(** [httpStatusToErrorCode] *)
Definition httpStatusToErrorCode (status : Z) : GeoPayErrorCode :=
  if status =? 400 then INVALID_INTENT
  else if status =? 401 then AUTHENTICATION_ERROR
  else if status =? 403 then REGION_NOT_ALLOWED
  else if status =? 404 then REGION_NOT_FOUND
  else if status =? 408 then TIMEOUT
  else if status =? 429 then RATE_LIMITED
  else if (status =? 500) || (status =? 502) || (status =? 503) || (status =? 504)
  then SERVICE_UNAVAILABLE
  else UNKNOWN_ERROR.

(** [isRetryableError] *)
Definition isRetryableError (e : GeoPayError) : bool := isRetryable e.

(** The attempts log an error carries in its [details], if it carries one. *)
Definition attemptsOf (x : Exception) : option (list PaymentAttempt) :=
  match x with
  | GeoPayException e =>
      match details e with
      | AttemptsDetails l => Some l
      | _ => None
      end
  | OtherError _ => None
  end.

Inductive PaymentStatus :=
| succeeded | failed | pending | requires_action | processing | cancelled
| refunded | partially_refunded.

Record PaymentResult := mkResult {
  intentId : string;
  p_status : PaymentStatus;
  regionUsed : string;
  p_routerId : string;
  providerPaymentId : string;
  costApplied : Q;
  amountCharged : Q;
  currencyCharged : string;
  processedAt : Z;
  p_error : option GeoPayError;
  attempts : list PaymentAttempt;
  idempotencyKey : string
}.

(** [{ ...result, attempts, idempotencyKey }] *)
Definition with_attempts (r : PaymentResult) (l : list PaymentAttempt)
    (k : string) : PaymentResult :=
  mkResult (intentId r) (p_status r) (regionUsed r) (p_routerId r)
    (providerPaymentId r) (costApplied r) (amountCharged r)
    (currencyCharged r) (processedAt r) (p_error r) l k.

Record PaymentOptions := mkOptions {
  o_idempotencyKey : option string;
  forceRegion : option string;
  noFallback : bool
}.

End Errors.

(** ** src/layer403/client.ts and src/client.ts *)

Module Client.
Import Js Types Errors.

(** [Layer403Response<T>] *)
Record Layer403Response (T : Type) := mkResponse {
  r_success : bool;
  r_data : option T;
  r_error : option (string * Details);
  r_requestId : option string
}.

Record QuoteRequest := mkQuoteRequest {
  q_intent : PaymentIntent;
  q_regions : option (list string);
  q_includeUnavailable : bool
}.

Record PayRequest := mkPayRequest {
  intent : PaymentIntent;
  region : string;
  routerId : string;
  idempotencyKey : string
}.

Record QuoteOptions := mkQuoteOptions {
  force : bool;
  includeUnavailable : bool;
  regions : option (list string)
}.

Definition noQuoteOptions : QuoteOptions := mkQuoteOptions false false None.

(** The decimal text of an integer, as in a template literal. *)
Definition showZ (n : Z) : string :=
  DecimalString.NilEmpty.string_of_int (Z.to_int n).

Record GeoPaySwitch := mkClient {
  routingConfig : RoutingConfig;
  complianceConfig : ComplianceConfig;
  cache : CacheM.Cache Strategy.QuoteResult
}.

Section WithGateway.
(** Everything outside the process: the gateway behind [fetch], the
    clock and the random source.  [requestQuote] and [requestPay] are
    [Layer403Client.request] on ["/quote"] and ["/pay"]; [sleep] is the
    wait of [setTimeout]; [numberToString] prints a number inside a
    template literal. *)
Context {Ext : Type}.
Variable clock : Ext -> Z.
Variable requestQuote :
  QuoteRequest -> Ext -> Outcome (Layer403Response (list RegionQuote)) Exception * Ext.
Variable requestPay :
  PayRequest -> Ext -> Outcome (Layer403Response PaymentResult) Exception * Ext.
Variable sleep : Z -> Ext -> Ext.
Variable generateIdempotencyKey : Ext -> string * Ext.
Variable numberToString : Q -> string.

(** The client, the outside, and the list of requests sent to ["/pay"]
    so far (kept to count gateway calls, as a test double would). *)
Record State := mkState {
  client : GeoPaySwitch;
  ext : Ext;
  payCalls : list PayRequest
}.

Definition now (st : State) : Z := clock (ext st).

(** [Layer403Client.getQuotes] *)
Definition getQuotes (request : QuoteRequest) (st : State)
  : Outcome (list RegionQuote) Exception * State :=
  let '(out, e) := requestQuote request (ext st) in
  let st' := mkState (client st) e (payCalls st) in
  match out with
  | Throw x => (Throw x, st')
  | Return response => (Return (orElse (r_data response) []), st')
  end.

(** [Layer403Client.executePayment] *)
Definition executePayment (request : PayRequest) (st : State)
  : Outcome PaymentResult Exception * State :=
  let '(out, e) := requestPay request (ext st) in
  let st' := mkState (client st) e (payCalls st ++ [request]) in
  match out with
  | Throw x => (Throw x, st')
  | Return response =>
      match r_success response, r_data response with
      | true, Some data => (Return data, st')
      | _, _ =>
          (Throw (GeoPayException
             (createError (clock e) LAYER403_ERROR
                (match r_error response with
                 | Some (m, _) => m
                 | None => "Payment failed"
                 end)
                (match r_error response with
                 | Some (_, d) => d
                 | None => NoDetails
                 end)
                (r_requestId response))), st')
      end
  end.

(** [createQuoteCacheKey] *)
Definition createQuoteCacheKey (intentId : string) (amount : Q)
    (currency method : string) : string :=
  ("quote:" ++ intentId ++ ":" ++ numberToString amount ++ ":" ++ currency
     ++ ":" ++ method)%string.

Definition with_cache (st : State) (c : CacheM.Cache Strategy.QuoteResult)
  : State :=
  mkState (mkClient (routingConfig (client st)) (complianceConfig (client st)) c)
    (ext st) (payCalls st).

Definition intentKey (i : PaymentIntent) : string :=
  createQuoteCacheKey (id i) (amount i) (currency i) (paymentMethod i).

(** [quote(intent, options)] *)
Definition quote (i : PaymentIntent) (options : QuoteOptions) (st : State)
  : Outcome Strategy.QuoteResult Exception * State :=
  let started := now st in
  let '(cached, st0) :=
    if negb (force options) then
      let '(c, cache') := CacheM.get (now st) (cache (client st)) (intentKey i) in
      (c, with_cache st cache')
    else (None, st) in
  match cached with
  | Some c =>
      (Return (Strategy.mkQuoteResult (Strategy.intentId c) (Strategy.quotes c)
                 (Strategy.best c) (Strategy.generatedAt c)
                 (Strategy.durationMs c) true (Strategy.warnings c)), st0)
  | None =>
      match getQuotes (mkQuoteRequest i (regions options) (includeUnavailable options)) st0 with
      | (Throw x, st1) => (Throw x, st1)
      | (Return rawQuotes, st1) =>
          let fr :=
            Filter.filterQuotes rawQuotes i
              (Some (routingConfig (client st1)))
              (Some (complianceConfig (client st1))) in
          let scoringResult :=
            Scorer.scoreQuotes (Filter.passed fr)
              (orElse (weights (routingConfig (client st1))) Scorer.DEFAULT_WEIGHTS) in
          let result :=
            Strategy.mkQuoteResult (id i)
              (if includeUnavailable options
               then Scorer.quotes scoringResult
                      ++ map Filter.quote (Filter.filtered fr)
               else Scorer.quotes scoringResult)
              (Scorer.best scoringResult)
              (now st1) (now st1 - started) false
              (match Filter.filtered fr with
               | [] => None
               | l => Some (length l)
               end) in
          let st2 :=
            if negb (force options)
            then with_cache st1
                   (CacheM.set (now st1) (cache (client st1)) (intentKey i) result None)
            else st1 in
          (Return result, st2)
      end
  end.

(** [decideRoute(intent, options)] *)
Definition decideRoute (i : PaymentIntent) (options : QuoteOptions) (st : State)
  : Outcome Strategy.RouteDecision Exception * State :=
  match quote i options st with
  | (Throw x, st1) => (Throw x, st1)
  | (Return quoteResult, st1) =>
      match Strategy.makeRouteDecision (now st1) quoteResult i
              (routingConfig (client st1)) with
      | None =>
          (Throw (GeoPayException
             (createError (now st1) NO_AVAILABLE_REGIONS
                "No available regions found for this payment"
                (IntentDetails (id i)) None)), st1)
      | Some decision => (Return decision, st1)
      end
  end.

(** The variables of the loop in [pay]. *)
Record Loop := mkLoop {
  attempts : list PaymentAttempt;
  failedRegions : list string;
  currentRegion : string;
  currentRouterId : string
}.

(** [Set.prototype.add] *)
Definition set_add (s : string) (l : list string) : list string :=
  if includes l s then l else l ++ [s].

(** What [pay] leaves behind: the result or the thrown error, the local
    array [attempts] when it returned or threw, and the state. *)
Record PayRun := mkPayRun {
  outcome : Outcome PaymentResult Exception;
  attemptsLog : list PaymentAttempt;
  final : State
}.

Section PayLoop.
Variable i : PaymentIntent.
Variable key : string.
Variable decision : Strategy.RouteDecision.
Variable maxAttempts : Z.
Variable fb : option FallbackConfig.

(** The [for] loop of [pay].  [remaining] counts the iterations the
    loop condition [attempt <= maxAttempts] still allows; at [0] the
    loop is left and the last statement of [pay] throws. *)
Fixpoint payLoop (remaining : nat) (attempt : Z) (l : Loop) (st : State)
  : PayRun :=
  match remaining with
  | O =>
      mkPayRun
        (Throw (GeoPayException
           (createError (now st) INTERNAL_ERROR
              "Payment failed after all attempts"
              (AttemptsDetails (attempts l)) None)))
        (attempts l) st
  | S remaining' =>
      let started := now st in
      let request :=
        mkPayRequest i (currentRegion l) (currentRouterId l)
          (key ++ "-" ++ showZ attempt)%string in
      match executePayment request st with
      | (Return result, st1) =>
          let log :=
            attempts l
            ++ [mkAttempt attempt (currentRegion l) (currentRouterId l)
                  attempt_succeeded None (now st1) (now st1 - started)] in
          mkPayRun (Return (with_attempts result log key)) log st1
      | (Throw error, st1) =>
          let geoPayError :=
            match error with
            | GeoPayException e => Some (toJSON e)
            | OtherError _ => None
            end in
          let log :=
            attempts l
            ++ [mkAttempt attempt (currentRegion l) (currentRouterId l)
                  attempt_failed geoPayError (now st1) (now st1 - started)] in
          let failed := set_add (currentRegion l) (failedRegions l) in
          if match geoPayError with
             | None => true
             | Some e => negb (isRetryableError e)
             end
          then mkPayRun (Throw error) log st1
          else
            match
              if (attempt <? maxAttempts)
                 && match fb with Some f => enabled f | None => false end
              then Strategy.getNextFallback decision failed
              else None
            with
            | Some fallback =>
                let st2 :=
                  match fb with
                  | Some f =>
                      if backoffMs f =? 0 then st1
                      else mkState (client st1)
                             (sleep (backoffMs f * attempt) (ext st1))
                             (payCalls st1)
                  | None => st1
                  end in
                payLoop remaining' (attempt + 1)
                  (mkLoop log failed (Types.region fallback)
                     (Types.routerId fallback)) st2
            | None => mkPayRun (Throw error) log st1
            end
      end
  end.
End PayLoop.

(** [pay(intent, options)] *)
Definition pay (i : PaymentIntent) (options : PaymentOptions) (st : State)
  : PayRun :=
  let '(key, st) :=
    match o_idempotencyKey options with
    | Some k => (k, st)
    | None =>
        let '(k, e) := generateIdempotencyKey (ext st) in
        (k, mkState (client st) e (payCalls st))
    end in
  match mode (routingConfig (client st)) with
  | ModeDryRun =>
      match decideRoute i noQuoteOptions st with
      | (Throw x, st1) => mkPayRun (Throw x) [] st1
      | (Return decision, st1) =>
          mkPayRun
            (Throw (GeoPayException
               (createError (now st1) INTERNAL_ERROR
                  "Dry-run mode enabled - payment not executed"
                  (DecisionDetails decision) None)))
            [] st1
      end
  | _ =>
      match decideRoute i noQuoteOptions st with
      | (Throw x, st1) => mkPayRun (Throw x) [] st1
      | (Return decision, st1) =>
          let forced :=
            match forceRegion options with
            | Some r => if String.eqb r "" then None else Some r
            | None => None
            end in
          let currentRegion :=
            orElse (forceRegion options) (Strategy.chosenRegion decision) in
          let currentRouterId :=
            match forced with
            | Some r =>
                match find (fun q => String.eqb (Types.region q) r)
                        (Strategy.quotes (Strategy.quoteResult decision)) with
                | Some forcedQuote => Types.routerId forcedQuote
                | None => Strategy.chosenRouterId decision
                end
            | None => Strategy.chosenRouterId decision
            end in
          let fb := fallback (routingConfig (client st1)) in
          let maxAttempts :=
            if noFallback options then 1
            else match fb with Some f => maxTries f | None => 3 end in
          payLoop i key decision maxAttempts fb (Z.to_nat maxAttempts) 1
            (mkLoop [] [] currentRegion currentRouterId) st1
      end
  end.
End WithGateway.
Arguments State : clear implicits.
Arguments PayRun : clear implicits.

End Client.

(** * Statements of the design document

    The sentences of the document that are compared with the code, written
    over the embedding above. *)

Module Spec.

(** Section 8, cache round-trip, read as one sequence of calls: [set],
    a [get] before the TTL elapses, a [get] after it, then [prune]. *)
Definition cache_round_trip : Prop :=
  forall (T : Type) (c : CacheM.Cache T) (k : string) (v : T)
         (ttl t0 t1 t2 t3 : Z),
    CacheM.wf c ->
    t0 <= t1 -> t1 < t0 + ttl -> t0 + ttl < t2 -> t2 <= t3 ->
    let c1 := CacheM.set t0 c k v (Some ttl) in
    let r1 := CacheM.get t1 c1 k in
    let r2 := CacheM.get t2 (snd r1) k in
    let r3 := CacheM.prune t3 (snd r2) in
    fst r1 = Some v
    /\ fst r2 = None
    /\ (1 <= fst r3)%nat
    /\ JsMap.get (CacheM.store (snd r3)) k = None.

(** A quote without the two fields the scorer assigns: two quotes with the
    same [unscored] differ at most in [score] and [reasons]. *)
Definition unscored (q : Types.RegionQuote) : Types.RegionQuote :=
  Types.with_score q 0 [].

(** Non-decreasing score along a list. *)
Definition le_score (a b : Types.RegionQuote) : Prop :=
  (Types.score a <= Types.score b)%Q.

Definition ascending (l : list Types.RegionQuote) : Prop :=
  StronglySorted le_score l.



(** Section 8, idempotence of [pay]: a second [pay] with the key of a
    completed first one returns the first result and sends nothing to the
    gateway. *)
Definition pay_idempotent : Prop :=
  forall (Ext : Type) (clock : Ext -> Z)
         (requestQuote : Client.QuoteRequest -> Ext ->
            Js.Outcome (Client.Layer403Response (list Types.RegionQuote))
              Errors.Exception * Ext)
         (requestPay : Client.PayRequest -> Ext ->
            Js.Outcome (Client.Layer403Response Errors.PaymentResult)
              Errors.Exception * Ext)
         (sleep : Z -> Ext -> Ext)
         (generateIdempotencyKey : Ext -> string * Ext)
         (numberToString : Q -> string)
         (i : Types.PaymentIntent) (options : Errors.PaymentOptions)
         (k : string) (st : Client.State Ext) (res : Errors.PaymentResult),
    Errors.o_idempotencyKey options = Some k ->
    let pay := Client.pay clock requestQuote requestPay sleep
                 generateIdempotencyKey numberToString in
    let first := pay i options st in
    Client.outcome first = Js.Return res ->
    let second := pay i options (Client.final first) in
    Client.outcome second = Js.Return res
    /\ Client.payCalls (Client.final second) = Client.payCalls (Client.final first).

Section Executor.
Import Js Types Errors Client.
Context {Ext : Type}.
Variable clock : Ext -> Z.
Variable requestPay :
  PayRequest -> Ext -> Outcome (Layer403Response PaymentResult) Exception * Ext.
Variable sleep : Z -> Ext -> Ext.

Definition Breaker := CircuitBreaker.t PaymentResult Exception.

(** The document's gateway call (section 4.6, step 2: "call the Gateway
    Client's pay operation through the Circuit Breaker"), written with the
    breaker of [src/circuit-breaker/index.ts].  The gateway is reached, and
    the state moves on, only when the breaker invokes the function. *)
Definition executePaymentThroughBreaker (request : PayRequest)
    (st : State Ext) (b : Breaker)
  : Outcome PaymentResult (CircuitBreaker.Thrown Exception) * State Ext * Breaker :=
  let '(out, st1) := executePayment clock requestPay request st in
  let run := CircuitBreaker.execute (clock (ext st))
               (fun _ => (out, clock (ext st1))) b in
  (CircuitBreaker.result run,
   if CircuitBreaker.invoked run then st1 else st,
   CircuitBreaker.after run).

Record GuardedRun := mkGuardedRun {
  g_outcome : Outcome PaymentResult (CircuitBreaker.Thrown Exception);
  g_attemptsLog : list PaymentAttempt;
  g_final : State Ext;
  g_breaker : Breaker
}.

(** The document's fallback loop (section 4.6): the loop of [pay] with the
    gateway call routed through the breaker.  A "circuit open" signal is
    not a gateway error, so it is not retryable. *)
Fixpoint payLoopThroughBreaker (i : PaymentIntent) (key : string)
    (decision : Strategy.RouteDecision) (maxAttempts : Z)
    (fb : option FallbackConfig) (remaining : nat) (attempt : Z)
    (l : Loop) (st : State Ext) (b : Breaker) : GuardedRun :=
  match remaining with
  | O =>
      mkGuardedRun
        (Throw (CircuitBreaker.Raised (GeoPayException
           (createError (clock (ext st)) INTERNAL_ERROR
              "Payment failed after all attempts"
              (AttemptsDetails (attempts l)) None))))
        (attempts l) st b
  | S remaining' =>
      let started := clock (ext st) in
      let request :=
        mkPayRequest i (currentRegion l) (currentRouterId l)
          (key ++ "-" ++ showZ attempt)%string in
      match executePaymentThroughBreaker request st b with
      | (Return result, st1, b1) =>
          let log :=
            attempts l
            ++ [mkAttempt attempt (currentRegion l) (currentRouterId l)
                  attempt_succeeded None (clock (ext st1))
                  (clock (ext st1) - started)] in
          mkGuardedRun (Return (with_attempts result log key)) log st1 b1
      | (Throw error, st1, b1) =>
          let geoPayError :=
            match error with
            | CircuitBreaker.Raised (GeoPayException e) => Some (toJSON e)
            | _ => None
            end in
          let log :=
            attempts l
            ++ [mkAttempt attempt (currentRegion l) (currentRouterId l)
                  attempt_failed geoPayError (clock (ext st1))
                  (clock (ext st1) - started)] in
          let failed := set_add (currentRegion l) (failedRegions l) in
          if match geoPayError with
             | None => true
             | Some e => negb (isRetryableError e)
             end
          then mkGuardedRun (Throw error) log st1 b1
          else
            match
              if (attempt <? maxAttempts)
                 && match fb with Some f => enabled f | None => false end
              then Strategy.getNextFallback decision failed
              else None
            with
            | Some fallback =>
                let st2 :=
                  match fb with
                  | Some f =>
                      if backoffMs f =? 0 then st1
                      else mkState (client st1)
                             (sleep (backoffMs f * attempt) (ext st1))
                             (payCalls st1)
                  | None => st1
                  end in
                payLoopThroughBreaker i key decision maxAttempts fb
                  remaining' (attempt + 1)
                  (mkLoop log failed (Types.region fallback)
                     (Types.routerId fallback)) st2 b1
            | None => mkGuardedRun (Throw error) log st1 b1
            end
      end
  end.


(** An error the loop does not retry. *)
Definition nonRetryable (x : Exception) : Prop :=
  match x with
  | GeoPayException e => isRetryableError e = false
  | OtherError _ => True
  end.


(** An attempt made in the region and through the router of an available
    alternative of the decision. *)
Definition fromAlternative (decision : Strategy.RouteDecision)
    (a : PaymentAttempt) : Prop :=
  exists q,
    In q (Strategy.alternatives decision)
    /\ Types.available q = true
    /\ Types.region q = Errors.region a
    /\ Types.routerId q = Errors.routerId a.

(** The request the loop of [pay] sends for an attempt, and the entry it
    pushes on the log when the attempt fails. *)
Definition requestOf (i : PaymentIntent) (key : string) (attempt : Z)
    (l : Loop) : PayRequest :=
  mkPayRequest i (currentRegion l) (currentRouterId l)
    (key ++ "-" ++ showZ attempt)%string.

Definition failedEntry (attempt : Z) (l : Loop) (error : Exception)
    (st st1 : State Ext) : PaymentAttempt :=
  mkAttempt attempt (currentRegion l) (currentRouterId l) attempt_failed
    (match error with
     | GeoPayException e => Some (toJSON e)
     | OtherError _ => None
     end)
    (clock (ext st1)) (clock (ext st1) - clock (ext st)).
End Executor.


(** Sections 4.6 step 4 and 7: when an attempt fails with an error that is
    not retryable the loop stops there and the error that reaches the
    caller carries the attempts log. *)
Definition non_retryable_error_carries_attempts : Prop :=
  forall (Ext : Type) (clock : Ext -> Z)
         (requestPay : Client.PayRequest -> Ext ->
            Js.Outcome (Client.Layer403Response Errors.PaymentResult)
              Errors.Exception * Ext)
         (sleep : Z -> Ext -> Ext)
         (i : Types.PaymentIntent) (key : string)
         (decision : Strategy.RouteDecision) (maxAttempts : Z)
         (fb : option Types.FallbackConfig) (remaining : nat) (attempt : Z)
         (l : Client.Loop) (st st1 : Client.State Ext)
         (error : Errors.Exception),
    Client.executePayment clock requestPay
      (Client.mkPayRequest i (Client.currentRegion l) (Client.currentRouterId l)
         (key ++ "-" ++ Client.showZ attempt)%string) st
    = (Js.Throw error, st1) ->
    nonRetryable error ->
    let run := Client.payLoop clock requestPay sleep i key decision maxAttempts
                 fb (S remaining) attempt l st in
    Client.final run = st1
    /\ exists x, Client.outcome run = Js.Throw x
                 /\ Errors.attemptsOf x = Some (Client.attemptsLog run).

End Spec.

(** * Sample data for concrete runs *)

Module Samples.
Import Js.

Local Open Scope string_scope.

(** A breaker configuration: open after 2 failures in the window, retry
    after 1000 ms, close after 3 successes; errors named ["ignored"] are not
    counted as failures. *)
Definition breakerConfig : CircuitBreaker.CircuitBreakerConfig unit string :=
  CircuitBreaker.defaultConfig 2 1000 None None
    (Some (fun e => negb (String.eqb e "ignored"))) None None.

Definition succeedAfter (d : Z) : Z -> Outcome unit string * Z :=
  fun t => (Return tt, t + d).

Definition failAfter (e : string) (d : Z) : Z -> Outcome unit string * Z :=
  fun t => (Throw e, t + d).


(** A gateway and a client.  The outside world is the clock alone. *)
Definition intent : Types.PaymentIntent :=
  Types.mkIntent "pi_1" 100 "USD" "card" None None.

Definition quoteFor (region : string) (cost : Q) : Types.RegionQuote :=
  Types.mkQuote region ("router_" ++ region) None cost
    (Types.mkFees 0 0 0 None None) (Types.mkLimits 1 10000 None None None)
    (Some (95#100)) (Some 100%Q) 0 [] true None None None.

Definition quotes : list Types.RegionQuote :=
  [quoteFor "EU" 3; quoteFor "UK" 2; quoteFor "SG" 4].

Definition routing : Types.RoutingConfig :=
  Types.mkRouting Types.ModeAuto None (Some []) (Some [])
    (Some (Types.mkWeights 1 0 0)) (Some (Types.mkFallback true 3 1000))
    (Some Types.Balanced) None.

Definition geopay : Client.GeoPaySwitch :=
  Client.mkClient routing (Types.mkCompliance true false false)
    (CacheM.new 60000 (Some 1000)).

(** The scenario of the document: a region under maintenance, which the
    allow-list names and the block-list does not. *)
Definition maintenance : Types.RegionQuote :=
  Types.mkQuote "EU" "router_EU" None 3
    (Types.mkFees 0 0 0 None None) (Types.mkLimits 1 10000 None None None)
    (Some (95#100)) (Some 100%Q) 0 [] false (Some "Maintenance") None None.

Definition allowEU : Types.RoutingConfig :=
  Types.mkRouting Types.ModeAuto None (Some ["EU"]) (Some ["BR"])
    None None None None.

Definition clock (t : Z) : Z := t.

Definition requestQuote (_ : Client.QuoteRequest) (t : Z)
  : Outcome (Client.Layer403Response (list Types.RegionQuote)) Errors.Exception * Z :=
  (Return (Client.mkResponse true (Some quotes) None (Some "req_q")), t + 10).

Definition paid (request : Client.PayRequest) : Errors.PaymentResult :=
  Errors.mkResult "pi_1" Errors.succeeded (Client.region request)
    (Client.routerId request) "prov_1" 2 100 "USD" 0 None [] "".

(** Every payment goes through. *)
Definition requestPay_ok (request : Client.PayRequest) (t : Z)
  : Outcome (Client.Layer403Response Errors.PaymentResult) Errors.Exception * Z :=
  (Return (Client.mkResponse true (Some (paid request)) None (Some "req_p")),
   t + 20).

Definition declined (t : Z) : Errors.GeoPayError :=
  Errors.createError t Errors.PAYMENT_DECLINED "Card declined" Errors.NoDetails
    (Some "req_p").

(** Every payment is declined. *)
Definition requestPay_declined (request : Client.PayRequest) (t : Z)
  : Outcome (Client.Layer403Response Errors.PaymentResult) Errors.Exception * Z :=
  (Throw (Errors.GeoPayException (declined t)), t + 20).

(** The UK and EU routes time out, the others go through. *)
Definition requestPay_flaky (request : Client.PayRequest) (t : Z)
  : Outcome (Client.Layer403Response Errors.PaymentResult) Errors.Exception * Z :=
  if String.eqb (Client.region request) "UK"
     || String.eqb (Client.region request) "EU"
  then (Throw (Errors.GeoPayException
                 (Errors.createError t Errors.TIMEOUT "Request timed out"
                    Errors.NoDetails (Some "req_p"))), t + 8000)
  else requestPay_ok request t.

Definition sleep (d : Z) (t : Z) : Z := t + d.

Definition generateIdempotencyKey (t : Z) : string * Z := ("idem_00", t).

Definition numberToString (_ : Q) : string := "100".

Definition start : Client.State Z := Client.mkState geopay 0 [].

(** The same client with another routing mode and fallback setting. *)
Definition geopayWith (mode : Types.RoutingMode)
    (fallback : option Types.FallbackConfig) : Client.GeoPaySwitch :=
  Client.mkClient
    (Types.mkRouting mode None (Some []) (Some [])
       (Some (Types.mkWeights 1 0 0)) fallback (Some Types.Balanced) None)
    (Types.mkCompliance true false false)
    (CacheM.new 60000 (Some 1000)).

Definition startWith (mode : Types.RoutingMode)
    (fallback : option Types.FallbackConfig) : Client.State Z :=
  Client.mkState (geopayWith mode fallback) 0 [].

Definition startAt (t : Z) : Client.State Z := Client.mkState geopay t [].

(** A decision for the sample quotes: UK first, then EU and SG. *)
Definition decision : Strategy.RouteDecision :=
  Strategy.mkDecision "pi_1" "UK" "router_UK"
    [quoteFor "EU" 3; quoteFor "SG" 4]
    (Strategy.Selected "UK" "router_UK" 2 (Some (95#100)) 3 Types.Balanced)
    (Strategy.mkQuoteResult "pi_1" quotes (Some (quoteFor "UK" 2)) 0 10 false None)
    (Strategy.SNamed Types.Balanced) 0.

Definition firstTry : Client.Loop := Client.mkLoop [] [] "UK" "router_UK".

Definition withKey (k : string) : Errors.PaymentOptions :=
  Errors.mkOptions (Some k) None false.

Definition payWith requestPay :=
  Client.pay clock requestQuote requestPay sleep generateIdempotencyKey
    numberToString.

(** A breaker around the gateway that has been tripped at time 4000. *)
Definition trippedBreaker : Spec.Breaker :=
  CircuitBreaker.trip 4000
    (CircuitBreaker.new
       (CircuitBreaker.defaultConfig 5 30000 None None None None None)).

End Samples.

(** * Properties *)

Unset Implicit Arguments.

(** ** Facts about [JsMap] *)

Section JsMapFacts.
Context {V : Type}.
Implicit Types (m : JsMap.t V) (k : string) (v : V).

Lemma JsMap_get_set_same m k v : JsMap.get (JsMap.set m k v) k = Some v.
Proof.
  induction m as [|[k' v'] m IH]; simpl.
  - now rewrite String.eqb_refl.
  - destruct (String.eqb k k') eqn:Hk; simpl.
    + now rewrite String.eqb_refl.
    + now rewrite Hk.
Qed.

Lemma JsMap_get_set_other m k k' v :
  k' <> k -> JsMap.get (JsMap.set m k v) k' = JsMap.get m k'.
Proof.
  intros Hne. induction m as [|[k0 v0] m IH]; simpl.
  - destruct (String.eqb_spec k' k); congruence.
  - destruct (String.eqb_spec k k0) as [->|Hk]; simpl.
    + destruct (String.eqb_spec k' k0); congruence.
    + destruct (String.eqb_spec k' k0); congruence.
Qed.

Lemma JsMap_get_In m k v : JsMap.get m k = Some v -> In (k, v) m.
Proof.
  induction m as [|[k' v'] m IH]; simpl; [discriminate|].
  destruct (String.eqb_spec k k') as [->|Hk]; intros H.
  - injection H as ->. now left.
  - right. auto.
Qed.

Lemma JsMap_get_None_keys m k : JsMap.get m k = None -> ~ In k (JsMap.keys m).
Proof.
  induction m as [|[k' v'] m IH]; simpl; [tauto|].
  destruct (String.eqb_spec k k') as [->|Hk]; [discriminate|].
  intros H [Heq|Hin]; [congruence|]. now apply IH.
Qed.

Lemma JsMap_notin_get m k : ~ In k (JsMap.keys m) -> JsMap.get m k = None.
Proof.
  induction m as [|[k' v'] m IH]; simpl; [reflexivity|].
  intros H. destruct (String.eqb_spec k k') as [->|Hk]; [tauto|].
  apply IH. tauto.
Qed.

Lemma JsMap_delete_notin m k : ~ In k (JsMap.keys m) -> JsMap.delete m k = m.
Proof.
  induction m as [|[k' v'] m IH]; simpl; [reflexivity|].
  intros H. destruct (String.eqb_spec k k') as [->|Hk]; [tauto|].
  f_equal. apply IH. tauto.
Qed.

Lemma JsMap_keys_delete_incl m k x :
  In x (JsMap.keys (JsMap.delete m k)) -> In x (JsMap.keys m).
Proof.
  induction m as [|[k' v'] m IH]; simpl; [tauto|].
  destruct (String.eqb k k'); simpl; tauto.
Qed.

Lemma JsMap_wf_delete m k : JsMap.wf m -> JsMap.wf (JsMap.delete m k).
Proof.
  unfold JsMap.wf. induction m as [|[k' v'] m IH]; simpl; [auto|].
  intros H. inversion H as [|? ? Hn Hd]; subst.
  destruct (String.eqb k k'); simpl; [assumption|].
  constructor; [|auto]. intros Hin. apply Hn.
  eapply JsMap_keys_delete_incl; eauto.
Qed.

Lemma JsMap_keys_set m k v x :
  In x (JsMap.keys (JsMap.set m k v)) -> x = k \/ In x (JsMap.keys m).
Proof.
  induction m as [|[k' v'] m IH]; simpl.
  - intros [H|[]]; auto.
  - destruct (String.eqb_spec k k') as [->|Hk]; simpl; intros [H|H]; auto.
    destruct (IH H); auto.
Qed.

Lemma JsMap_wf_set m k v : JsMap.wf m -> JsMap.wf (JsMap.set m k v).
Proof.
  unfold JsMap.wf. induction m as [|[k' v'] m IH]; simpl; intros H.
  - constructor; [simpl; tauto | constructor].
  - inversion H as [|? ? Hn Hd]; subst.
    destruct (String.eqb_spec k k') as [->|Hk]; simpl.
    + now constructor.
    + constructor; [|auto]. intros Hin.
      destruct (JsMap_keys_set _ _ _ _ Hin); congruence.
Qed.

Lemma JsMap_get_delete_same m k :
  JsMap.wf m -> JsMap.get (JsMap.delete m k) k = None.
Proof.
  unfold JsMap.wf. induction m as [|[k' v'] m IH]; simpl; [reflexivity|].
  intros H. inversion H as [|? ? Hn Hd]; subst.
  destruct (String.eqb_spec k k') as [->|Hk]; simpl.
  - now apply JsMap_notin_get.
  - destruct (String.eqb_spec k k'); [congruence|auto].
Qed.

Lemma JsMap_get_delete_other m k k' :
  k' <> k -> JsMap.get (JsMap.delete m k) k' = JsMap.get m k'.
Proof.
  intros Hne. induction m as [|[k0 v0] m IH]; simpl; [reflexivity|].
  destruct (String.eqb_spec k k0) as [->|Hk]; simpl.
  - destruct (String.eqb_spec k' k0); congruence.
  - destruct (String.eqb_spec k' k0); congruence.
Qed.

Lemma JsMap_size_delete m k v :
  JsMap.get m k = Some v -> S (JsMap.size (JsMap.delete m k)) = JsMap.size m.
Proof.
  unfold JsMap.size. induction m as [|[k' v'] m IH]; simpl; [discriminate|].
  destruct (String.eqb k k'); simpl; [reflexivity|].
  intros H. f_equal. auto.
Qed.

(** Deleting the entry found under [k] removes it from a count. *)
Lemma JsMap_count_delete (P : V -> bool) m k v :
  JsMap.get m k = Some v ->
  (length (filter (fun kv => P (snd kv)) (JsMap.delete m k))
   + (if P v then 1 else 0))%nat
  = length (filter (fun kv => P (snd kv)) m).
Proof.
  induction m as [|[k' v'] m IH]; simpl; [discriminate|].
  destruct (String.eqb k k'); simpl.
  - intros H. injection H as ->. destruct (P v); simpl; lia.
  - intros H. specialize (IH H). destruct (P v'); simpl; lia.
Qed.

Lemma JsMap_delete_app_notin (pre m : JsMap.t V) k :
  ~ In k (JsMap.keys pre) ->
  JsMap.delete (pre ++ m) k = pre ++ JsMap.delete m k.
Proof.
  induction pre as [|[k' v'] pre IH]; simpl; [reflexivity|].
  intros H. destruct (String.eqb_spec k k') as [->|Hk]; [tauto|].
  f_equal. apply IH. tauto.
Qed.
End JsMapFacts.

(** ** Facts about [Cache] *)

Section CacheFacts.
Context {T : Type}.
Implicit Types (c : CacheM.Cache T) (k : string).

Lemma keys_filter_incl (P : string * CacheM.CacheEntry T -> bool) s x :
  In x (JsMap.keys (filter P s)) -> In x (JsMap.keys s).
Proof.
  unfold JsMap.keys. rewrite !in_map_iff.
  intros [kv [<- Hin]]. apply filter_In in Hin. exists kv. tauto.
Qed.

Lemma wf_filter (P : string * CacheM.CacheEntry T -> bool) s :
  JsMap.wf s -> JsMap.wf (filter P s).
Proof.
  unfold JsMap.wf. induction s as [|kv s IH]; simpl; intros H; [constructor|].
  inversion H as [|? ? Hn Hd]; subst.
  destruct (P kv); simpl; [|auto].
  constructor; [|auto]. intros Hin. apply Hn.
  eapply keys_filter_incl; eauto.
Qed.

(** The loop of [prune], one entry at a time: [pre] holds the entries
    already visited and kept. *)
Lemma prune_fold now (l : JsMap.t (CacheM.CacheEntry T)) : forall pre n,
  JsMap.wf (pre ++ l) ->
  fold_left (CacheM.prune_step now) l (n, pre ++ l)
  = ((n + length (filter (CacheM.isExpired now) l))%nat,
     pre ++ filter (fun kv => negb (CacheM.isExpired now kv)) l).
Proof.
  induction l as [|[k e] l IH]; intros pre n Hwf; simpl.
  - f_equal. lia.
  - unfold CacheM.prune_step at 2. simpl.
    change (CacheM.isExpired now (k, e)) with (CacheM.expired now e).
    assert (Hk : ~ In k (JsMap.keys pre)).
    { unfold JsMap.wf, JsMap.keys in Hwf. rewrite map_app in Hwf.
      simpl in Hwf. apply NoDup_remove_2 in Hwf.
      intros Hin. apply Hwf. apply in_or_app. now left. }
    destruct (CacheM.expired now e) eqn:He; simpl.
    + rewrite JsMap_delete_app_notin by assumption. simpl.
      rewrite String.eqb_refl.
      rewrite IH.
      * f_equal. lia.
      * unfold JsMap.wf, JsMap.keys in *. rewrite map_app in *. simpl in Hwf.
        now apply NoDup_remove_1 in Hwf.
    + replace (pre ++ (k, e) :: l) with ((pre ++ [(k, e)]) ++ l)
        by now rewrite <- app_assoc.
      rewrite IH.
      * now rewrite <- app_assoc.
      * now rewrite <- app_assoc.
Qed.

Lemma prune_spec now c :
  CacheM.wf c ->
  CacheM.prune now c
  = (length (filter (CacheM.isExpired now) (CacheM.store c)),
     CacheM.with_store c
       (filter (fun kv => negb (CacheM.isExpired now kv)) (CacheM.store c))).
Proof.
  intros Hwf. unfold CacheM.prune.
  assert (H : fold_left (CacheM.prune_step now) (CacheM.store c)
                (O, CacheM.store c)
              = (length (filter (CacheM.isExpired now) (CacheM.store c)),
                 filter (fun kv => negb (CacheM.isExpired now kv)) (CacheM.store c)))
    by exact (prune_fold now (CacheM.store c) [] 0 Hwf).
  rewrite H. reflexivity.
Qed.

(** Unique keys are an invariant of the cache: the empty cache has it and
    every operation keeps it. *)
Lemma wf_prune now c : CacheM.wf c -> CacheM.wf (snd (CacheM.prune now c)).
Proof.
  intros H. rewrite prune_spec by assumption. simpl.
  unfold CacheM.wf. simpl. now apply wf_filter.
Qed.

Lemma wf_evictOldest now c : CacheM.wf c -> CacheM.wf (CacheM.evictOldest now c).
Proof.
  intros H. unfold CacheM.evictOldest.
  pose proof (wf_prune now c H) as Hp.
  destruct (_ <=? _); [|assumption].
  destruct (fold_left _ _ _) as [[k z]|]; [|assumption].
  unfold CacheM.wf. simpl. now apply JsMap_wf_delete.
Qed.

Lemma wf_set now c k v ttl : CacheM.wf c -> CacheM.wf (CacheM.set now c k v ttl).
Proof.
  intros H. unfold CacheM.set, CacheM.wf. simpl.
  apply JsMap_wf_set.
  destruct (_ <=? _); [now apply wf_evictOldest | assumption].
Qed.

Lemma wf_get now c k : CacheM.wf c -> CacheM.wf (snd (CacheM.get now c k)).
Proof.
  intros H. unfold CacheM.get.
  destruct (JsMap.get _ _) as [e|]; [|assumption].
  destruct (CacheM.expired now e); [|assumption].
  unfold CacheM.wf. simpl. now apply JsMap_wf_delete.
Qed.

Lemma wf_new ttl maxE : CacheM.wf (CacheM.new (T:=T) ttl maxE).
Proof. constructor. Qed.

(** After [set], the entry under the key is the one just written. *)
Lemma get_store_set now c k v ttl :
  JsMap.get (CacheM.store (CacheM.set now c k v (Some ttl))) k
  = Some (CacheM.mkEntry v (now + ttl) now).
Proof. unfold CacheM.set. simpl. apply JsMap_get_set_same. Qed.

(** A stored entry is returned as long as it has not expired. *)
Lemma get_fresh now c k e :
  JsMap.get (CacheM.store c) k = Some e ->
  now <= CacheM.expiresAt e ->
  CacheM.get now c k = (Some (CacheM.value e), c).
Proof.
  intros Hg Ht. unfold CacheM.get. rewrite Hg.
  unfold CacheM.expired. destruct (Z.ltb_spec (CacheM.expiresAt e) now); [lia|].
  reflexivity.
Qed.

(** An expired entry is reported absent and deleted. *)
Lemma get_expired now c k e :
  JsMap.get (CacheM.store c) k = Some e ->
  CacheM.expiresAt e < now ->
  CacheM.get now c k
  = (None, CacheM.with_store c (JsMap.delete (CacheM.store c) k)).
Proof.
  intros Hg Ht. unfold CacheM.get. rewrite Hg.
  unfold CacheM.expired. destruct (Z.ltb_spec (CacheM.expiresAt e) now); [|lia].
  reflexivity.
Qed.

Lemma get_filter_None (P : string * CacheM.CacheEntry T -> bool) s k e :
  JsMap.wf s -> JsMap.get s k = Some e -> P (k, e) = false ->
  JsMap.get (filter P s) k = None.
Proof.
  intros Hwf Hg HP. apply JsMap_notin_get.
  unfold JsMap.keys. rewrite in_map_iff. intros [[k' e'] [Hk Hin]].
  simpl in Hk. subst k'. apply filter_In in Hin. destruct Hin as [Hin HP'].
  assert (e' = e).
  { clear HP HP'. revert Hwf Hg Hin. unfold JsMap.wf.
    induction s as [|[k0 e0] s IH]; simpl; [tauto|].
    intros Hnd. inversion Hnd as [|? ? Hn Hd]; subst.
    destruct (String.eqb_spec k k0) as [->|Hk].
    - intros H [H'|H'].
      + congruence.
      + exfalso. apply Hn. unfold JsMap.keys. rewrite in_map_iff.
        now exists (k0, e').
    - intros H [H'|H']; [congruence|]. now apply IH. }
  subst. congruence.
Qed.

(** [prune] counts and removes a stored entry that has expired. *)
Lemma prune_counts_expired now c k e :
  CacheM.wf c ->
  JsMap.get (CacheM.store c) k = Some e ->
  CacheM.expiresAt e < now ->
  (1 <= fst (CacheM.prune now c))%nat
  /\ JsMap.get (CacheM.store (snd (CacheM.prune now c))) k = None.
Proof.
  intros Hwf Hg Ht. rewrite prune_spec by assumption. simpl.
  assert (He : CacheM.isExpired now (k, e) = true).
  { unfold CacheM.isExpired, CacheM.expired. simpl. now apply Z.ltb_lt. }
  split.
  - apply JsMap_get_In in Hg.
    assert (Hin : In (k, e) (filter (CacheM.isExpired now) (CacheM.store c)))
      by (apply filter_In; auto).
    destruct (filter (CacheM.isExpired now) (CacheM.store c)); [destruct Hin|simpl; lia].
  - apply get_filter_None with (e := e); auto. now rewrite He.
Qed.
End CacheFacts.

(** ** Cache round-trip and lazy expiry *)

(** C6, as the document states it, fails: [set "k" "v" 50] at time 0 on an
    empty cache, [get] at 10 returns the value, [get] at 100 returns absent
    and deletes the entry, so the [prune] after it removes nothing and
    returns 0. *)
Lemma cache_round_trip_fails : ~ Spec.cache_round_trip.
Proof.
  intros H.
  specialize (H string (CacheM.new 1000 (Some 10)) "k"%string "v"%string
                50 0 10 100 100 (wf_new 1000 (Some 10))).
  simpl in H.
  destruct H as (_ & _ & Hn & _); try lia.
Qed.

(** The same run, value by value: the [prune] after the expired [get]
    returns 0, while a [prune] in place of that [get] returns 1. *)
Example cache_round_trip_run :
  let c1 := CacheM.set 0 (CacheM.new 1000 (Some 10)) "k"%string "v"%string (Some 50) in
  let afterGet := snd (CacheM.get 100 (snd (CacheM.get 10 c1 "k"%string)) "k"%string) in
  fst (CacheM.get 10 c1 "k"%string) = Some "v"%string
  /\ fst (CacheM.get 100 c1 "k"%string) = None
  /\ CacheM.prune 100 afterGet = (0%nat, afterGet)
  /\ fst (CacheM.prune 100 c1) = 1%nat.
Proof. vm_compute. repeat split. Qed.

(** C6, amended: after [set(k, v, ttl)] at time [t0], a [get(k)] no later
    than [t0 + ttl] returns [v] and leaves the cache as it is; a [get(k)]
    after [t0 + ttl] returns absent; a [prune()] after [t0 + ttl] that
    still finds the entry stored (no expired [get(k)] came first) removes it
    and returns a count of at least 1; and the expired [get(k)] itself
    removes the entry. *)
Theorem cache_round_trip_amended (T : Type) (c : CacheM.Cache T)
    (k : string) (v : T) (ttl t0 t1 t2 t3 : Z) :
  CacheM.wf c ->
  t1 <= t0 + ttl -> t0 + ttl < t2 -> t0 + ttl < t3 ->
  let c1 := CacheM.set t0 c k v (Some ttl) in
  CacheM.get t1 c1 k = (Some v, c1)
  /\ fst (CacheM.get t2 c1 k) = None
  /\ (1 <= fst (CacheM.prune t3 c1))%nat
  /\ JsMap.get (CacheM.store (snd (CacheM.prune t3 c1))) k = None
  /\ JsMap.get (CacheM.store (snd (CacheM.get t2 c1 k))) k = None.
Proof.
  intros Hwf H1 H2 H3 c1.
  pose proof (get_store_set t0 c k v ttl) as Hg. fold c1 in Hg.
  assert (Hwf1 : CacheM.wf c1) by now apply wf_set.
  split; [|split; [|split; [|split]]].
  - rewrite (get_fresh t1 c1 k _ Hg); [reflexivity | simpl; lia].
  - rewrite (get_expired t2 c1 k _ Hg); [reflexivity | simpl; lia].
  - apply (prune_counts_expired t3 c1 k _ Hwf1 Hg). simpl. lia.
  - apply (prune_counts_expired t3 c1 k _ Hwf1 Hg). simpl. lia.
  - rewrite (get_expired t2 c1 k _ Hg) by (simpl; lia). simpl.
    now apply JsMap_get_delete_same.
Qed.

Lemma cache_round_trip_amended_witness :
  let c1 := CacheM.set 0 (CacheM.new 1000 (Some 10)) "k"%string "v"%string (Some 50) in
  CacheM.get 10 c1 "k"%string = (Some "v"%string, c1)
  /\ fst (CacheM.get 100 c1 "k"%string) = None
  /\ (1 <= fst (CacheM.prune 100 c1))%nat
  /\ JsMap.get (CacheM.store (snd (CacheM.prune 100 c1))) "k"%string = None
  /\ JsMap.get (CacheM.store (snd (CacheM.get 100 c1 "k"%string))) "k"%string = None.
Proof.
  apply (cache_round_trip_amended string (CacheM.new 1000 (Some 10))
           "k"%string "v"%string 50 0 10 100 100).
  - apply wf_new.
  - lia.
  - lia.
  - lia.
Defined.

(** C9: [get(k)] on an entry whose expiry has passed reports it absent and
    deletes it: the key is gone, the size drops by one, the other entries
    stay, and any later [prune()] returns one less than it would have
    returned had the entry still been there. *)
Theorem get_expired_deletes_entry (T : Type) (c : CacheM.Cache T)
    (k : string) (e : CacheM.CacheEntry T) (now : Z) :
  CacheM.wf c ->
  JsMap.get (CacheM.store c) k = Some e ->
  CacheM.expiresAt e < now ->
  let r := CacheM.get now c k in
  fst r = None
  /\ JsMap.get (CacheM.store (snd r)) k = None
  /\ S (CacheM.size (snd r)) = CacheM.size c
  /\ (forall k', k' <> k ->
        JsMap.get (CacheM.store (snd r)) k' = JsMap.get (CacheM.store c) k')
  /\ (forall later, now <= later ->
        S (fst (CacheM.prune later (snd r))) = fst (CacheM.prune later c)).
Proof.
  intros Hwf Hg Ht r. subst r.
  rewrite (get_expired now c k e Hg Ht). cbn [fst snd].
  split; [reflexivity|].
  split; [now apply JsMap_get_delete_same|].
  split; [unfold CacheM.size; simpl; now apply JsMap_size_delete with (v := e)|].
  split; [intros k' Hk'; now apply JsMap_get_delete_other|].
  intros later Hl.
  rewrite !prune_spec; simpl.
  - pose proof (JsMap_count_delete (CacheM.expired later) _ _ _ Hg) as Hc.
    assert (He : CacheM.expired later e = true).
    { unfold CacheM.expired. apply Z.ltb_lt. lia. }
    rewrite He in Hc. unfold CacheM.isExpired. lia.
  - assumption.
  - unfold CacheM.wf. simpl. now apply JsMap_wf_delete.
Qed.

Lemma get_expired_deletes_entry_witness :
  let c := CacheM.set 0 (CacheM.set 0 (CacheM.new 1000 (Some 10))
                           "a"%string "x"%string (Some 20))
             "k"%string "v"%string (Some 50) in
  let r := CacheM.get 100 c "k"%string in
  fst r = None
  /\ JsMap.get (CacheM.store (snd r)) "k"%string = None
  /\ S (CacheM.size (snd r)) = CacheM.size c
  /\ (forall k', k' <> "k"%string ->
        JsMap.get (CacheM.store (snd r)) k' = JsMap.get (CacheM.store c) k')
  /\ (forall later, 100 <= later ->
        S (fst (CacheM.prune later (snd r))) = fst (CacheM.prune later c)).
Proof.
  apply (get_expired_deletes_entry string _ "k"%string
           (CacheM.mkEntry "v"%string 50 0) 100).
  - apply wf_set, wf_set, wf_new.
  - reflexivity.
  - simpl. lia.
Defined.

(** ** Filter engine *)

Section FilterFacts.
Import Types Filter.

Lemma nonempty_gate {A} (l : list A) (b : bool) :
  (0 <? length l)%nat && b = match l with [] => false | _ :: _ => b end.
Proof. destruct l; reflexivity. Qed.

Lemma includes_nil s : includes [] s = false.
Proof. reflexivity. Qed.

(** The reason [checkQuote] records is the reason of the first gate of
    the document's list that fails. *)
Lemma checkQuote_reason q i rc cc :
  option_map reason (checkQuote q i rc cc) = first_failing (spec_gates i rc) q.
Proof.
  unfold checkQuote, spec_gates, first_failing, gate_unavailable, gate_allow,
    gate_block, gate_below_min, gate_above_max, gate_daily, gate_method.
  destruct (available q); cbn [negb]; [|reflexivity].
  destruct rc as [c|];
    [destruct (allowedRegions c) as [[|r l]|],
              (blockedRegions c) as [[|r' l']|]|];
    destruct (remainingDaily (limits q)) as [rd|];
    destruct (supportedMethods q) as [[|m ml]|];
    cbn [length Nat.ltb Nat.leb andb includes existsb option_map];
    repeat match goal with
           | |- context [if ?b then _ else _] =>
               destruct b; cbn [option_map reason]
           end;
    reflexivity.
Qed.

(** A record made by [checkQuote] is about the quote that was checked. *)
Lemma checkQuote_quote q i rc cc f :
  checkQuote q i rc cc = Some f -> quote f = q.
Proof.
  unfold checkQuote.
  repeat match goal with
         | |- context [if ?b then _ else _] => destruct b
         | |- context [match remainingDaily ?l with _ => _ end] =>
             destruct (remainingDaily l)
         end;
    intros H; try discriminate; injection H as <-; reflexivity.
Qed.

Lemma checkQuote_unavailable q i rc cc :
  available q = false ->
  checkQuote q i rc cc
  = Some (mkFiltered q region_unavailable (DUnavailable (unavailableReason q))).
Proof. intros H. unfold checkQuote. now rewrite H. Qed.

(** The loop of [filterQuotes] against the two lists it grows. *)
Lemma filterQuotes_fold i rc cc quotes : forall acc,
  fold_left (filterQuotes_step i rc cc) quotes acc
  = mkFilterResult
      (passed acc ++ filter (fun q => negb (fails i rc cc q)) quotes)
      (filtered acc ++ flat_map (verdict i rc cc) quotes).
Proof.
  induction quotes as [|q quotes IH]; intros acc; simpl.
  - rewrite !app_nil_r. now destruct acc.
  - rewrite IH. unfold filterQuotes_step at 1 2, fails at 2, verdict at 2.
    destruct (checkQuote q i rc cc); simpl.
    + now rewrite <- app_assoc.
    + now rewrite <- app_assoc.
Qed.

Lemma filterQuotes_spec quotes i rc cc :
  filterQuotes quotes i rc cc
  = mkFilterResult (filter (fun q => negb (fails i rc cc q)) quotes)
                   (flat_map (verdict i rc cc) quotes).
Proof. unfold filterQuotes. now rewrite filterQuotes_fold. Qed.

Lemma quotes_of_verdicts i rc cc quotes :
  map quote (flat_map (verdict i rc cc) quotes) = filter (fails i rc cc) quotes.
Proof.
  induction quotes as [|q quotes IH]; simpl; [reflexivity|].
  rewrite map_app, IH. unfold verdict at 1, fails at 2.
  destruct (checkQuote q i rc cc) eqn:Hc; simpl; [|reflexivity].
  now rewrite (checkQuote_quote _ _ _ _ _ Hc).
Qed.

Lemma reasons_of_verdicts i rc cc quotes :
  map (fun f => Some (reason f)) (flat_map (verdict i rc cc) quotes)
  = map (first_failing (spec_gates i rc)) (filter (fails i rc cc) quotes).
Proof.
  induction quotes as [|q quotes IH]; [reflexivity|].
  cbn [flat_map filter]. rewrite map_app, IH.
  pose proof (checkQuote_reason q i rc cc) as Hr.
  unfold verdict at 1, fails at 2.
  destruct (checkQuote q i rc cc); cbn [map app option_map] in *.
  - now rewrite <- Hr.
  - reflexivity.
Qed.
End FilterFacts.

(** C5: [checkQuote] records the reason of the first failing gate of the
    fixed order (unavailable, allow-list, block-list, below minimum, above
    maximum, daily limit, payment method); [filterQuotes] puts every quote
    either in [passed] or, with that single reason, once in [filtered]; and
    a quote with [available = false] is filtered with [region_unavailable]
    whatever the allow-list and block-list hold. *)
Theorem filterQuotes_first_failing_gate
    (quotes : list Types.RegionQuote) (q : Types.RegionQuote)
    (i : Types.PaymentIntent) (rc : option Types.RoutingConfig)
    (cc : option Types.ComplianceConfig) :
  let r := Filter.filterQuotes quotes i rc cc in
  option_map Filter.reason (Filter.checkQuote q i rc cc)
    = Filter.first_failing (Filter.spec_gates i rc) q
  /\ Filter.passed r = filter (fun q => negb (Filter.fails i rc cc q)) quotes
  /\ map Filter.quote (Filter.filtered r) = filter (Filter.fails i rc cc) quotes
  /\ map (fun f => Some (Filter.reason f)) (Filter.filtered r)
     = map (Filter.first_failing (Filter.spec_gates i rc))
         (filter (Filter.fails i rc cc) quotes)
  /\ (Types.available q = false ->
      Filter.checkQuote q i rc cc
      = Some (Filter.mkFiltered q Filter.region_unavailable
                (Filter.DUnavailable (Types.unavailableReason q)))
      /\ (In q quotes ->
          In (Filter.mkFiltered q Filter.region_unavailable
                (Filter.DUnavailable (Types.unavailableReason q)))
             (Filter.filtered r)
          /\ ~ In q (Filter.passed r))).
Proof.
  intros r. subst r. rewrite filterQuotes_spec.
  cbn [Filter.passed Filter.filtered].
  split; [apply checkQuote_reason|].
  split; [reflexivity|].
  split; [apply quotes_of_verdicts|].
  split; [apply reasons_of_verdicts|].
  intros Ha. pose proof (checkQuote_unavailable q i rc cc Ha) as Hc.
  split; [exact Hc|]. intros Hin. split.
  - apply in_flat_map. exists q. split; [assumption|].
    unfold Filter.verdict. rewrite Hc. now left.
  - intros Hp. apply filter_In in Hp. destruct Hp as [_ Hp].
    unfold Filter.fails in Hp. now rewrite Hc in Hp.
Qed.

Lemma filterQuotes_first_failing_gate_witness :
  In (Filter.mkFiltered Samples.maintenance Filter.region_unavailable
        (Filter.DUnavailable (Some "Maintenance"%string)))
     (Filter.filtered
        (Filter.filterQuotes [Samples.quoteFor "UK" 2; Samples.maintenance]
           Samples.intent (Some Samples.allowEU) None)).
Proof.
  apply (proj2 (proj2 (proj2 (proj2
           (filterQuotes_first_failing_gate
              [Samples.quoteFor "UK" 2; Samples.maintenance] Samples.maintenance
              Samples.intent (Some Samples.allowEU) None))))).
  - reflexivity.
  - right. left. reflexivity.
Defined.

(** ** Scoring engine *)

Section SortFacts.
Context {A : Type} (compare : A -> A -> Q).

Lemma insert_perm x l : Permutation (x :: l) (Scorer.insert compare x l).
Proof.
  induction l as [|y l IH]; simpl; [reflexivity|].
  destruct (Qle_bool (compare x y) 0); [reflexivity|].
  rewrite perm_swap. now constructor.
Qed.

Lemma sort_perm l : Permutation l (Scorer.sort compare l).
Proof.
  induction l as [|x l IH]; simpl; [constructor|].
  rewrite <- insert_perm. now constructor.
Qed.
End SortFacts.

Section ScorerFacts.
Import Types Scorer.

Lemma byScore_le a b : Qle_bool (byScore a b) 0 = true <-> Spec.le_score a b.
Proof.
  unfold byScore, Spec.le_score. rewrite Qle_bool_iff. split; intros H; lra.
Qed.

Lemma byScore_gt a b : Qle_bool (byScore a b) 0 = false -> Spec.le_score b a.
Proof.
  intros H. unfold Spec.le_score.
  destruct (Qlt_le_dec (score a) (score b)) as [Hlt|Hle]; [|assumption].
  assert (Ht : Qle_bool (byScore a b) 0 = true)
    by (apply byScore_le; unfold Spec.le_score; lra).
  congruence.
Qed.

Lemma insert_sorted x l :
  StronglySorted Spec.le_score l -> StronglySorted Spec.le_score (insert byScore x l).
Proof.
  induction 1 as [|y l Hs IH Hy]; simpl.
  - repeat constructor.
  - destruct (Qle_bool (byScore x y) 0) eqn:Hc.
    + apply byScore_le in Hc. constructor; [now constructor|].
      constructor; [assumption|].
      eapply Forall_impl; [|exact Hy].
      intros z Hz. unfold Spec.le_score in *. lra.
    + apply byScore_gt in Hc. constructor; [assumption|].
      eapply Permutation_Forall; [apply insert_perm|].
      now constructor.
Qed.

Lemma sort_sorted l : StronglySorted Spec.le_score (sort byScore l).
Proof.
  induction l as [|x l IH]; simpl; [constructor|]. now apply insert_sorted.
Qed.

Lemma unscored_scoreOne w r q : Spec.unscored (scoreOne w r q) = Spec.unscored q.
Proof. reflexivity. Qed.

(** Every score the scorer assigns lies in [0, 1]. *)
Lemma calculateScore_range q w r :
  (0 <= calculateScore q w r <= 1)%Q.
Proof.
  unfold calculateScore.
  destruct (calculatePenalties q) as [p|].
  - split; [apply Q.le_max_l|].
    apply Q.max_lub; [lra | apply Q.le_min_l].
  - split; [apply Q.le_max_l|].
    apply Q.max_lub; [lra | apply Q.le_min_l].
Qed.
End ScorerFacts.

(** C4: on a non-empty list, [scoreQuotes] returns the input quotes, each
    with its score and reasons assigned, in some order (a permutation of the
    input up to those two fields), ordered by non-decreasing score, and
    [best] is the first element of the returned list. *)
Theorem scoreQuotes_sorted_permutation
    (quotes : list Types.RegionQuote) (w : Types.RoutingWeights) :
  quotes <> [] ->
  let r := Scorer.scoreQuotes quotes w in
  Permutation
    (map (Scorer.scoreOne w (Scorer.computeRanges quotes)) quotes)
    (Scorer.quotes r)
  /\ Permutation (map Spec.unscored quotes) (map Spec.unscored (Scorer.quotes r))
  /\ Spec.ascending (Scorer.quotes r)
  /\ (exists first rest,
        Scorer.quotes r = first :: rest /\ Scorer.best r = Some first).
Proof.
  intros Hne r. subst r. unfold Scorer.scoreQuotes.
  destruct quotes as [|q qs]; [congruence|].
  set (quotes := q :: qs) in *. cbn [Scorer.quotes Scorer.best].
  set (scored := map (Scorer.scoreOne w (Scorer.computeRanges quotes)) quotes).
  assert (Hp : Permutation scored (Scorer.sort Scorer.byScore scored))
    by apply sort_perm.
  split; [exact Hp|].
  split.
  - rewrite <- (Permutation_map Spec.unscored Hp).
    unfold scored. rewrite map_map.
    apply Permutation_refl.
  - split; [apply sort_sorted|].
    destruct (Scorer.sort Scorer.byScore scored) as [|first rest] eqn:Hs.
    + apply Permutation_sym, Permutation_nil in Hp. discriminate.
    + now exists first, rest.
Qed.

(** The ranking scenario of the document: costs EU 3, UK 2, SG 4 under
    the weights (1, 0, 0) rank as UK, EU, SG. *)
Example scoreQuotes_scenario :
  let r := Scorer.scoreQuotes Samples.quotes (Types.mkWeights 1 0 0) in
  map Types.region (Scorer.quotes r) = ["UK"; "EU"; "SG"]%string
  /\ option_map Types.region (Scorer.best r) = Some "UK"%string.
Proof. vm_compute. split; reflexivity. Qed.

Lemma scoreQuotes_sorted_permutation_witness :
  let q := Types.mkQuote "EU" "r" None 3
             (Types.mkFees 0 0 0 None None) (Types.mkLimits 0 100 None None None)
             None None 0 [] true None None None in
  exists first rest,
    Scorer.quotes (Scorer.scoreQuotes [q] (Types.mkWeights 1 0 0)) = first :: rest
    /\ Scorer.best (Scorer.scoreQuotes [q] (Types.mkWeights 1 0 0)) = Some first.
Proof.
  intros q.
  apply (scoreQuotes_sorted_permutation [q] (Types.mkWeights 1 0 0)).
  discriminate.
Defined.

(** ** Circuit breaker *)

Section BreakerFacts.
Import Js CircuitBreaker.
Context {T E : Type}.
Implicit Types (b : CircuitBreaker.t T E).

Lemma state_eqb_eq (a c : CircuitState) : state_eqb a c = true <-> a = c.
Proof. destruct a, c; simpl; split; congruence. Qed.

Lemma filter_idem {A} (f : A -> bool) (l : list A) :
  filter f (filter f l) = filter f l.
Proof.
  induction l as [|x l IH]; simpl; [reflexivity|].
  destruct (f x) eqn:Hf; simpl; [rewrite Hf|]; congruence.
Qed.

Lemma cleanup_idem now b :
  cleanupOldCalls now (cleanupOldCalls now b) = cleanupOldCalls now b.
Proof. unfold cleanupOldCalls. simpl. now rewrite filter_idem. Qed.

Lemma transitionTo_state now s b : state (transitionTo now s b) = s.
Proof.
  unfold transitionTo. destruct (state_eqb (state b) s) eqn:H.
  - now apply state_eqb_eq.
  - destruct s; reflexivity.
Qed.

Lemma transitionTo_config now s b : config (transitionTo now s b) = config b.
Proof.
  unfold transitionTo. destruct (state_eqb (state b) s); [reflexivity|].
  destruct s; reflexivity.
Qed.

Lemma transitionTo_successes now s b :
  consecutiveSuccesses (transitionTo now s b) = consecutiveSuccesses b.
Proof.
  unfold transitionTo. destruct (state_eqb (state b) s); [reflexivity|].
  destruct s; reflexivity.
Qed.

(** A transition after a clean-up at the same instant keeps the calls. *)
Lemma transitionTo_calls_clean now s b :
  calls (transitionTo now s (cleanupOldCalls now b))
  = calls (cleanupOldCalls now b).
Proof.
  unfold transitionTo. destruct (state_eqb _ s); [reflexivity|].
  rewrite cleanup_idem. destruct s; reflexivity.
Qed.



Lemma recordSuccess_state now d b :
  state (recordSuccess now d b)
  = if state_eqb (state b) half_open
       && (successThreshold (config b) <=? Z.of_nat (S (consecutiveSuccesses b)))
    then closed else state b.
Proof.
  unfold recordSuccess. simpl.
  destruct (_ && _); [|reflexivity]. apply transitionTo_state.
Qed.

Lemma recordSuccess_counters now d b :
  consecutiveSuccesses (recordSuccess now d b) = S (consecutiveSuccesses b)
  /\ consecutiveFailures (recordSuccess now d b) = O
  /\ lastSuccessTime (recordSuccess now d b) = Some now.
Proof.
  unfold recordSuccess. simpl. destruct (_ && _); [|auto].
  unfold transitionTo. simpl. destruct (state_eqb (state b) closed); auto.
Qed.

Lemma recordSuccess_calls now d b :
  calls (recordSuccess now d b)
  = filter (fun c => now - rollingWindowMs (config b) <=? timestamp c)
      (calls b ++ [mkCall now true d None]).
Proof.
  unfold recordSuccess.
  set (b1 := mkBreaker _ _ _ _ _ _ _ _ _ _).
  destruct (_ && _); [|reflexivity].
  now rewrite transitionTo_calls_clean.
Qed.

Lemma recordFailure_calls now d err b :
  calls (recordFailure now d err b)
  = filter (fun c => now - rollingWindowMs (config b) <=? timestamp c)
      (calls b ++ [mkCall now false d err]).
Proof.
  unfold recordFailure.
  set (b1 := mkBreaker _ _ _ _ _ _ _ _ _ _).
  assert (Hs : state (cleanupOldCalls now b1) = state b) by reflexivity.
  rewrite Hs. destruct (state b).
  - destruct (_ <=? _); [|reflexivity]. now rewrite transitionTo_calls_clean.
  - reflexivity.
  - now rewrite transitionTo_calls_clean.
Qed.


Lemma execute_letThrough startTime fn b b1 :
  letThrough startTime b = Some b1 ->
  execute startTime fn b
  = match fn startTime with
    | (Return v, endTime) =>
        mkRun (Return v) true (recordSuccess endTime (endTime - startTime) b1)
    | (Throw e, endTime) =>
        if isFailure (config b1) e
        then mkRun (Throw (Raised e)) true
               (recordFailure endTime (endTime - startTime) (Some e) b1)
        else mkRun (Throw (Raised e)) true
               (recordSuccess endTime (endTime - startTime) b1)
    end.
Proof.
  unfold execute. intros H. rewrite H.
  destruct (fn startTime) as [[v|e] endTime]; reflexivity.
Qed.

Lemma execute_refused startTime fn b :
  letThrough startTime b = None ->
  execute startTime fn b = mkRun (fallback (config b)) false b.
Proof. unfold execute. intros H. now rewrite H. Qed.


Lemma letThrough_config startTime b b1 :
  letThrough startTime b = Some b1 -> config b1 = config b.
Proof.
  unfold letThrough. destruct (state b);
    [intros H; injection H as <-; reflexivity| |intros H; injection H as <-; reflexivity].
  destruct (shouldAttemptReset startTime b); [|discriminate].
  intros H; injection H as <-. apply transitionTo_config.
Qed.




End BreakerFacts.

Section BreakerCalls.
Import Js CircuitBreaker.
Context {T E : Type}.
Implicit Types (b : CircuitBreaker.t T E).

Lemma letThrough_state startTime b b1 :
  letThrough startTime b = Some b1 ->
  state b1 = match state b with closed => closed | _ => half_open end
  /\ consecutiveSuccesses b1 = consecutiveSuccesses b.
Proof.
  unfold letThrough. destruct (state b) eqn:Hs.
  - intros H; injection H as <-. auto.
  - destruct (shouldAttemptReset startTime b); [|discriminate].
    intros H; injection H as <-.
    now rewrite transitionTo_state, transitionTo_successes.
  - intros H; injection H as <-. auto.
Qed.

Lemma invoked_letThrough startTime fn b :
  invoked (execute startTime fn b) = true ->
  exists b1, letThrough startTime b = Some b1.
Proof.
  destruct (letThrough startTime b) as [b1|] eqn:Ha; [now exists b1|].
  rewrite (execute_refused _ fn _ Ha). discriminate.
Qed.


End BreakerCalls.


(** C10: when [execute] runs the wrapped function and it throws, the error
    reaches the caller; if [isFailure] does not count the error, the call is
    recorded as a success: [consecutiveFailures] is reset,
    [consecutiveSuccesses] grows by one, and a breaker that is not closed
    ends closed when the count has reached [successThreshold], and
    half-open otherwise. *)
Theorem execute_rethrows_uncounted_error (T E : Type)
    (b : CircuitBreaker.t T E) (startTime : Z)
    (fn : Z -> Js.Outcome T E * Z) (e : E) (endTime : Z) :
  CircuitBreaker.invoked (CircuitBreaker.execute startTime fn b) = true ->
  fn startTime = (Js.Throw e, endTime) ->
  let r := CircuitBreaker.execute startTime fn b in
  CircuitBreaker.result r = Js.Throw (CircuitBreaker.Raised e)
  /\ (CircuitBreaker.isFailure (CircuitBreaker.config b) e = false ->
      (exists b1,
          CircuitBreaker.letThrough startTime b = Some b1
          /\ CircuitBreaker.after r
             = CircuitBreaker.recordSuccess endTime (endTime - startTime) b1)
      /\ CircuitBreaker.consecutiveFailures (CircuitBreaker.after r) = O
      /\ CircuitBreaker.consecutiveSuccesses (CircuitBreaker.after r)
         = S (CircuitBreaker.consecutiveSuccesses b)
      /\ CircuitBreaker.lastSuccessTime (CircuitBreaker.after r) = Some endTime
      /\ CircuitBreaker.state (CircuitBreaker.after r)
         = match CircuitBreaker.state b with
           | CircuitBreaker.closed => CircuitBreaker.closed
           | _ =>
               if CircuitBreaker.successThreshold (CircuitBreaker.config b)
                  <=? Z.of_nat (S (CircuitBreaker.consecutiveSuccesses b))
               then CircuitBreaker.closed
               else CircuitBreaker.half_open
           end).
Proof.
  intros Hinv Hfn r. subst r.
  destruct (invoked_letThrough startTime fn b Hinv) as [b1 Hb1].
  pose proof (letThrough_config _ _ _ Hb1) as Hcfg.
  pose proof (letThrough_state _ _ _ Hb1) as [Hst Hcs].
  rewrite (execute_letThrough _ fn _ _ Hb1), Hfn, Hcfg.
  split; [destruct (CircuitBreaker.isFailure _ e); reflexivity|].
  intros Hnf. rewrite Hnf. cbn [CircuitBreaker.after].
  split; [now exists b1|].
  pose proof (recordSuccess_counters endTime (endTime - startTime) b1)
    as (H1 & H2 & H3).
  rewrite H1, H2, H3, Hcs.
  repeat split.
  rewrite recordSuccess_state, Hst, Hcfg, Hcs.
  destruct (CircuitBreaker.state b); reflexivity.
Qed.


(** A whole cycle on the sample configuration: two failures open the
    circuit, a call before the reset time is refused, a call after it runs
    in half-open, and three successes close the circuit again. *)
Example breaker_cycle :
  let b0 := CircuitBreaker.new Samples.breakerConfig in
  let b1 := CircuitBreaker.executeAll
              [(0, Samples.failAfter "boom" 5); (10, Samples.failAfter "boom" 5)] b0 in
  let refused := CircuitBreaker.execute 500 (Samples.succeedAfter 5) b1 in
  let b2 := CircuitBreaker.after
              (CircuitBreaker.execute 1015 (Samples.succeedAfter 5) b1) in
  let b3 := CircuitBreaker.executeAll
              [(1030, Samples.succeedAfter 5); (1040, Samples.succeedAfter 5)] b2 in
  CircuitBreaker.state b1 = CircuitBreaker.open
  /\ CircuitBreaker.invoked refused = false
  /\ CircuitBreaker.result refused
     = Js.Throw (CircuitBreaker.CircuitOpenError "Circuit is open")
  /\ CircuitBreaker.state b2 = CircuitBreaker.half_open
  /\ CircuitBreaker.state b3 = CircuitBreaker.closed
  /\ CircuitBreaker.fired b3
     = [CircuitBreaker.onClose; CircuitBreaker.onHalfOpen; CircuitBreaker.onOpen].
Proof. vm_compute. repeat split. Qed.

Lemma execute_rethrows_uncounted_error_witness :
  CircuitBreaker.result
    (CircuitBreaker.execute 0 (Samples.failAfter "ignored" 5)
       (CircuitBreaker.new Samples.breakerConfig))
  = Js.Throw (CircuitBreaker.Raised "ignored"%string).
Proof.
  apply (execute_rethrows_uncounted_error unit string
           (CircuitBreaker.new Samples.breakerConfig) 0
           (Samples.failAfter "ignored" 5) "ignored"%string 5).
  - reflexivity.
  - reflexivity.
Defined.

(** ** Idempotency guard *)

Section IdempotencyFacts.
Import Js Idempotency.
Context {D T E : Type}.
Variable hashRequest : D -> string.
Implicit Types (m : @IdempotencyManager T E).

Lemma with_storage_same m : with_storage m (storage m) = m.
Proof. now destruct m. Qed.

Lemma storage_get_live now (s : @Storage T E) k r :
  JsMap.get s k = Some r -> now <= expiresAt r ->
  storage_get now s k = (Some r, s).
Proof.
  intros Hg Ht. unfold storage_get. rewrite Hg.
  destruct (Z.ltb_spec (expiresAt r) now); [lia | reflexivity].
Qed.

(** [check] on a live, completed record with the same hash replays the
    stored response. *)
Lemma check_completed now m k data r :
  JsMap.get (storage m) k = Some r ->
  now <= expiresAt r ->
  requestHash r = hashRequest data ->
  status r = completed ->
  check hashRequest now m k data
  = (Return (mkCheck false (response r) (Some r)), m).
Proof.
  intros Hg Ht Hh Hs. unfold check.
  rewrite (storage_get_live now _ k r Hg Ht), with_storage_same.
  rewrite Hh, String.eqb_refl, Hs. reflexivity.
Qed.

Lemma check_manager now m k data :
  snd (check hashRequest now m k data)
  = with_storage m (snd (storage_get now (storage m) k)).
Proof.
  unfold check. destruct (storage_get now (storage m) k) as [[x|] s];
    [|reflexivity].
  destruct (negb _); [reflexivity|].
  destruct (status x); try reflexivity.
  destruct (lockedUntil x) as [l|]; [|reflexivity].
  destruct (_ && _); reflexivity.
Qed.

(** [complete] right after [startProcessing]: the record is there unless
    its TTL ran out while the function was running. *)
Lemma complete_after_start now endTime m k data (res : option T) :
  let m2 := snd (startProcessing hashRequest now m k data) in
  complete endTime m2 k res
  = if now + ttlMs m <? endTime
    then (Throw (mkError NOT_FOUND None),
          with_storage m2 (JsMap.delete (storage m2) k))
    else (Return tt,
          with_storage m2
            (storage_set (storage m2) k
               (mkRecord k (hashRequest data) (option_map Result res)
                  completed now (Some endTime) (now + ttlMs m) None))).
Proof.
  intros m2. unfold complete, storage_get.
  assert (Hg : JsMap.get (storage m2) k
               = Some (mkRecord k (hashRequest data) None processing now None
                         (now + ttlMs m) (Some (now + lockTimeoutMs m))))
    by apply JsMap_get_set_same.
  rewrite Hg. cbn [expiresAt key requestHash createdAt].
  destruct (now + ttlMs m <? endTime); reflexivity.
Qed.

(** The two ways [execute] can go after [check] returned. *)
Lemma execute_replays now m k data fn c m1 resp :
  check hashRequest now m k data = (Return c, m1) ->
  canProceed c = false -> existingResponse c = Some resp ->
  execute hashRequest now m k data fn = mkRun (Return (Some resp)) false m1.
Proof. intros Hc Hp Hr. unfold execute. now rewrite Hc, Hp, Hr. Qed.

Lemma execute_runs now m k data fn c m1 :
  check hashRequest now m k data = (Return c, m1) ->
  canProceed c = true \/ existingResponse c = None ->
  execute hashRequest now m k data fn
  = let m2 := snd (startProcessing hashRequest now m1 k data) in
    match fn now with
    | (Return r, endTime) =>
        match complete endTime m2 k r with
        | (Return _, m3) => mkRun (Return (option_map Result r)) true m3
        | (Throw e, m3) => mkRun (Throw (Guard e)) true (fail endTime m3 k None)
        end
    | (Throw e, endTime) =>
        mkRun (Throw (Fn e)) true (fail endTime m2 k (Some (Failure e)))
    end.
Proof.
  intros Hc Hp. unfold execute. rewrite Hc.
  destruct (canProceed c), (existingResponse c); try reflexivity.
  destruct Hp; discriminate.
Qed.

(** What a first [execute] leaves behind when it returns a defined
    result: a live, completed record with that result and the payload's
    hash. *)
Lemma execute_leaves_completed now m k data fn res :
  result (execute hashRequest now m k data fn) = Return (Some (Result res)) ->
  exists r,
    JsMap.get (storage (after (execute hashRequest now m k data fn))) k = Some r
    /\ status r = completed
    /\ response r = Some (Result res)
    /\ requestHash r = hashRequest data
    /\ (invoked (execute hashRequest now m k data fn) = true ->
        expiresAt r = now + ttlMs m).
Proof.
  destruct (check hashRequest now m k data) as [[c|err] m1] eqn:Hcheck.
  2:{ unfold execute. rewrite Hcheck. discriminate. }
  pose proof (check_manager now m k data) as Hm1. rewrite Hcheck in Hm1.
  cbn [snd] in Hm1.
  destruct (canProceed c) eqn:Hcp; [|destruct (existingResponse c) as [resp|] eqn:Her].
  1,3: (* the guarded function runs *)
    rewrite (execute_runs now m k data fn c m1 Hcheck) by auto;
    cbn zeta;
    destruct (fn now) as [[r|e] endTime]; [|discriminate];
    rewrite complete_after_start;
    (destruct (now + ttlMs m1 <? endTime) eqn:Hlive; [discriminate|]);
    cbn [result after invoked]; intros H;
    destruct r as [r|]; [|discriminate]; injection H as ->;
    eexists; split;
      [cbn [storage with_storage storage_set]; apply JsMap_get_set_same|];
    cbn [status response requestHash expiresAt option_map];
    assert (Httl : ttlMs m1 = ttlMs m) by (rewrite Hm1; reflexivity);
    apply Z.ltb_ge in Hlive;
    repeat split; rewrite <- Httl; reflexivity.
  { (* the stored response is replayed *)
    rewrite (execute_replays now m k data fn c m1 resp Hcheck Hcp Her).
    cbn [result after invoked]. intros H. injection H as ->.
    unfold check in Hcheck.
    destruct (storage_get now (storage m) k) as [[x|] s] eqn:Hsg.
    2:{ injection Hcheck as <- _. discriminate. }
    assert (Hx : JsMap.get s k = Some x /\ now <= expiresAt x).
    { unfold storage_get in Hsg.
      destruct (JsMap.get (storage m) k) as [y|] eqn:Hy; [|discriminate].
      destruct (Z.ltb_spec (expiresAt y) now); [discriminate|].
      injection Hsg as Hyx Hss. rewrite <- Hss, <- Hyx. auto. }
    destruct (negb (String.eqb (requestHash x) (hashRequest data))) eqn:Hh;
      [discriminate|].
    apply negb_false_iff, String.eqb_eq in Hh.
    destruct (status x) eqn:Hst.
    - destruct (lockedUntil x) as [l|];
        [destruct (negb (l =? 0) && (now <? l))|];
        try discriminate; injection Hcheck as <- <-; discriminate.
    - injection Hcheck as <- <-. cbn in Her. cbn [storage with_storage].
      exists x. destruct Hx. repeat split; try assumption. discriminate.
    - injection Hcheck as <- <-. discriminate. }
Qed.
End IdempotencyFacts.

(** C8: when a record that has not expired is stored under the key and its
    hash differs from the hash of the payload, [check] throws
    [KEY_MISMATCH] (carrying the stored record) and changes nothing; it
    returns no [canProceed] and no stored response. *)
Theorem check_key_mismatch (D T E : Type) (hashRequest : D -> string)
    (m : @Idempotency.IdempotencyManager T E) (k : string) (data : D)
    (r : @Idempotency.IdempotencyRecord T E) (now : Z) :
  JsMap.get (Idempotency.storage m) k = Some r ->
  now <= Idempotency.expiresAt r ->
  Idempotency.requestHash r <> hashRequest data ->
  Idempotency.check hashRequest now m k data
  = (Js.Throw (Idempotency.mkError Idempotency.KEY_MISMATCH (Some r)), m).
Proof.
  intros Hg Ht Hh. unfold Idempotency.check.
  rewrite (storage_get_live now _ k r Hg Ht), with_storage_same.
  destruct (String.eqb_spec (Idempotency.requestHash r) (hashRequest data));
    [contradiction | reflexivity].
Qed.

Lemma check_key_mismatch_witness :
  let r := Idempotency.mkRecord (T:=string) (E:=string) "k" "hash-a"
             (Some (Idempotency.Result "paid"%string)) Idempotency.completed
             0 (Some 5) 1000 None in
  let m := Idempotency.mkManager [("k"%string, r)] 1000 60000 1000 in
  Idempotency.check (fun d : string => d) 10 m "k" "hash-b"%string
  = (Js.Throw (Idempotency.mkError Idempotency.KEY_MISMATCH (Some r)), m).
Proof.
  intros r m.
  apply (check_key_mismatch string string string (fun d => d) m "k"%string
           "hash-b"%string r 10).
  - reflexivity.
  - simpl. lia.
  - discriminate.
Defined.

(** C1, as the document states it, fails: [pay] keeps no record of the
    keys it has completed.  With a gateway that accepts every payment, a
    second [pay] with the key of the first sends a second request to the
    gateway, again under the key ["k-1"]. *)
Lemma pay_not_idempotent : ~ Spec.pay_idempotent.
Proof.
  intros H.
  specialize (H Z Samples.clock Samples.requestQuote Samples.requestPay_ok
                Samples.sleep Samples.generateIdempotencyKey
                Samples.numberToString Samples.intent (Samples.withKey "k")
                "k"%string Samples.start).
  cbv zeta in H.
  destruct (Client.outcome
              (Client.pay Samples.clock Samples.requestQuote
                 Samples.requestPay_ok Samples.sleep
                 Samples.generateIdempotencyKey Samples.numberToString
                 Samples.intent (Samples.withKey "k") Samples.start))
    as [res|x] eqn:Hout; [|vm_compute in Hout; discriminate].
  destruct (H res eq_refl eq_refl) as [_ Hcalls].
  apply (f_equal (@length _)) in Hcalls.
  vm_compute in Hcalls. discriminate.
Qed.

(** The same two calls, value by value: both succeed in the UK and both
    send a request under the key ["k-1"]. *)
Example pay_twice_calls_gateway_twice :
  let first := Samples.payWith Samples.requestPay_ok Samples.intent
                 (Samples.withKey "k") Samples.start in
  let second := Samples.payWith Samples.requestPay_ok Samples.intent
                  (Samples.withKey "k") (Client.final first) in
  map Client.idempotencyKey (Client.payCalls (Client.final first)) = ["k-1"%string]
  /\ map Client.idempotencyKey (Client.payCalls (Client.final second))
     = ["k-1"; "k-1"]%string
  /\ map Client.region (Client.payCalls (Client.final second))
     = ["UK"; "UK"]%string.
Proof. vm_compute. repeat split. Qed.

(** C1, amended: the replay is a property of the idempotency guard.  If a
    first [IdempotencyManager.execute(k, payload, fn)] returned a defined
    result, it left a completed record under [k]; until that record
    expires, a second [execute] with the same key and payload returns the
    stored result without invoking its function, and changes nothing. *)
Theorem execute_replays_completed (D T E : Type) (hashRequest : D -> string)
    (m : @Idempotency.IdempotencyManager T E) (k : string) (data : D)
    (fn : Z -> Js.Outcome (option T) E * Z) (res : T) (now : Z) :
  Idempotency.result (Idempotency.execute hashRequest now m k data fn)
  = Js.Return (Some (Idempotency.Result res)) ->
  let m' := Idempotency.after (Idempotency.execute hashRequest now m k data fn) in
  exists r,
    JsMap.get (Idempotency.storage m') k = Some r
    /\ Idempotency.status r = Idempotency.completed
    /\ (Idempotency.invoked (Idempotency.execute hashRequest now m k data fn) = true ->
        Idempotency.expiresAt r = now + Idempotency.ttlMs m)
    /\ forall now2 fn2,
         now2 <= Idempotency.expiresAt r ->
         Idempotency.execute hashRequest now2 m' k data fn2
         = Idempotency.mkRun (Js.Return (Some (Idempotency.Result res))) false m'.
Proof.
  intros Hres m'.
  destruct (execute_leaves_completed hashRequest now m k data fn res Hres)
    as (r & Hg & Hst & Hresp & Hh & Hexp).
  fold m' in Hg. exists r.
  split; [exact Hg|]. split; [exact Hst|]. split; [exact Hexp|].
  intros now2 fn2 Hlive.
  apply execute_replays with
    (c := Idempotency.mkCheck false (Idempotency.response r) (Some r)).
  - now apply check_completed.
  - reflexivity.
  - exact Hresp.
Qed.

Lemma execute_replays_completed_witness :
  let m := Idempotency.new (T:=string) (E:=string) None None None in
  let fn := fun t : Z => (Js.Return (Some "paid"%string) : Js.Outcome (option string) string, t + 20) in
  let first := Idempotency.execute (fun d : string => d) 0 m "k" "payload"%string fn in
  exists r,
    JsMap.get (Idempotency.storage (Idempotency.after first)) "k" = Some r
    /\ Idempotency.status r = Idempotency.completed
    /\ (Idempotency.invoked first = true ->
        Idempotency.expiresAt r = 0 + Idempotency.ttlMs m)
    /\ forall now2 fn2,
         now2 <= Idempotency.expiresAt r ->
         Idempotency.execute (fun d : string => d) now2 (Idempotency.after first)
           "k" "payload"%string fn2
         = Idempotency.mkRun (Js.Return (Some (Idempotency.Result "paid"%string)))
             false (Idempotency.after first).
Proof.
  intros m fn first.
  apply (execute_replays_completed string string string (fun d => d) m
           "k"%string "payload"%string fn "paid"%string 0).
  reflexivity.
Defined.

(** The guard does not replay a result that is [undefined]: the function
    runs again. *)
Example execute_undefined_result_runs_again :
  let m := Idempotency.new (T:=string) (E:=string) None None None in
  let fn := fun t : Z => (Js.Return None : Js.Outcome (option string) string, t + 20) in
  let first := Idempotency.execute (fun d : string => d) 0 m "k" "payload"%string fn in
  let second := Idempotency.execute (fun d : string => d) 100
                  (Idempotency.after first) "k" "payload"%string fn in
  Idempotency.invoked first = true /\ Idempotency.invoked second = true.
Proof. vm_compute. split; reflexivity. Qed.

(** ** Payment executor *)

Section ExecutorFacts.
Import Js Types Errors Client.
Context {Ext : Type}.
Variable clock : Ext -> Z.
Variable requestQuote :
  QuoteRequest -> Ext -> Outcome (Layer403Response (list RegionQuote)) Exception * Ext.
Variable requestPay :
  PayRequest -> Ext -> Outcome (Layer403Response PaymentResult) Exception * Ext.
Variable sleep : Z -> Ext -> Ext.
Variable generateIdempotencyKey : Ext -> string * Ext.
Variable numberToString : Q -> string.

Local Notation "'executePayment'" :=
  (Client.executePayment clock requestPay) (only parsing).
Local Notation "'payLoop'" :=
  (Client.payLoop clock requestPay sleep) (only parsing).
Local Notation "'decideRoute'" :=
  (Client.decideRoute clock requestQuote numberToString) (only parsing).
Local Notation "'quote'" :=
  (Client.quote clock requestQuote numberToString) (only parsing).
Local Notation "'pay'" :=
  (Client.pay clock requestQuote requestPay sleep generateIdempotencyKey
     numberToString) (only parsing).

(** [executePayment] sends exactly its request. *)
Lemma executePayment_calls request (st : State Ext) :
  payCalls (snd (executePayment request st)) = payCalls st ++ [request]
  /\ client (snd (executePayment request st)) = client st.
Proof.
  unfold Client.executePayment.
  destruct (requestPay request (ext st)) as [[response|x] e]; [|auto].
  destruct (r_success response), (r_data response); auto.
Qed.

(** [quote] and [decideRoute] send nothing to ["/pay"] and keep the
    configuration. *)
Lemma quote_calls i options (st : State Ext) :
  payCalls (snd (quote i options st)) = payCalls st
  /\ routingConfig (client (snd (quote i options st))) = routingConfig (client st).
Proof.
  unfold Client.quote.
  destruct (negb (force options)).
  - destruct (CacheM.get _ _ _) as [[c|] cache']; [auto|].
    unfold Client.getQuotes. cbn [ext with_cache].
    destruct (requestQuote _ _) as [[response|x] e]; auto.
  - unfold Client.getQuotes.
    destruct (requestQuote _ _) as [[response|x] e]; auto.
Qed.

Lemma decideRoute_calls i options (st : State Ext) :
  payCalls (snd (decideRoute i options st)) = payCalls st
  /\ routingConfig (client (snd (decideRoute i options st)))
     = routingConfig (client st).
Proof.
  unfold Client.decideRoute.
  pose proof (quote_calls i options st) as Hq.
  destruct (quote i options st) as [[qr|x] st1]; [|exact Hq].
  destruct (Strategy.makeRouteDecision _ _ _ _); exact Hq.
Qed.

Section Loop.
Variable i : PaymentIntent.
Variable key : string.
Variable decision : Strategy.RouteDecision.
Variable maxAttempts : Z.
Variable fb : option FallbackConfig.

(** An attempt that succeeds ends the loop. *)
Lemma payLoop_success remaining attempt l (st st1 : State Ext) result :
  executePayment (Spec.requestOf i key attempt l) st = (Return result, st1) ->
  payLoop i key decision maxAttempts fb (S remaining) attempt l st
  = let log :=
      attempts l
      ++ [mkAttempt attempt (currentRegion l) (currentRouterId l)
            attempt_succeeded None (clock (ext st1))
            (clock (ext st1) - clock (ext st))] in
    mkPayRun (Return (with_attempts result log key)) log st1.
Proof.
  intros He. cbn [Client.payLoop]. unfold Spec.requestOf in He.
  now rewrite He.
Qed.

(** An attempt that fails with an error that is not retryable ends the
    loop with that error. *)
Lemma payLoop_abort remaining attempt l (st st1 : State Ext) error :
  executePayment (Spec.requestOf i key attempt l) st = (Throw error, st1) ->
  Spec.nonRetryable error ->
  payLoop i key decision maxAttempts fb (S remaining) attempt l st
  = mkPayRun (Throw error)
      (attempts l ++ [Spec.failedEntry clock attempt l error st st1]) st1.
Proof.
  intros He Hn. cbn [Client.payLoop]. unfold Spec.requestOf in He.
  rewrite He. unfold Spec.failedEntry, Client.now.
  destruct error as [e|msg]; [|reflexivity].
  simpl in Hn. unfold toJSON. rewrite Hn. reflexivity.
Qed.


End Loop.
End ExecutorFacts.


(** The same run, value by value: the documented loop ends with the
    breaker's "circuit open" error and has sent nothing; the loop of [pay]
    has sent the request under ["k-1"]. *)
Example pay_ignores_tripped_breaker :
  let run := Client.payLoop Samples.clock Samples.requestPay_ok Samples.sleep
               Samples.intent "k" Samples.decision 1
               (Some (Types.mkFallback true 3 1000)) 1 1 Samples.firstTry
               (Samples.startAt 5000) in
  let documented :=
    Spec.payLoopThroughBreaker Samples.clock Samples.requestPay_ok Samples.sleep
      Samples.intent "k" Samples.decision 1
      (Some (Types.mkFallback true 3 1000)) 1 1 Samples.firstTry
      (Samples.startAt 5000) Samples.trippedBreaker in
  CircuitBreaker.isAllowed 5000 Samples.trippedBreaker = false
  /\ Client.payCalls (Spec.g_final documented) = []
  /\ Spec.g_outcome documented
     = Js.Throw (CircuitBreaker.CircuitOpenError "Circuit is open")
  /\ map Client.idempotencyKey (Client.payCalls (Client.final run)) = ["k-1"%string].
Proof. vm_compute. repeat split. Qed.


(** The fallback scenario of the document: the ranking is UK, EU, SG; UK
    and EU time out and SG accepts.  The log has the three attempts in that
    order, the keys are ["k-1"], ["k-2"], ["k-3"], and the payment succeeds
    in SG. *)
Example pay_fallback_scenario :
  let run := Samples.payWith Samples.requestPay_flaky Samples.intent
               (Samples.withKey "k") Samples.start in
  map Client.idempotencyKey (Client.payCalls (Client.final run))
  = ["k-1"; "k-2"; "k-3"]%string
  /\ map Errors.region (Client.attemptsLog run) = ["UK"; "EU"; "SG"]%string
  /\ map Errors.status (Client.attemptsLog run)
     = [Errors.attempt_failed; Errors.attempt_failed; Errors.attempt_succeeded]
  /\ match Client.outcome run with
     | Js.Return res =>
         Errors.p_status res = Errors.succeeded
         /\ Errors.regionUsed res = "SG"%string
     | Js.Throw _ => False
     end.
Proof. vm_compute. repeat split. Qed.

(** C7, as the document states it, fails in its second half: the loop
    rethrows the error it caught.  With a gateway that declines the payment
    [pay] throws the gateway's [PAYMENT_DECLINED] error, whose details hold
    no attempts log, while the log has recorded the failed attempt. *)
Lemma declined_error_has_no_attempts :
  ~ Spec.non_retryable_error_carries_attempts.
Proof.
  intros H.
  specialize (H Z Samples.clock Samples.requestPay_declined Samples.sleep
                Samples.intent "k"%string Samples.decision 3
                (Some (Types.mkFallback true 3 1000)) 2%nat 1
                Samples.firstTry (Samples.startAt 5000)
                (Client.mkState Samples.geopay 5020
                   [Client.mkPayRequest Samples.intent "UK" "router_UK" "k-1"])
                (Errors.GeoPayException (Samples.declined 5000))
                eq_refl eq_refl).
  destruct H as (_ & x & Hout & Hlog).
  vm_compute in Hout. injection Hout as <-.
  vm_compute in Hlog. discriminate.
Qed.

(** The same run, value by value. *)
Example declined_payment_run :
  let run := Samples.payWith Samples.requestPay_declined Samples.intent
               (Samples.withKey "k") Samples.start in
  Client.outcome run = Js.Throw (Errors.GeoPayException (Samples.declined 10))
  /\ Errors.attemptsOf (Errors.GeoPayException (Samples.declined 10)) = None
  /\ Client.attemptsLog run
     = [Errors.mkAttempt 1 "UK" "router_UK" Errors.attempt_failed
          (Some (Samples.declined 10)) 30 20]
  /\ map Client.idempotencyKey (Client.payCalls (Client.final run)) = ["k-1"%string].
Proof. vm_compute. repeat split. Qed.

(** C7, amended: when an attempt inside [pay] fails with an error that is
    not retryable (a [GeoPayException] whose [isRetryable] is false, or any
    other error), the loop stops at once: the request of that attempt is
    the last one sent, the state is the one the failed call left, and the
    caught error is thrown to the caller unchanged.  The attempts log, with
    the failed attempt as its last entry, stays in the local array of
    [pay]. *)
Theorem pay_aborts_on_non_retryable (Ext : Type) (clock : Ext -> Z)
    (requestPay : Client.PayRequest -> Ext ->
       Js.Outcome (Client.Layer403Response Errors.PaymentResult)
         Errors.Exception * Ext)
    (sleep : Z -> Ext -> Ext)
    (i : Types.PaymentIntent) (key : string)
    (decision : Strategy.RouteDecision) (maxAttempts : Z)
    (fb : option Types.FallbackConfig) (remaining : nat) (attempt : Z)
    (l : Client.Loop) (st st1 : Client.State Ext) (error : Errors.Exception) :
  Client.executePayment clock requestPay
    (Client.mkPayRequest i (Client.currentRegion l) (Client.currentRouterId l)
       (key ++ "-" ++ Client.showZ attempt)%string) st
  = (Js.Throw error, st1) ->
  Spec.nonRetryable error ->
  Client.payLoop clock requestPay sleep i key decision maxAttempts fb
    (S remaining) attempt l st
  = Client.mkPayRun (Js.Throw error)
      (Client.attempts l
       ++ [Errors.mkAttempt attempt (Client.currentRegion l)
             (Client.currentRouterId l) Errors.attempt_failed
             (match error with
              | Errors.GeoPayException e => Some e
              | Errors.OtherError _ => None
              end)
             (clock (Client.ext st1))
             (clock (Client.ext st1) - clock (Client.ext st))])
      st1
  /\ Client.payCalls st1
     = Client.payCalls st
       ++ [Client.mkPayRequest i (Client.currentRegion l)
             (Client.currentRouterId l)
             (key ++ "-" ++ Client.showZ attempt)%string].
Proof.
  intros He Hn. split.
  - exact (payLoop_abort clock requestPay sleep i key decision maxAttempts fb
             remaining attempt l st st1 error He Hn).
  - pose proof (executePayment_calls clock requestPay
                  (Client.mkPayRequest i (Client.currentRegion l)
                     (Client.currentRouterId l)
                     (key ++ "-" ++ Client.showZ attempt)%string) st) as [H _].
    now rewrite He in H.
Qed.

Lemma pay_aborts_on_non_retryable_witness :
  Client.payLoop Samples.clock Samples.requestPay_declined Samples.sleep
    Samples.intent "k" Samples.decision 3
    (Some (Types.mkFallback true 3 1000)) 3 1 Samples.firstTry
    (Samples.startAt 5000)
  = Client.mkPayRun
      (Js.Throw (Errors.GeoPayException (Samples.declined 5000)))
      [Errors.mkAttempt 1 "UK" "router_UK" Errors.attempt_failed
         (Some (Samples.declined 5000)) 5020 20]
      (Client.mkState Samples.geopay 5020
         [Client.mkPayRequest Samples.intent "UK" "router_UK" "k-1"]).
Proof.
  apply (pay_aborts_on_non_retryable Z Samples.clock Samples.requestPay_declined
           Samples.sleep Samples.intent "k"%string Samples.decision 3
           (Some (Types.mkFallback true 3 1000)) 2%nat 1 Samples.firstTry
           (Samples.startAt 5000)
           (Client.mkState Samples.geopay 5020
              [Client.mkPayRequest Samples.intent "UK" "router_UK" "k-1"])
           (Errors.GeoPayException (Samples.declined 5000))).
  - reflexivity.
  - reflexivity.
Defined.

(** * Further properties of the code *)

(** ** Cache: capacity, eviction, [getOrSet], [stats] *)

Section MoreJsMapFacts.
Context {V : Type}.
Implicit Types (m : JsMap.t V) (k : string) (v : V).

Lemma JsMap_in_get m k : In k (JsMap.keys m) -> exists v, JsMap.get m k = Some v.
Proof.
  induction m as [|[k' v'] m IH]; simpl; [tauto|].
  destruct (String.eqb_spec k k') as [->|Hk].
  - intros _. now exists v'.
  - intros [H|H]; [congruence | auto].
Qed.

Lemma JsMap_In_keys m k v : In (k, v) m -> In k (JsMap.keys m).
Proof.
  intros H. unfold JsMap.keys. apply in_map_iff. now exists (k, v).
Qed.

Lemma JsMap_wf_In_get m k v : JsMap.wf m -> In (k, v) m -> JsMap.get m k = Some v.
Proof.
  unfold JsMap.wf. induction m as [|[k' v'] m IH]; simpl; [tauto|].
  intros Hnd. inversion Hnd as [|? ? Hn Hd]; subst.
  destruct (String.eqb_spec k k') as [->|Hk].
  - intros [H|H]; [congruence|].
    exfalso. apply Hn. eapply JsMap_In_keys; eauto.
  - intros [H|H]; [congruence | auto].
Qed.

Lemma JsMap_size_set_new m k v :
  JsMap.get m k = None -> JsMap.size (JsMap.set m k v) = S (JsMap.size m).
Proof.
  unfold JsMap.size. induction m as [|[k' v'] m IH]; simpl; [reflexivity|].
  destruct (String.eqb k k'); [discriminate|]. simpl. intros H. now rewrite IH.
Qed.

Lemma JsMap_size_set_old m k v v0 :
  JsMap.get m k = Some v0 -> JsMap.size (JsMap.set m k v) = JsMap.size m.
Proof.
  unfold JsMap.size. induction m as [|[k' v'] m IH]; simpl; [discriminate|].
  destruct (String.eqb k k'); [reflexivity|]. simpl. intros H. now rewrite IH.
Qed.

Lemma JsMap_size_set_le m k v :
  (JsMap.size (JsMap.set m k v) <= S (JsMap.size m))%nat.
Proof.
  destruct (JsMap.get m k) as [v0|] eqn:Hg.
  - rewrite (JsMap_size_set_old m k v v0 Hg). lia.
  - rewrite (JsMap_size_set_new m k v Hg). lia.
Qed.

(** Lookup in a filtered map. *)
Lemma JsMap_get_filter (P : string * V -> bool) m k :
  JsMap.wf m ->
  JsMap.get (filter P m) k
  = match JsMap.get m k with
    | Some v => if P (k, v) then Some v else None
    | None => None
    end.
Proof.
  unfold JsMap.wf. induction m as [|[k' v'] m IH]; simpl; [reflexivity|].
  intros Hnd. inversion Hnd as [|? ? Hn Hd]; subst.
  destruct (String.eqb_spec k k') as [->|Hk].
  - destruct (P (k', v')) eqn:HP; simpl.
    + now rewrite String.eqb_refl.
    + apply JsMap_notin_get. intros Hin. apply Hn.
      unfold JsMap.keys in *. rewrite in_map_iff in *.
      destruct Hin as [kv [Hf Hin]]. apply filter_In in Hin. exists kv. tauto.
  - destruct (P (k', v')); simpl.
    + destruct (String.eqb_spec k k'); [congruence | auto].
    + auto.
Qed.

Lemma filter_length_split {A} (f : A -> bool) (l : list A) :
  (length (filter f l) + length (filter (fun x => negb (f x)) l))%nat = length l.
Proof.
  induction l as [|x l IH]; simpl; [reflexivity|].
  destruct (f x); simpl; lia.
Qed.

Lemma filter_none {A} (f : A -> bool) (l : list A) :
  filter f l = [] -> filter (fun x => negb (f x)) l = l.
Proof.
  induction l as [|x l IH]; simpl; [reflexivity|].
  destruct (f x); simpl; [discriminate|]. intros H. now rewrite IH.
Qed.
End MoreJsMapFacts.

Section MoreCacheFacts.
Context {T : Type}.
Implicit Types (c : CacheM.Cache T) (k : string).

(** The scan of [evictOldest]: it ends on an entry of the store whose
    [createdAt] is the smallest. *)
Lemma oldest_scan (l : JsMap.t (CacheM.CacheEntry T)) : forall k0 ca0,
  exists k ca,
    fold_left CacheM.oldest_step l (Some (k0, ca0)) = Some (k, ca)
    /\ ca <= ca0
    /\ (forall k' e', In (k', e') l -> ca <= CacheM.createdAt e')
    /\ ((k, ca) = (k0, ca0)
        \/ exists e, In (k, e) l /\ CacheM.createdAt e = ca).
Proof.
  induction l as [|[k1 e1] l IH]; intros k0 ca0; simpl.
  - exists k0, ca0. repeat split; [lia | tauto | now left].
  - destruct (Z.ltb_spec (CacheM.createdAt e1) ca0).
    + destruct (IH k1 (CacheM.createdAt e1)) as (k & ca & Hf & Hle & Hall & Hwho).
      exists k, ca. split; [exact Hf|]. split; [lia|]. split.
      * intros k' e' [Heq|Hin]; [injection Heq as <- <-; exact Hle | eauto].
      * right. destruct Hwho as [Heq|(e & Hin & Hca)].
        -- injection Heq as -> ->. exists e1. auto.
        -- exists e. auto.
    + destruct (IH k0 ca0) as (k & ca & Hf & Hle & Hall & Hwho).
      exists k, ca. split; [exact Hf|]. split; [lia|]. split.
      * intros k' e' [Heq|Hin]; [injection Heq as <- <-; lia | eauto].
      * destruct Hwho as [Heq|(e & Hin & Hca)]; [now left|].
        right. exists e. auto.
Qed.

Lemma oldest_found (s : JsMap.t (CacheM.CacheEntry T)) :
  s <> [] ->
  exists k e,
    fold_left CacheM.oldest_step s None = Some (k, CacheM.createdAt e)
    /\ In (k, e) s
    /\ (forall k' e', In (k', e') s -> CacheM.createdAt e <= CacheM.createdAt e').
Proof.
  destruct s as [|[k1 e1] l]; [congruence|]. intros _. simpl.
  destruct (oldest_scan l k1 (CacheM.createdAt e1)) as (k & ca & Hf & Hle & Hall & Hwho).
  destruct Hwho as [Heq|(e & Hin & Hca)].
  - injection Heq as -> ->. exists k1, e1. split; [exact Hf|]. split; [now left|].
    intros k' e' [H|H]; [injection H as <- <-; lia | eauto].
  - subst ca. exists k, e. split; [exact Hf|]. split; [now right|].
    intros k' e' [H|H]; [injection H as <- <-; exact Hle | eauto].
Qed.

Lemma prune_size now c :
  CacheM.wf c ->
  (fst (CacheM.prune now c) + CacheM.size (snd (CacheM.prune now c)))%nat
  = CacheM.size c.
Proof.
  intros Hwf. rewrite prune_spec by assumption. cbn [fst snd].
  unfold CacheM.size, JsMap.size. cbn [CacheM.store CacheM.with_store].
  apply filter_length_split.
Qed.

Lemma prune_config now c :
  CacheM.maxEntries (snd (CacheM.prune now c)) = CacheM.maxEntries c
  /\ CacheM.ttlMs (snd (CacheM.prune now c)) = CacheM.ttlMs c.
Proof. split; reflexivity. Qed.

(** [evictOldest] on a full cache frees at least one slot. *)
Lemma evictOldest_frees now c :
  CacheM.wf c ->
  1 <= CacheM.maxEntries c ->
  Z.of_nat (CacheM.size c) <= CacheM.maxEntries c ->
  Z.of_nat (CacheM.size (CacheM.evictOldest now c)) <= CacheM.maxEntries c - 1
  \/ Z.of_nat (CacheM.size c) < CacheM.maxEntries c.
Proof.
  intros Hwf Hmax Hsz.
  destruct (Z.ltb_spec (Z.of_nat (CacheM.size c)) (CacheM.maxEntries c));
    [now right|left].
  unfold CacheM.evictOldest.
  pose proof (prune_size now c Hwf) as Hp.
  set (c1 := snd (CacheM.prune now c)) in *.
  assert (Hm1 : CacheM.maxEntries c1 = CacheM.maxEntries c) by reflexivity.
  rewrite Hm1.
  destruct (Z.leb_spec (CacheM.maxEntries c) (Z.of_nat (CacheM.size c1))); [|lia].
  assert (Hne : CacheM.store c1 <> []).
  { intros He. unfold CacheM.size, JsMap.size in *. rewrite He in *. simpl in *. lia. }
  destruct (oldest_found (CacheM.store c1) Hne) as (k & e & -> & Hin & _).
  assert (Hg : exists v, JsMap.get (CacheM.store c1) k = Some v)
    by (apply JsMap_in_get; eapply JsMap_In_keys; eauto).
  destruct Hg as [v Hg].
  pose proof (JsMap_size_delete _ _ _ Hg) as Hd.
  unfold CacheM.size in *. cbn [CacheM.store CacheM.with_store]. lia.
Qed.
End MoreCacheFacts.

(** X1: the capacity bound is kept.  On a cache whose [maxEntries] is at
    least 1 and that holds at most [maxEntries] entries, [set] leaves at
    most [maxEntries] entries, and the key just written is among them. *)
Theorem set_keeps_capacity (T : Type) (c : CacheM.Cache T) (k : string)
    (v : T) (ttl : option Z) (now : Z) :
  CacheM.wf c ->
  1 <= CacheM.maxEntries c ->
  Z.of_nat (CacheM.size c) <= CacheM.maxEntries c ->
  let c' := CacheM.set now c k v ttl in
  Z.of_nat (CacheM.size c') <= CacheM.maxEntries c'
  /\ CacheM.maxEntries c' = CacheM.maxEntries c
  /\ CacheM.wf c'
  /\ fst (CacheM.get now c' k) = (if match ttl with
                                      | Some t => t <? 0
                                      | None => CacheM.ttlMs c <? 0
                                      end
                                   then None else Some v).
Proof.
  intros Hwf Hmax Hsz c'. subst c'.
  split; [|split; [|split; [now apply wf_set|]]].
  - unfold CacheM.set.
    destruct (Z.leb_spec (CacheM.maxEntries c) (Z.of_nat (CacheM.size c))) as [Hfull|Hroom].
    + destruct (evictOldest_frees now c Hwf Hmax Hsz) as [Hfree|Hlt]; [|lia].
      unfold CacheM.size in *. cbn [CacheM.store CacheM.with_store CacheM.maxEntries].
      pose proof (JsMap_size_set_le (CacheM.store (CacheM.evictOldest now c)) k
                    (CacheM.mkEntry v
                       (now + match ttl with
                              | Some x => x
                              | None => CacheM.ttlMs (CacheM.evictOldest now c)
                              end) now)) as Hs.
      assert (Hm : CacheM.maxEntries (CacheM.evictOldest now c) = CacheM.maxEntries c).
      { unfold CacheM.evictOldest. destruct (_ <=? _); [|reflexivity].
        destruct (fold_left _ _ _) as [[? ?]|]; reflexivity. }
      rewrite Hm. lia.
    + unfold CacheM.size in *. cbn [CacheM.store CacheM.with_store CacheM.maxEntries].
      pose proof (JsMap_size_set_le (CacheM.store c) k
                    (CacheM.mkEntry v
                       (now + match ttl with
                              | Some x => x
                              | None => CacheM.ttlMs c
                              end) now)) as Hs.
      lia.
  - unfold CacheM.set. cbn [CacheM.maxEntries CacheM.with_store].
    destruct (_ <=? _); [|reflexivity].
    unfold CacheM.evictOldest. destruct (_ <=? _); [|reflexivity].
    destruct (fold_left _ _ _) as [[? ?]|]; reflexivity.
  - assert (Httl : forall c0 : CacheM.Cache T,
               CacheM.ttlMs c0 = CacheM.ttlMs c ->
               fst (CacheM.get now
                      (CacheM.with_store c0
                         (JsMap.set (CacheM.store c0) k
                            (CacheM.mkEntry v
                               (now + match ttl with
                                      | Some x => x
                                      | None => CacheM.ttlMs c0
                                      end) now))) k)
               = (if match ttl with
                     | Some t => t <? 0
                     | None => CacheM.ttlMs c <? 0
                     end
                  then None else Some v)).
    { intros c0 H0. unfold CacheM.get. cbn [CacheM.store CacheM.with_store].
      rewrite JsMap_get_set_same. unfold CacheM.expired. cbn [CacheM.expiresAt].
      rewrite H0.
      destruct ttl as [t|].
      - destruct (Z.ltb_spec (now + t) now), (Z.ltb_spec t 0);
          try reflexivity; lia.
      - destruct (Z.ltb_spec (now + CacheM.ttlMs c) now),
                 (Z.ltb_spec (CacheM.ttlMs c) 0); try reflexivity; lia. }
    unfold CacheM.set. destruct (_ <=? _); apply Httl; [|reflexivity].
    unfold CacheM.evictOldest. destruct (_ <=? _); [|reflexivity].
    destruct (fold_left _ _ _) as [[? ?]|]; reflexivity.
Qed.

Lemma set_keeps_capacity_witness :
  let c := CacheM.set 2 (CacheM.set 1 (CacheM.new 1000 (Some 2))
                           "a"%string "x"%string None)
             "b"%string "y"%string None in
  let c' := CacheM.set 3 c "k"%string "v"%string None in
  Z.of_nat (CacheM.size c') <= CacheM.maxEntries c'
  /\ CacheM.maxEntries c' = CacheM.maxEntries c
  /\ CacheM.wf c'
  /\ fst (CacheM.get 3 c' "k"%string) = Some "v"%string.
Proof.
  intros c.
  apply (set_keeps_capacity string c "k"%string "v"%string None 3).
  - apply wf_set, wf_set, wf_new.
  - simpl. lia.
  - simpl. lia.
Defined.

Section EvictionFacts.
Context {T : Type}.

Lemma with_store_same (c : CacheM.Cache T) : CacheM.with_store c (CacheM.store c) = c.
Proof. now destruct c. Qed.

Lemma none_expired now (s : JsMap.t (CacheM.CacheEntry T)) :
  (forall k e, In (k, e) s -> now <= CacheM.expiresAt e) ->
  filter (CacheM.isExpired now) s = [].
Proof.
  induction s as [|[k e] s IH]; intros H; simpl; [reflexivity|].
  unfold CacheM.isExpired at 1, CacheM.expired. simpl.
  destruct (Z.ltb_spec (CacheM.expiresAt e) now).
  - specialize (H k e (or_introl eq_refl)). lia.
  - apply IH. intros k' e' Hin. apply (H k' e'). now right.
Qed.

Lemma prune_nothing now (c : CacheM.Cache T) :
  CacheM.wf c ->
  (forall k e, In (k, e) (CacheM.store c) -> now <= CacheM.expiresAt e) ->
  CacheM.prune now c = (O, c).
Proof.
  intros Hwf Hlive. rewrite prune_spec by assumption.
  pose proof (none_expired now (CacheM.store c) Hlive) as Hn.
  rewrite Hn. rewrite (filter_none _ _ Hn).
  now rewrite with_store_same.
Qed.
End EvictionFacts.

(** X2: eviction takes the oldest entry.  When the cache is full
    ([size >= maxEntries]), holds at least one entry and none of them has
    expired, [set] deletes one entry whose [createdAt] is the smallest in
    the store, and then writes the new entry. *)
Theorem set_evicts_oldest (T : Type) (c : CacheM.Cache T) (k : string)
    (v : T) (ttl : option Z) (now : Z) :
  CacheM.wf c ->
  CacheM.maxEntries c <= Z.of_nat (CacheM.size c) ->
  CacheM.store c <> [] ->
  (forall k' e', In (k', e') (CacheM.store c) -> now <= CacheM.expiresAt e') ->
  exists k0 e0,
    JsMap.get (CacheM.store c) k0 = Some e0
    /\ (forall k' e', JsMap.get (CacheM.store c) k' = Some e' ->
          CacheM.createdAt e0 <= CacheM.createdAt e')
    /\ CacheM.store (CacheM.set now c k v ttl)
       = JsMap.set (JsMap.delete (CacheM.store c) k0) k
           (CacheM.mkEntry v
              (now + match ttl with Some x => x | None => CacheM.ttlMs c end)
              now).
Proof.
  intros Hwf Hfull Hne Hlive.
  destruct (oldest_found (CacheM.store c) Hne) as (k0 & e0 & Hscan & Hin & Hmin).
  exists k0, e0.
  split; [now apply JsMap_wf_In_get|].
  split; [intros k' e' Hg; apply (Hmin k' e'); now apply JsMap_get_In|].
  unfold CacheM.set.
  destruct (Z.leb_spec (CacheM.maxEntries c) (Z.of_nat (CacheM.size c))); [|lia].
  unfold CacheM.evictOldest. rewrite (prune_nothing now c Hwf Hlive). cbn [snd].
  destruct (Z.leb_spec (CacheM.maxEntries c) (Z.of_nat (CacheM.size c))); [|lia].
  rewrite Hscan. reflexivity.
Qed.

Lemma set_evicts_oldest_witness :
  let c := CacheM.set 2 (CacheM.set 1 (CacheM.new 1000 (Some 2))
                           "a"%string "x"%string None)
             "b"%string "y"%string None in
  exists k0 e0,
    JsMap.get (CacheM.store c) k0 = Some e0
    /\ (forall k' e', JsMap.get (CacheM.store c) k' = Some e' ->
          CacheM.createdAt e0 <= CacheM.createdAt e')
    /\ CacheM.store (CacheM.set 3 c "k"%string "v"%string None)
       = JsMap.set (JsMap.delete (CacheM.store c) k0) "k"%string
           (CacheM.mkEntry "v"%string (3 + CacheM.ttlMs c) 3).
Proof.
  intros c.
  apply (set_evicts_oldest string c "k"%string "v"%string None 3).
  - apply wf_set, wf_set, wf_new.
  - simpl. lia.
  - discriminate.
  - intros k' e' [H|[H|[]]]; injection H as <- <-; simpl; lia.
Defined.

(** The test of the repository: with room for three, the fourth [set]
    evicts the first key. *)
Example set_evicts_first_key :
  let c := CacheM.set 4 (CacheM.set 3 (CacheM.set 2 (CacheM.set 1
             (CacheM.new 10000 (Some 3)) "key1"%string "value1"%string None)
             "key2"%string "value2"%string None)
             "key3"%string "value3"%string None)
             "key4"%string "value4"%string None in
  fst (CacheM.get 5 c "key1"%string) = None
  /\ fst (CacheM.get 5 c "key4"%string) = Some "value4"%string
  /\ CacheM.size c = 3%nat.
Proof. vm_compute. repeat split. Qed.

Section FetchFacts.
Context {T : Type}.

Lemma evictOldest_config now (c : CacheM.Cache T) :
  CacheM.ttlMs (CacheM.evictOldest now c) = CacheM.ttlMs c
  /\ CacheM.maxEntries (CacheM.evictOldest now c) = CacheM.maxEntries c.
Proof.
  unfold CacheM.evictOldest. destruct (_ <=? _); [|auto].
  destruct (fold_left _ _ _) as [[? ?]|]; auto.
Qed.

(** After [set], the entry under the key is the one just written, with the
    default TTL of the cache when none is given. *)
Lemma get_store_set_default now (c : CacheM.Cache T) k v ttl :
  JsMap.get (CacheM.store (CacheM.set now c k v ttl)) k
  = Some (CacheM.mkEntry v
            (now + match ttl with Some x => x | None => CacheM.ttlMs c end) now).
Proof.
  unfold CacheM.set. cbn [CacheM.store CacheM.with_store].
  rewrite JsMap_get_set_same.
  destruct ttl as [x|]; [reflexivity|].
  destruct (_ <=? _); [|reflexivity].
  now destruct (evictOldest_config now c) as [-> _].
Qed.

Lemma get_config now (c : CacheM.Cache T) k :
  CacheM.ttlMs (snd (CacheM.get now c k)) = CacheM.ttlMs c.
Proof.
  unfold CacheM.get. destruct (JsMap.get _ _) as [e|]; [|reflexivity].
  destruct (CacheM.expired now e); reflexivity.
Qed.


Lemma stats_fold now (l : JsMap.t (CacheM.CacheEntry T)) : forall ex va age,
  exists age',
    fold_left (CacheM.stats_step now) l (ex, va, age)
    = ((ex + length (filter (CacheM.isExpired now) l))%nat,
       (va + length (filter (fun kv => negb (CacheM.isExpired now kv)) l))%nat,
       age').
Proof.
  induction l as [|[k e] l IH]; intros ex va age; simpl.
  - exists age. now rewrite !Nat.add_0_r.
  - change (CacheM.isExpired now (k, e)) with (CacheM.expired now e).
    destruct (CacheM.expired now e); simpl.
    + destruct (IH (S ex) va age) as [age' ->]. exists age'.
      f_equal. f_equal. lia.
    + destruct (IH ex (S va) (age + (now - CacheM.createdAt e))) as [age' ->].
      exists age'. f_equal. f_equal. lia.
Qed.
End FetchFacts.



(** X4: [stats()] splits the entries into valid and expired ones: the two
    counts add up to [size], and [expiredEntries] is the number a [prune()]
    at the same moment removes. *)
Theorem stats_counts_entries (T : Type) (c : CacheM.Cache T) (now : Z) :
  CacheM.wf c ->
  let s := CacheM.stats now c in
  (CacheM.validEntries s + CacheM.expiredEntries s)%nat = CacheM.s_size s
  /\ CacheM.s_size s = CacheM.size c
  /\ CacheM.expiredEntries s = fst (CacheM.prune now c)
  /\ CacheM.validEntries s = CacheM.size (snd (CacheM.prune now c)).
Proof.
  intros Hwf s. subst s. unfold CacheM.stats.
  destruct (stats_fold now (CacheM.store c) 0%nat 0%nat 0) as [age' ->].
  cbn [CacheM.validEntries CacheM.expiredEntries CacheM.s_size].
  rewrite prune_spec by assumption. cbn [fst snd].
  unfold CacheM.size at 3. cbn [CacheM.store CacheM.with_store].
  pose proof (filter_length_split (CacheM.isExpired now) (CacheM.store c)) as Hs.
  unfold CacheM.size, JsMap.size in *. simpl. repeat split; lia.
Qed.

Lemma stats_counts_entries_witness :
  let c := CacheM.set 0 (CacheM.set 0 (CacheM.new 1000 (Some 10))
                           "a"%string "x"%string (Some 20))
             "k"%string "v"%string (Some 500) in
  CacheM.expiredEntries (CacheM.stats 100 c) = fst (CacheM.prune 100 c).
Proof.
  intros c.
  apply (stats_counts_entries string c 100).
  apply wf_set, wf_set, wf_new.
Defined.

(** X5: [prune()] removes the expired entries and nothing else: afterwards
    a key holds what it held before if that entry has not expired and
    nothing otherwise, the count returned is the number of entries that
    went away, and a second [prune()] at the same moment returns 0. *)
Theorem prune_removes_exactly_expired (T : Type) (c : CacheM.Cache T) (now : Z) :
  CacheM.wf c ->
  let r := CacheM.prune now c in
  (forall k,
     JsMap.get (CacheM.store (snd r)) k
     = match JsMap.get (CacheM.store c) k with
       | Some e => if CacheM.expiresAt e <? now then None else Some e
       | None => None
       end)
  /\ (fst r + CacheM.size (snd r))%nat = CacheM.size c
  /\ CacheM.prune now (snd r) = (O, snd r).
Proof.
  intros Hwf r. subst r.
  split; [|split; [now apply prune_size|]].
  - intros k. rewrite prune_spec by assumption.
    cbn [snd CacheM.store CacheM.with_store].
    rewrite JsMap_get_filter by exact Hwf.
    destruct (JsMap.get (CacheM.store c) k) as [e|]; [|reflexivity].
    unfold CacheM.isExpired, CacheM.expired. cbn [snd].
    now destruct (CacheM.expiresAt e <? now).
  - apply prune_nothing; [now apply wf_prune|].
    intros k e Hin. rewrite prune_spec in Hin by assumption.
    cbn [snd CacheM.store CacheM.with_store] in Hin.
    apply filter_In in Hin. destruct Hin as [_ Hlive].
    unfold CacheM.isExpired, CacheM.expired in Hlive. cbn [snd] in Hlive.
    apply negb_true_iff, Z.ltb_ge in Hlive. exact Hlive.
Qed.

Lemma prune_removes_exactly_expired_witness :
  let c := CacheM.set 0 (CacheM.set 0 (CacheM.new 1000 (Some 10))
                           "a"%string "x"%string (Some 20))
             "k"%string "v"%string (Some 500) in
  CacheM.prune 100 (snd (CacheM.prune 100 c)) = (O, snd (CacheM.prune 100 c)).
Proof.
  intros c.
  apply (prune_removes_exactly_expired string c 100).
  apply wf_set, wf_set, wf_new.
Defined.

(** X6: below capacity [set] touches only its own key: every other key
    holds what it held, nothing is pruned or evicted, and the size grows by
    one exactly when the key is new. *)
Theorem set_below_capacity_frame (T : Type) (c : CacheM.Cache T) (k : string)
    (v : T) (ttl : option Z) (now : Z) :
  Z.of_nat (CacheM.size c) < CacheM.maxEntries c ->
  let c' := CacheM.set now c k v ttl in
  (forall k', k' <> k ->
     JsMap.get (CacheM.store c') k' = JsMap.get (CacheM.store c) k')
  /\ CacheM.size c'
     = (if JsMap.has (CacheM.store c) k then CacheM.size c else S (CacheM.size c)).
Proof.
  intros Hroom c'. subst c'. unfold CacheM.set.
  destruct (Z.leb_spec (CacheM.maxEntries c) (Z.of_nat (CacheM.size c))); [lia|].
  cbn [CacheM.store CacheM.with_store]. split.
  - intros k' Hk'. now apply JsMap_get_set_other.
  - unfold CacheM.size, JsMap.has. cbn [CacheM.store CacheM.with_store].
    destruct (JsMap.get (CacheM.store c) k) as [e|] eqn:Hg.
    + now apply JsMap_size_set_old with (v0 := e).
    + now apply JsMap_size_set_new.
Qed.

Lemma set_below_capacity_frame_witness :
  let c := CacheM.set 0 (CacheM.new 1000 (Some 10)) "a"%string "x"%string None in
  let c' := CacheM.set 5 c "k"%string "v"%string None in
  (forall k', k' <> "k"%string ->
     JsMap.get (CacheM.store c') k' = JsMap.get (CacheM.store c) k')
  /\ CacheM.size c' = 2%nat.
Proof.
  intros c.
  apply (set_below_capacity_frame string c "k"%string "v"%string None 5).
  simpl. lia.
Defined.

(** ** Filter engine: the partition and [isRegionAllowed] *)

Section MoreFilterFacts.
Import Types Filter.

Lemma filter_partition_perm {A} (f : A -> bool) (l : list A) :
  Permutation l (filter (fun x => negb (f x)) l ++ filter f l).
Proof.
  induction l as [|x l IH]; simpl; [constructor|].
  destruct (f x); simpl.
  - now apply Permutation_cons_app.
  - now constructor.
Qed.

Lemma isRegionAllowed_gates q rc :
  isRegionAllowed (region q) rc = negb (gate_allow rc q || gate_block rc q).
Proof.
  unfold isRegionAllowed, gate_allow, gate_block.
  destruct rc as [c|]; [|reflexivity].
  destruct (blockedRegions c) as [bl|], (allowedRegions c) as [[|r al]|];
    cbn [length Nat.ltb Nat.leb];
    try destruct (includes bl (region q));
    try destruct (includes (r :: al) (region q)); reflexivity.
Qed.
End MoreFilterFacts.

(** X7: [filterQuotes] is a partition of its input: [passed] followed by
    the quotes of [filtered] is a rearrangement of the input, the two
    lengths add up, [checkQuote] accepts every passed quote, and every
    filtered record is the one [checkQuote] returns for its quote. *)
Theorem filterQuotes_partitions_input (quotes : list Types.RegionQuote)
    (i : Types.PaymentIntent) (rc : option Types.RoutingConfig)
    (cc : option Types.ComplianceConfig) :
  let r := Filter.filterQuotes quotes i rc cc in
  Permutation quotes (Filter.passed r ++ map Filter.quote (Filter.filtered r))
  /\ (length (Filter.passed r) + length (Filter.filtered r))%nat = length quotes
  /\ (forall q, In q (Filter.passed r) -> Filter.checkQuote q i rc cc = None)
  /\ (forall f, In f (Filter.filtered r) ->
        Filter.checkQuote (Filter.quote f) i rc cc = Some f).
Proof.
  intros r. subst r. rewrite filterQuotes_spec.
  cbn [Filter.passed Filter.filtered]. rewrite quotes_of_verdicts.
  split; [apply filter_partition_perm|].
  split.
  - rewrite <- (length_map Filter.quote), quotes_of_verdicts.
    rewrite Nat.add_comm. apply filter_length_split.
  - split.
    + intros q Hq. apply filter_In in Hq. destruct Hq as [_ Hq].
      unfold Filter.fails in Hq.
      now destruct (Filter.checkQuote q i rc cc).
    + intros f Hf. apply in_flat_map in Hf. destruct Hf as (q & _ & Hv).
      unfold Filter.verdict in Hv.
      destruct (Filter.checkQuote q i rc cc) as [f'|] eqn:Hc; [|destruct Hv].
      destruct Hv as [<-|[]].
      now rewrite (checkQuote_quote q i rc cc f' Hc).
Qed.

(** X8: [isRegionAllowed] agrees with the region gates of [checkQuote]: for
    an available quote, [isRegionAllowed] rejects its region exactly when
    [checkQuote] filters it with [region_not_allowed] or [region_blocked]. *)
Theorem isRegionAllowed_agrees_with_checkQuote (q : Types.RegionQuote)
    (i : Types.PaymentIntent) (rc : option Types.RoutingConfig)
    (cc : option Types.ComplianceConfig) :
  Types.available q = true ->
  (Filter.isRegionAllowed (Types.region q) rc = false
   <-> (option_map Filter.reason (Filter.checkQuote q i rc cc)
        = Some Filter.region_not_allowed
        \/ option_map Filter.reason (Filter.checkQuote q i rc cc)
           = Some Filter.region_blocked)).
Proof.
  intros Ha. rewrite checkQuote_reason, isRegionAllowed_gates.
  unfold Filter.spec_gates, Filter.first_failing, Filter.gate_unavailable.
  rewrite Ha. cbn [negb].
  destruct (Filter.gate_allow rc q); cbn [orb negb].
  - split; auto.
  - destruct (Filter.gate_block rc q); cbn [negb].
    + split; auto.
    + split; [discriminate|].
      intros [H|H];
        repeat match type of H with
               | context [if ?b then _ else _] => destruct b
               end; discriminate.
Qed.

Lemma isRegionAllowed_agrees_with_checkQuote_witness :
  Filter.isRegionAllowed "UK" (Some Samples.allowEU) = false
  <-> (option_map Filter.reason
         (Filter.checkQuote (Samples.quoteFor "UK" 2) Samples.intent
            (Some Samples.allowEU) None)
       = Some Filter.region_not_allowed
       \/ option_map Filter.reason
            (Filter.checkQuote (Samples.quoteFor "UK" 2) Samples.intent
               (Some Samples.allowEU) None)
          = Some Filter.region_blocked).
Proof.
  apply (isRegionAllowed_agrees_with_checkQuote (Samples.quoteFor "UK" 2)
           Samples.intent (Some Samples.allowEU) None).
  reflexivity.
Defined.

(** ** Scoring engine: range of the scores, price-only weights, [customScore] *)

Section MoreScorerFacts.
Import Types Scorer.
Local Open Scope Q_scope.

Lemma fold_min_le (l : list Q) : forall x, fold_left Qmin l x <= x.
Proof.
  induction l as [|y l IH]; intros x; simpl; [lra|].
  eapply Qle_trans; [apply IH | apply Q.le_min_l].
Qed.

Lemma fold_max_ge (l : list Q) : forall x, x <= fold_left Qmax l x.
Proof.
  induction l as [|y l IH]; intros x; simpl; [lra|].
  eapply Qle_trans; [apply Q.le_max_l | apply IH].
Qed.

Lemma Math_min_le_max (l : list Q) : Math_min l <= Math_max l.
Proof.
  destruct l as [|x l]; simpl; [lra|].
  eapply Qle_trans; [apply fold_min_le | apply fold_max_ge].
Qed.

(** [normalize] grows with the value. *)
Lemma normalize_mono a b lo hi :
  lo <= hi -> a <= b -> normalize a lo hi <= normalize b lo hi.
Proof.
  intros Hr Hab. unfold normalize.
  destruct (Qeq_bool hi lo) eqn:He; [lra|].
  apply Qeq_bool_neq in He.
  assert (Hd : 0 < hi - lo).
  { destruct (Qlt_le_dec lo hi) as [Hlt|Hle]; [lra|].
    exfalso. apply He. apply Qle_antisym; assumption. }
  unfold Qdiv. apply Qmult_le_compat_r; [lra|].
  apply Qlt_le_weak, Qinv_lt_0_compat. exact Hd.
Qed.

Lemma clamp_mono x y : x <= y -> Qmax 0 (Qmin 1 x) <= Qmax 0 (Qmin 1 y).
Proof.
  intros H. apply Q.max_le_compat_l. apply Q.min_le_compat_l. exact H.
Qed.

Lemma score_scoreOne w r q : score (scoreOne w r q) = calculateScore q w r.
Proof. reflexivity. Qed.
End MoreScorerFacts.

(** X9: every quote that [scoreQuotes] returns has a score between 0 and
    1, whatever the weights and the quotes are. *)
Theorem scoreQuotes_scores_within_unit (quotes : list Types.RegionQuote)
    (w : Types.RoutingWeights) :
  Forall (fun q => (0 <= Types.score q <= 1)%Q)
    (Scorer.quotes (Scorer.scoreQuotes quotes w)).
Proof.
  unfold Scorer.scoreQuotes. destruct quotes as [|q0 qs]; [constructor|].
  cbn [Scorer.quotes].
  eapply Permutation_Forall; [apply sort_perm|].
  apply Forall_forall. intros q Hq. apply in_map_iff in Hq.
  destruct Hq as (q' & <- & _). rewrite score_scoreOne.
  apply calculateScore_range.
Qed.

(** X10: under weights that look at the price only (the [cheapest]
    strategy), the score follows the cost: of two quotes with the same
    penalties, the one that costs less never gets the higher score. *)
Theorem price_only_score_follows_cost (quotes : list Types.RegionQuote)
    (p : Q) (a b : Types.RegionQuote) :
  (0 <= p)%Q ->
  Scorer.calculatePenalties a = Scorer.calculatePenalties b ->
  (Types.totalCost a <= Types.totalCost b)%Q ->
  (Scorer.calculateScore a (Types.mkWeights p 0 0) (Scorer.computeRanges quotes)
   <= Scorer.calculateScore b (Types.mkWeights p 0 0) (Scorer.computeRanges quotes))%Q.
Proof.
  intros Hp Hpen Hcost. unfold Scorer.calculateScore. rewrite Hpen.
  destruct (Scorer.calculatePenalties b) as [pen|]; [|lra].
  apply clamp_mono.
  cbn [Types.price Types.success Types.latency].
  assert (Hn : (Scorer.normalize (Types.totalCost a)
                  (Scorer.rmin (Scorer.cost (Scorer.computeRanges quotes)))
                  (Scorer.rmax (Scorer.cost (Scorer.computeRanges quotes)))
                <= Scorer.normalize (Types.totalCost b)
                     (Scorer.rmin (Scorer.cost (Scorer.computeRanges quotes)))
                     (Scorer.rmax (Scorer.cost (Scorer.computeRanges quotes))))%Q).
  { apply normalize_mono; [|exact Hcost]. apply Math_min_le_max. }
  pose proof (Qmult_le_compat_r _ _ p Hn Hp) as Hm.
  rewrite (Qmult_comm _ p), (Qmult_comm _ p) in Hm.
  lra.
Qed.

Lemma price_only_score_follows_cost_witness :
  (Scorer.calculateScore (Samples.quoteFor "UK" 2) (Types.mkWeights 1 0 0)
     (Scorer.computeRanges Samples.quotes)
   <= Scorer.calculateScore (Samples.quoteFor "EU" 3) (Types.mkWeights 1 0 0)
        (Scorer.computeRanges Samples.quotes))%Q.
Proof.
  apply (price_only_score_follows_cost Samples.quotes 1
           (Samples.quoteFor "UK" 2) (Samples.quoteFor "EU" 3)).
  - discriminate.
  - reflexivity.
  - discriminate.
Defined.

(** X11: [customScore] gives every quote the score of the caller's
    function, keeps its reasons and every other field, and returns the
    quotes in non-decreasing order of that score. *)
Theorem customScore_sorted_permutation (quotes : list Types.RegionQuote)
    (scoreFn : Types.RegionQuote -> Q) :
  Permutation
    (map (fun q => Types.with_score q (scoreFn q) (Types.reasons q)) quotes)
    (Scorer.customScore quotes scoreFn)
  /\ Spec.ascending (Scorer.customScore quotes scoreFn)
  /\ length (Scorer.customScore quotes scoreFn) = length quotes.
Proof.
  unfold Scorer.customScore.
  set (scored := map (fun q => Types.with_score q (scoreFn q) (Types.reasons q)) quotes).
  pose proof (sort_perm Scorer.byScore scored) as Hp.
  split; [exact Hp|]. split; [apply sort_sorted|].
  rewrite <- (Permutation_length Hp). unfold scored. apply length_map.
Qed.

(** ** Strategy decider *)

Section StrategyFacts.
Import Types Strategy.

Lemma scoreQuotes_members quotes w q :
  In q (Scorer.quotes (Scorer.scoreQuotes quotes w)) ->
  exists q0, In q0 quotes /\ Spec.unscored q = Spec.unscored q0.
Proof.
  unfold Scorer.scoreQuotes. destruct quotes as [|q1 qs]; [intros []|].
  cbn [Scorer.quotes]. intros Hin.
  eapply Permutation_in in Hin; [|apply Permutation_sym, sort_perm].
  apply in_map_iff in Hin. destruct Hin as (q0 & <- & Hq0).
  exists q0. split; [exact Hq0 | reflexivity].
Qed.

Lemma scoreQuotes_nonempty quotes w :
  quotes <> [] -> Scorer.quotes (Scorer.scoreQuotes quotes w) <> [].
Proof.
  unfold Scorer.scoreQuotes. destruct quotes as [|q1 qs]; [congruence|].
  intros _ He. cbn [Scorer.quotes] in He.
  pose proof (sort_perm Scorer.byScore
                (map (Scorer.scoreOne w (Scorer.computeRanges (q1 :: qs))) (q1 :: qs)))
    as Hp.
  rewrite He in Hp. apply Permutation_sym, Permutation_nil in Hp. discriminate.
Qed.

(** Without a custom scorer in force, [applyStrategy] is [scoreQuotes]
    under some weights. *)
Lemma applyStrategy_builtin quotes i config :
  Types.strategy config <> Some Custom \/ customScorer config = None ->
  exists w, applyStrategy quotes i config
            = Scorer.quotes (Scorer.scoreQuotes quotes w).
Proof.
  intros H. unfold applyStrategy.
  destruct (Types.strategy config) as [[| | |]|] eqn:Hs; cbn [Js.orElse strategies];
    try (eexists; reflexivity).
  destruct (customScorer config) as [f|]; [destruct H; congruence|].
  eexists; reflexivity.
Qed.

Lemma unscored_fields (q q0 : RegionQuote) :
  Spec.unscored q = Spec.unscored q0 ->
  region q = region q0 /\ routerId q = routerId q0 /\ available q = available q0.
Proof.
  unfold Spec.unscored, with_score. intros H. injection H. auto.
Qed.
End StrategyFacts.

(** X12: with the built-in strategies [makeRouteDecision] returns no
    decision only when no quote of the result is available, and a decision
    always names the region and router of an available quote of the result,
    in every mode. *)
Theorem makeRouteDecision_chooses_available (now : Z)
    (qr : Strategy.QuoteResult) (i : Types.PaymentIntent)
    (config : Types.RoutingConfig) :
  Types.strategy config <> Some Types.Custom \/ Types.customScorer config = None ->
  match Strategy.makeRouteDecision now qr i config with
  | None => Forall (fun q => Types.available q = false) (Strategy.quotes qr)
  | Some d =>
      exists q,
        In q (Strategy.quotes qr)
        /\ Types.available q = true
        /\ Types.region q = Strategy.chosenRegion d
        /\ Types.routerId q = Strategy.chosenRouterId d
        /\ Strategy.quoteResult d = qr
  end.
Proof.
  intros Hb.
  assert (Hauto :
    match
      (match filter Types.available (Strategy.quotes qr) with
       | [] => None
       | _ :: _ =>
           match Strategy.applyStrategy
                   (filter Types.available (Strategy.quotes qr)) i config with
           | [] => None
           | best :: rest =>
               Some (Strategy.mkDecision (Types.id i) (Types.region best)
                       (Types.routerId best) rest
                       (Strategy.generateDecisionSummary best
                          (Strategy.applyStrategy
                             (filter Types.available (Strategy.quotes qr)) i config)
                          config)
                       qr
                       (Strategy.SNamed
                          (Js.orElse (Types.strategy config) Types.Balanced))
                       now)
           end
       end) with
    | None => Forall (fun q => Types.available q = false) (Strategy.quotes qr)
    | Some d =>
        exists q,
          In q (Strategy.quotes qr)
          /\ Types.available q = true
          /\ Types.region q = Strategy.chosenRegion d
          /\ Types.routerId q = Strategy.chosenRouterId d
          /\ Strategy.quoteResult d = qr
    end).
  { destruct (applyStrategy_builtin (filter Types.available (Strategy.quotes qr))
                i config Hb) as [w Hw].
    rewrite Hw.
    destruct (filter Types.available (Strategy.quotes qr)) as [|a av] eqn:Hav.
    - apply Forall_forall. intros q Hq.
      destruct (Types.available q) eqn:Ha; [|reflexivity].
      assert (Hin : In q (filter Types.available (Strategy.quotes qr)))
        by (apply filter_In; auto).
      rewrite Hav in Hin. destruct Hin.
    - pose proof (scoreQuotes_nonempty (a :: av) w) as Hne.
      destruct (Scorer.quotes (Scorer.scoreQuotes (a :: av) w)) as [|best rest] eqn:Hr;
        [exfalso; apply Hne; [discriminate | reflexivity]|].
      destruct (scoreQuotes_members (a :: av) w best) as (q0 & Hq0 & Hu);
        [rewrite Hr; now left|].
      destruct (unscored_fields best q0 Hu) as (Hreg & Hrid & _).
      rewrite <- Hav in Hq0. apply filter_In in Hq0. destruct Hq0 as [Hin Ha].
      exists q0. cbn [Strategy.chosenRegion Strategy.chosenRouterId Strategy.quoteResult].
      auto. }
  unfold Strategy.makeRouteDecision.
  destruct (Types.mode config); try exact Hauto.
  destruct (Types.pinnedRegion config) as [pinned|]; [|exact Hauto].
  destruct (String.eqb pinned ""); [exact Hauto|].
  destruct (find _ (Strategy.quotes qr)) as [pq|] eqn:Hf; [|exact Hauto].
  apply find_some in Hf. destruct Hf as [Hin Hp].
  apply andb_true_iff in Hp. destruct Hp as [_ Ha].
  exists pq. cbn [Strategy.chosenRegion Strategy.chosenRouterId Strategy.quoteResult].
  auto.
Qed.

Lemma makeRouteDecision_chooses_available_witness :
  match Strategy.makeRouteDecision 0
          (Strategy.quoteResult Samples.decision) Samples.intent Samples.routing with
  | None => Forall (fun q => Types.available q = false)
              (Strategy.quotes (Strategy.quoteResult Samples.decision))
  | Some d =>
      exists q,
        In q (Strategy.quotes (Strategy.quoteResult Samples.decision))
        /\ Types.available q = true
        /\ Types.region q = Strategy.chosenRegion d
        /\ Types.routerId q = Strategy.chosenRouterId d
        /\ Strategy.quoteResult d = Strategy.quoteResult Samples.decision
  end.
Proof.
  apply (makeRouteDecision_chooses_available 0
           (Strategy.quoteResult Samples.decision) Samples.intent Samples.routing).
  left. discriminate.
Defined.



(** ** Payment executor: regions tried, dry-run, bounds *)

Section MoreExecutorFacts.
Import Js Types Errors Client.
Context {Ext : Type}.
Variable clock : Ext -> Z.
Variable requestPay :
  PayRequest -> Ext -> Outcome (Layer403Response PaymentResult) Exception * Ext.
Variable sleep : Z -> Ext -> Ext.
Variable i : PaymentIntent.
Variable key : string.
Variable decision : Strategy.RouteDecision.
Variable maxAttempts : Z.
Variable fb : option FallbackConfig.

Lemma includes_In l s : includes l s = true <-> In s l.
Proof.
  unfold includes. rewrite existsb_exists. split.
  - intros (x & Hin & He). apply String.eqb_eq in He. now subst.
  - intros H. exists s. split; [assumption | apply String.eqb_refl].
Qed.

Lemma set_add_In s l x : In x (set_add s l) <-> x = s \/ In x l.
Proof.
  unfold set_add. destruct (includes l s) eqn:Hi.
  - apply includes_In in Hi. split; [auto|]. intros [->|H]; assumption.
  - rewrite in_app_iff. simpl. split; intros H.
    + destruct H as [H|[H|[]]]; auto.
    + destruct H as [H|H]; auto.
Qed.

Lemma getNextFallback_some failed q :
  Strategy.getNextFallback decision failed = Some q ->
  In q (Strategy.alternatives decision)
  /\ Types.available q = true
  /\ ~ In (Types.region q) failed.
Proof.
  unfold Strategy.getNextFallback. intros H. apply find_some in H.
  destruct H as [Hin Hp]. apply andb_true_iff in Hp. destruct Hp as [Hf Ha].
  split; [assumption|]. split; [assumption|].
  intros Hc. apply includes_In in Hc. rewrite Hc in Hf. discriminate.
Qed.

(** The retry step with the fallback it takes. *)
Lemma payLoop_retry_fallback remaining attempt l (st st1 : State Ext) e :
  Client.executePayment clock requestPay (Spec.requestOf i key attempt l) st
  = (Throw (GeoPayException e), st1) ->
  isRetryableError e = true ->
  let log := attempts l ++ [Spec.failedEntry clock attempt l (GeoPayException e) st st1] in
  let failed := set_add (currentRegion l) (failedRegions l) in
  (exists fallback st2,
      Strategy.getNextFallback decision failed = Some fallback
      /\ (match fb with Some f => enabled f | None => false end) = true
      /\ attempt < maxAttempts
      /\ payCalls st2 = payCalls st1
      /\ Client.payLoop clock requestPay sleep i key decision maxAttempts fb
           (S remaining) attempt l st
         = Client.payLoop clock requestPay sleep i key decision maxAttempts fb
             remaining (attempt + 1)
             (mkLoop log failed (Types.region fallback) (Types.routerId fallback))
             st2)
  \/ Client.payLoop clock requestPay sleep i key decision maxAttempts fb
       (S remaining) attempt l st
     = mkPayRun (Throw (GeoPayException e)) log st1.
Proof.
  intros He Hr log failed. cbn [Client.payLoop]. unfold Spec.requestOf in He.
  rewrite He. unfold toJSON. rewrite Hr. cbn [negb].
  destruct (Z.ltb_spec attempt maxAttempts) as [Hlt|Hge]; cbn [andb]; [|now right].
  destruct (match fb with Some f => enabled f | None => false end) eqn:Hen;
    [|now right].
  destruct (Strategy.getNextFallback decision
              (set_add (currentRegion l) (failedRegions l))) as [fallback|] eqn:Hf;
    [|now right].
  left. exists fallback. eexists. split; [exact Hf|]. split; [reflexivity|].
  split; [exact Hlt|]. split; [|reflexivity].
  destruct fb as [f|]; [|reflexivity].
  destruct (backoffMs f =? 0); reflexivity.
Qed.

(** What the loop keeps true of its variables: the regions of the log are
    distinct and all marked failed, and the region about to be tried is not
    marked failed. *)
Definition loopInvariant (l : Loop) : Prop :=
  NoDup (map Errors.region (attempts l))
  /\ (forall a, In a (attempts l) -> In (Errors.region a) (failedRegions l))
  /\ ~ In (currentRegion l) (failedRegions l).

Lemma log_extended (l : Loop) (a : PaymentAttempt) :
  loopInvariant l ->
  Errors.region a = currentRegion l ->
  NoDup (map Errors.region (attempts l ++ [a])).
Proof.
  intros (Hnd & Hsub & Hcur) Ha.
  rewrite map_app. cbn [map].
  apply NoDup_app; [exact Hnd | repeat constructor; simpl; tauto |].
  intros x Hx [Hy|[]]. subst x. apply in_map_iff in Hx.
  destruct Hx as (a' & Hr & Hin). apply Hcur.
  rewrite <- Ha, <- Hr. now apply Hsub.
Qed.

Lemma payLoop_regions remaining : forall attempt l (st : State Ext),
  loopInvariant l ->
  let run := Client.payLoop clock requestPay sleep i key decision maxAttempts fb
               remaining attempt l st in
  NoDup (map Errors.region (attemptsLog run))
  /\ exists log,
       attemptsLog run = attempts l ++ log
       /\ match log with
          | [] => True
          | a :: rest =>
              Errors.region a = currentRegion l
              /\ Errors.routerId a = currentRouterId l
              /\ Forall (Spec.fromAlternative decision) rest
          end.
Proof.
  induction remaining as [|remaining IH]; intros attempt l st Hinv run; subst run.
  - cbn [Client.payLoop attemptsLog]. split; [apply Hinv|].
    exists []. now rewrite app_nil_r.
  - assert (Hone : forall a (o : Outcome PaymentResult Exception) (s : State Ext),
               Errors.region a = currentRegion l ->
               Errors.routerId a = currentRouterId l ->
               Client.payLoop clock requestPay sleep i key decision maxAttempts fb
                 (S remaining) attempt l st
               = mkPayRun o (attempts l ++ [a]) s ->
               NoDup (map Errors.region
                        (attemptsLog
                           (Client.payLoop clock requestPay sleep i key decision
                              maxAttempts fb (S remaining) attempt l st)))
               /\ exists log,
                    attemptsLog
                      (Client.payLoop clock requestPay sleep i key decision
                         maxAttempts fb (S remaining) attempt l st)
                    = attempts l ++ log
                    /\ match log with
                       | [] => True
                       | a0 :: rest =>
                           Errors.region a0 = currentRegion l
                           /\ Errors.routerId a0 = currentRouterId l
                           /\ Forall (Spec.fromAlternative decision) rest
                       end).
    { intros a o s Hr Hrid ->. cbn [attemptsLog].
      split; [now apply log_extended|]. exists [a]. auto. }
    destruct (Client.executePayment clock requestPay (Spec.requestOf i key attempt l) st)
      as [[result|error] st1] eqn:He.
    + eapply Hone; [| |apply (payLoop_success clock requestPay sleep i key decision
                                maxAttempts fb remaining attempt l st st1 result He)];
        reflexivity.
    + destruct error as [e|msg].
      * destruct (isRetryableError e) eqn:Hr.
        -- destruct (payLoop_retry_fallback remaining attempt l st st1 e He Hr)
             as [(fallback & st2 & Hf & _ & _ & _ & ->)|Hstop].
           ++ destruct (getNextFallback_some _ _ Hf) as (Hin & Hav & Hnot).
              set (a := Spec.failedEntry clock attempt l (GeoPayException e) st st1) in *.
              assert (Hinv' : loopInvariant
                                (mkLoop (attempts l ++ [a])
                                   (set_add (currentRegion l) (failedRegions l))
                                   (Types.region fallback) (Types.routerId fallback))).
              { split; [now apply log_extended|]. split; [|exact Hnot].
                cbn [attempts failedRegions]. intros a' Ha'.
                apply set_add_In. apply in_app_iff in Ha'.
                destruct Ha' as [Ha'|[<-|[]]]; [right; now apply Hinv | now left]. }
              destruct (IH (attempt + 1) _ st2 Hinv') as (Hnd & log & Hlog & Hshape).
              split; [exact Hnd|].
              exists (a :: log). cbn [attempts] in Hlog.
              split; [rewrite Hlog; now rewrite <- app_assoc|].
              split; [reflexivity|]. split; [reflexivity|].
              destruct log as [|a1 rest]; [constructor|].
              cbn [currentRegion currentRouterId] in Hshape.
              destruct Hshape as (H1 & H2 & H3).
              constructor; [|exact H3].
              exists fallback. auto.
           ++ eapply Hone; [| |exact Hstop]; reflexivity.
        -- eapply Hone; [| |apply (payLoop_abort clock requestPay sleep i key decision
                                     maxAttempts fb remaining attempt l st st1
                                     (GeoPayException e) He Hr)]; reflexivity.
      * eapply Hone; [| |apply (payLoop_abort clock requestPay sleep i key decision
                                  maxAttempts fb remaining attempt l st st1
                                  (OtherError msg) He I)]; reflexivity.
Qed.

(** One iteration is all there is when fallback is off. *)
Lemma payLoop_single remaining attempt l (st : State Ext) :
  (match fb with Some f => enabled f | None => false end) = false
  \/ maxAttempts <= attempt ->
  let run := Client.payLoop clock requestPay sleep i key decision maxAttempts fb
               (S remaining) attempt l st in
  payCalls (final run) = payCalls st ++ [Spec.requestOf i key attempt l]
  /\ length (attemptsLog run) = S (length (attempts l)).
Proof.
  intros Hoff run. subst run.
  pose proof (executePayment_calls clock requestPay (Spec.requestOf i key attempt l) st)
    as [Hcalls _].
  assert (Hlen : forall a : PaymentAttempt,
             length (attempts l ++ [a]) = S (length (attempts l)))
    by (intros a; rewrite length_app; simpl; lia).
  destruct (Client.executePayment clock requestPay (Spec.requestOf i key attempt l) st)
    as [[result|error] st1] eqn:He; cbn [snd] in Hcalls.
  - rewrite (payLoop_success clock requestPay sleep i key decision maxAttempts fb
               remaining attempt l st st1 result He).
    cbn [final attemptsLog]. auto.
  - destruct error as [e|msg].
    + destruct (isRetryableError e) eqn:Hr.
      * destruct (payLoop_retry_fallback remaining attempt l st st1 e He Hr)
          as [(fallback & st2 & _ & Hon & Hlt & _)|Hstop];
          [destruct Hoff; [congruence | lia]|].
        rewrite Hstop. cbn [final attemptsLog]. auto.
      * rewrite (payLoop_abort clock requestPay sleep i key decision maxAttempts fb
                   remaining attempt l st st1 (GeoPayException e) He Hr).
        cbn [final attemptsLog]. auto.
    + rewrite (payLoop_abort clock requestPay sleep i key decision maxAttempts fb
                 remaining attempt l st st1 (OtherError msg) He I).
      cbn [final attemptsLog]. auto.
Qed.
End MoreExecutorFacts.

(** X14: whatever the gateway answers, [pay] never sends two attempts to
    the same region: the regions of its attempts log are pairwise
    distinct. *)
Theorem pay_tries_each_region_once (Ext : Type) (clock : Ext -> Z)
    (requestQuote : Client.QuoteRequest -> Ext ->
       Js.Outcome (Client.Layer403Response (list Types.RegionQuote))
         Errors.Exception * Ext)
    (requestPay : Client.PayRequest -> Ext ->
       Js.Outcome (Client.Layer403Response Errors.PaymentResult)
         Errors.Exception * Ext)
    (sleep : Z -> Ext -> Ext)
    (generateIdempotencyKey : Ext -> string * Ext)
    (numberToString : Q -> string)
    (i : Types.PaymentIntent) (options : Errors.PaymentOptions)
    (st : Client.State Ext) :
  NoDup (map Errors.region
           (Client.attemptsLog
              (Client.pay clock requestQuote requestPay sleep
                 generateIdempotencyKey numberToString i options st))).
Proof.
  unfold Client.pay.
  destruct (match Errors.o_idempotencyKey options with
            | Some k => (k, st)
            | None =>
                let '(k, e) := generateIdempotencyKey (Client.ext st) in
                (k, Client.mkState (Client.client st) e (Client.payCalls st))
            end) as [key st0].
  destruct (Types.mode _);
    destruct (Client.decideRoute _ _ _ _ _ _) as [[decision|x] st1];
    cbn [Client.attemptsLog map]; try constructor;
    apply payLoop_regions; (split; [constructor | split; [intros a []| intros []]]).
Qed.

(** X15: the first attempt of [pay] goes to the forced region, or to the
    region of the decision when none is forced; every later attempt goes to
    the region and router of an available alternative of that decision.  When
    no route is decided there is no attempt. *)
Theorem pay_falls_back_to_alternatives (Ext : Type) (clock : Ext -> Z)
    (requestQuote : Client.QuoteRequest -> Ext ->
       Js.Outcome (Client.Layer403Response (list Types.RegionQuote))
         Errors.Exception * Ext)
    (requestPay : Client.PayRequest -> Ext ->
       Js.Outcome (Client.Layer403Response Errors.PaymentResult)
         Errors.Exception * Ext)
    (sleep : Z -> Ext -> Ext)
    (generateIdempotencyKey : Ext -> string * Ext)
    (numberToString : Q -> string)
    (i : Types.PaymentIntent) (options : Errors.PaymentOptions)
    (st : Client.State Ext) :
  let st0 :=
    match Errors.o_idempotencyKey options with
    | Some _ => st
    | None =>
        Client.mkState (Client.client st)
          (snd (generateIdempotencyKey (Client.ext st))) (Client.payCalls st)
    end in
  let log :=
    Client.attemptsLog
      (Client.pay clock requestQuote requestPay sleep generateIdempotencyKey
         numberToString i options st) in
  match Client.decideRoute clock requestQuote numberToString i
          Client.noQuoteOptions st0 with
  | (Js.Return decision, _) =>
      match log with
      | [] => True
      | first :: rest =>
          Errors.region first
          = Js.orElse (Errors.forceRegion options) (Strategy.chosenRegion decision)
          /\ Forall (Spec.fromAlternative decision) rest
      end
  | (Js.Throw _, _) => log = []
  end.
Proof.
  intros st0 log. subst st0 log. unfold Client.pay.
  assert (Hkey : exists key,
             match Errors.o_idempotencyKey options with
             | Some k => (k, st)
             | None =>
                 let '(k, e) := generateIdempotencyKey (Client.ext st) in
                 (k, Client.mkState (Client.client st) e (Client.payCalls st))
             end
             = (key,
                match Errors.o_idempotencyKey options with
                | Some _ => st
                | None =>
                    Client.mkState (Client.client st)
                      (snd (generateIdempotencyKey (Client.ext st)))
                      (Client.payCalls st)
                end)).
  { destruct (Errors.o_idempotencyKey options) as [k|]; [now exists k|].
    destruct (generateIdempotencyKey (Client.ext st)) as [k e]. now exists k. }
  destruct Hkey as [key ->].
  set (st0 := match Errors.o_idempotencyKey options with
              | Some _ => st
              | None => _
              end).
  destruct (Client.decideRoute clock requestQuote numberToString i
              Client.noQuoteOptions st0) as [[decision|x] st1];
    [|destruct (Types.mode _); reflexivity].
  assert (Hloop : forall maxAttempts fb remaining r rid,
             r = Js.orElse (Errors.forceRegion options)
                   (Strategy.chosenRegion decision) ->
             match Client.attemptsLog
                     (Client.payLoop clock requestPay sleep i key decision
                        maxAttempts fb remaining 1
                        (Client.mkLoop [] [] r rid) st1) with
             | [] => True
             | first :: rest =>
                 Errors.region first
                 = Js.orElse (Errors.forceRegion options)
                     (Strategy.chosenRegion decision)
                 /\ Forall (Spec.fromAlternative decision) rest
             end).
  { intros maxAttempts fb remaining r rid ->.
    destruct (payLoop_regions clock requestPay sleep i key decision maxAttempts fb
                remaining 1
                (Client.mkLoop [] []
                   (Js.orElse (Errors.forceRegion options)
                      (Strategy.chosenRegion decision)) rid) st1)
      as (_ & l & -> & Hshape).
    - split; [constructor | split; [intros a []| intros []]].
    - cbn [Client.attempts app]. destruct l as [|first rest]; [exact I|].
      cbn [Client.currentRegion] in Hshape. tauto. }
  destruct (Types.mode _); try exact I; apply Hloop; reflexivity.
Qed.

(** X16: in dry-run mode [pay] sends nothing to the payment endpoint,
    records no attempt and always throws. *)
Theorem pay_dry_run_never_pays (Ext : Type) (clock : Ext -> Z)
    (requestQuote : Client.QuoteRequest -> Ext ->
       Js.Outcome (Client.Layer403Response (list Types.RegionQuote))
         Errors.Exception * Ext)
    (requestPay : Client.PayRequest -> Ext ->
       Js.Outcome (Client.Layer403Response Errors.PaymentResult)
         Errors.Exception * Ext)
    (sleep : Z -> Ext -> Ext)
    (generateIdempotencyKey : Ext -> string * Ext)
    (numberToString : Q -> string)
    (i : Types.PaymentIntent) (options : Errors.PaymentOptions)
    (st : Client.State Ext) :
  Types.mode (Client.routingConfig (Client.client st)) = Types.ModeDryRun ->
  let run :=
    Client.pay clock requestQuote requestPay sleep generateIdempotencyKey
      numberToString i options st in
  Client.payCalls (Client.final run) = Client.payCalls st
  /\ Client.attemptsLog run = []
  /\ exists error, Client.outcome run = Js.Throw error.
Proof.
  intros Hmode run. subst run. unfold Client.pay.
  destruct (Errors.o_idempotencyKey options) as [k|];
    [|destruct (generateIdempotencyKey (Client.ext st)) as [k e]];
    cbn [Client.client]; rewrite Hmode;
    match goal with
    | |- context [Client.decideRoute ?c ?rq ?n ?j ?o ?s] =>
        pose proof (decideRoute_calls c rq n j o s) as [Hcalls _];
        destruct (Client.decideRoute c rq n j o s) as [[decision|x] st1]
    end;
    cbn [snd Client.payCalls] in Hcalls;
    cbn [Client.final Client.attemptsLog Client.outcome];
    (split; [exact Hcalls | split; [reflexivity | eexists; reflexivity]]).
Qed.

Lemma pay_dry_run_never_pays_witness :
  let run :=
    Samples.payWith Samples.requestPay_ok Samples.intent
      (Samples.withKey "k"%string)
      (Samples.startWith Types.ModeDryRun (Some (Types.mkFallback true 3 1000))) in
  Client.payCalls (Client.final run) = []
  /\ Client.attemptsLog run = []
  /\ exists error, Client.outcome run = Js.Throw error.
Proof.
  apply (pay_dry_run_never_pays Z Samples.clock Samples.requestQuote
           Samples.requestPay_ok Samples.sleep Samples.generateIdempotencyKey
           Samples.numberToString Samples.intent (Samples.withKey "k"%string)
           (Samples.startWith Types.ModeDryRun
              (Some (Types.mkFallback true 3 1000)))).
  reflexivity.
Defined.

(** X17: with [fallback.maxTries] at zero or below (and [noFallback] not
    set) the loop of [pay] is never entered: nothing is sent to the payment
    endpoint, no attempt is recorded and [pay] throws. *)
Theorem pay_without_tries_never_pays (Ext : Type) (clock : Ext -> Z)
    (requestQuote : Client.QuoteRequest -> Ext ->
       Js.Outcome (Client.Layer403Response (list Types.RegionQuote))
         Errors.Exception * Ext)
    (requestPay : Client.PayRequest -> Ext ->
       Js.Outcome (Client.Layer403Response Errors.PaymentResult)
         Errors.Exception * Ext)
    (sleep : Z -> Ext -> Ext)
    (generateIdempotencyKey : Ext -> string * Ext)
    (numberToString : Q -> string)
    (i : Types.PaymentIntent) (options : Errors.PaymentOptions)
    (st : Client.State Ext) (f : Types.FallbackConfig) :
  Errors.noFallback options = false ->
  Types.fallback (Client.routingConfig (Client.client st)) = Some f ->
  Types.maxTries f <= 0 ->
  let run :=
    Client.pay clock requestQuote requestPay sleep generateIdempotencyKey
      numberToString i options st in
  Client.payCalls (Client.final run) = Client.payCalls st
  /\ Client.attemptsLog run = []
  /\ exists error, Client.outcome run = Js.Throw error.
Proof.
  intros Hno Hfb Hmax run. subst run. unfold Client.pay.
  assert (Hzero : Z.to_nat (Types.maxTries f) = 0%nat) by lia.
  destruct (Errors.o_idempotencyKey options) as [k|];
    [|destruct (generateIdempotencyKey (Client.ext st)) as [k e]];
    cbn [Client.client];
    match goal with
    | |- context [Client.decideRoute ?c ?rq ?n ?j ?o ?s] =>
        pose proof (decideRoute_calls c rq n j o s) as [Hcalls Hcfg];
        destruct (Client.decideRoute c rq n j o s) as [[decision|x] st1]
    end;
    cbn [snd Client.payCalls Client.client] in Hcalls, Hcfg;
    destruct (Types.mode _);
    rewrite ?Hno, ?Hcfg, ?Hfb, ?Hzero;
    cbn [Client.payLoop Client.final Client.attemptsLog Client.outcome
         Client.attempts];
    (split; [exact Hcalls | split; [reflexivity | eexists; reflexivity]]).
Qed.

Lemma pay_without_tries_never_pays_witness :
  let run :=
    Samples.payWith Samples.requestPay_ok Samples.intent
      (Samples.withKey "k"%string)
      (Samples.startWith Types.ModeAuto (Some (Types.mkFallback true 0 1000))) in
  Client.payCalls (Client.final run) = []
  /\ Client.attemptsLog run = []
  /\ exists error, Client.outcome run = Js.Throw error.
Proof.
  apply (pay_without_tries_never_pays Z Samples.clock Samples.requestQuote
           Samples.requestPay_ok Samples.sleep Samples.generateIdempotencyKey
           Samples.numberToString Samples.intent (Samples.withKey "k"%string)
           (Samples.startWith Types.ModeAuto (Some (Types.mkFallback true 0 1000)))
           (Types.mkFallback true 0 1000)).
  - reflexivity.
  - reflexivity.
  - simpl. lia.
Defined.

(** X18: with [noFallback] set, or with fallback disabled or missing in the
    routing configuration, [pay] sends at most one request to the payment
    endpoint and records at most one attempt, whatever the gateway
    answers. *)
Theorem pay_single_attempt_without_fallback (Ext : Type) (clock : Ext -> Z)
    (requestQuote : Client.QuoteRequest -> Ext ->
       Js.Outcome (Client.Layer403Response (list Types.RegionQuote))
         Errors.Exception * Ext)
    (requestPay : Client.PayRequest -> Ext ->
       Js.Outcome (Client.Layer403Response Errors.PaymentResult)
         Errors.Exception * Ext)
    (sleep : Z -> Ext -> Ext)
    (generateIdempotencyKey : Ext -> string * Ext)
    (numberToString : Q -> string)
    (i : Types.PaymentIntent) (options : Errors.PaymentOptions)
    (st : Client.State Ext) :
  Errors.noFallback options = true
  \/ match Types.fallback (Client.routingConfig (Client.client st)) with
     | Some f => Types.enabled f
     | None => false
     end = false ->
  let run :=
    Client.pay clock requestQuote requestPay sleep generateIdempotencyKey
      numberToString i options st in
  (length (Client.attemptsLog run) <= 1)%nat
  /\ exists calls,
       Client.payCalls (Client.final run) = Client.payCalls st ++ calls
       /\ (length calls <= 1)%nat.
Proof.
  intros Hoff run. subst run. unfold Client.pay.
  assert (Hloop : forall key decision (st1 : Client.State Ext) r rid,
             Client.payCalls st1 = Client.payCalls st ->
             Client.routingConfig (Client.client st1)
             = Client.routingConfig (Client.client st) ->
             let fb := Types.fallback (Client.routingConfig (Client.client st1)) in
             let maxAttempts :=
               if Errors.noFallback options then 1
               else match fb with Some f => Types.maxTries f | None => 3 end in
             let run :=
               Client.payLoop clock requestPay sleep i key decision maxAttempts fb
                 (Z.to_nat maxAttempts) 1 (Client.mkLoop [] [] r rid) st1 in
             (length (Client.attemptsLog run) <= 1)%nat
             /\ exists calls,
                  Client.payCalls (Client.final run) = Client.payCalls st ++ calls
                  /\ (length calls <= 1)%nat).
  { intros key decision st1 r rid Hcalls Hcfg fb maxAttempts run.
    subst run. destruct (Z.to_nat maxAttempts) as [|remaining] eqn:Hn.
    - cbn [Client.payLoop Client.attemptsLog Client.final Client.attempts length].
      split; [lia|]. exists []. rewrite app_nil_r. split; [exact Hcalls | simpl; lia].
    - destruct (payLoop_single clock requestPay sleep i key decision maxAttempts fb
                  remaining 1 (Client.mkLoop [] [] r rid) st1) as [Hc Hl].
      + destruct Hoff as [Hno|Hen].
        * right. subst maxAttempts. rewrite Hno. lia.
        * left. subst fb. now rewrite Hcfg.
      + cbn [Client.attempts length] in Hl. split; [lia|].
        eexists. rewrite Hc, Hcalls. split; [reflexivity | simpl; lia]. }
  destruct (Errors.o_idempotencyKey options) as [k|];
    [|destruct (generateIdempotencyKey (Client.ext st)) as [k e]];
    cbn [Client.client];
    match goal with
    | |- context [Client.decideRoute ?c ?rq ?n ?j ?o ?s] =>
        pose proof (decideRoute_calls c rq n j o s) as [Hcalls Hcfg];
        destruct (Client.decideRoute c rq n j o s) as [[decision|x] st1]
    end;
    cbn [snd Client.payCalls Client.client] in Hcalls, Hcfg;
    destruct (Types.mode _);
    try (apply Hloop; assumption);
    cbn [Client.final Client.attemptsLog Client.outcome length];
    (split; [lia|]; exists []; rewrite app_nil_r; split; [exact Hcalls | simpl; lia]).
Qed.

Lemma pay_single_attempt_without_fallback_witness :
  let run :=
    Samples.payWith Samples.requestPay_flaky Samples.intent
      (Samples.withKey "k"%string)
      (Samples.startWith Types.ModeAuto (Some (Types.mkFallback false 3 1000))) in
  (length (Client.attemptsLog run) <= 1)%nat
  /\ exists calls,
       Client.payCalls (Client.final run) = [] ++ calls
       /\ (length calls <= 1)%nat.
Proof.
  apply (pay_single_attempt_without_fallback Z Samples.clock Samples.requestQuote
           Samples.requestPay_flaky Samples.sleep Samples.generateIdempotencyKey
           Samples.numberToString Samples.intent (Samples.withKey "k"%string)
           (Samples.startWith Types.ModeAuto
              (Some (Types.mkFallback false 3 1000)))).
  right. reflexivity.
Defined.

(** ** Quotes: the cache in front of the gateway *)

Section QuoteFacts.
Import Js Types Errors Client.
Context {Ext : Type}.
Variable clock : Ext -> Z.
Variable requestQuote :
  QuoteRequest -> Ext -> Outcome (Layer403Response (list RegionQuote)) Exception * Ext.
Variable numberToString : Q -> string.

Local Notation "'quote'" := (Client.quote clock requestQuote numberToString)
  (only parsing).

(** What a quote that did not come from the cache is made of. *)
Lemma quote_fresh i options (st st1 : State Ext) r :
  quote i options st = (Return r, st1) ->
  Strategy.fromCache r = false ->
  exists response,
    requestQuote (mkQuoteRequest i (regions options) (includeUnavailable options))
      (ext st)
    = (Return response, ext st1)
    /\ let fr :=
         Filter.filterQuotes (orElse (r_data response) []) i
           (Some (routingConfig (client st))) (Some (complianceConfig (client st))) in
       let scoringResult :=
         Scorer.scoreQuotes (Filter.passed fr)
           (orElse (weights (routingConfig (client st))) Scorer.DEFAULT_WEIGHTS) in
       Strategy.quotes r
       = (if includeUnavailable options
          then Scorer.quotes scoringResult ++ map Filter.quote (Filter.filtered fr)
          else Scorer.quotes scoringResult)
       /\ Strategy.best r = Scorer.best scoringResult
       /\ Strategy.generatedAt r = clock (ext st1)
       /\ cache (client st1)
          = if force options then cache (client st)
            else CacheM.set (clock (ext st1))
                   (snd (CacheM.get (clock (ext st)) (cache (client st))
                           (intentKey numberToString i)))
                   (intentKey numberToString i) r None.
Proof.
  unfold Client.quote, Client.getQuotes, Client.now.
  destruct (force options); cbn [negb].
  - destruct (requestQuote _ (ext st)) as [[response|x] e]; [|discriminate].
    intros H _. injection H as <- <-. exists response. cbn. repeat split.
  - destruct (CacheM.get (clock (ext st)) (cache (client st))
                (intentKey numberToString i)) as [[c|] cache'].
    + intros H Hf. injection H as <- <-. discriminate.
    + cbn [ext with_cache client routingConfig complianceConfig snd].
      destruct (requestQuote _ (ext st)) as [[response|x] e]; [|discriminate].
      intros H _. injection H as <- <-. exists response. cbn. repeat split.
Qed.
End QuoteFacts.

(** X19: a quote fetched from the gateway without [force] is served from
    the cache to any later unforced quote for the same intent made before the
    entry expires: the same result marked [fromCache], without a request to
    the gateway, whatever regions or [includeUnavailable] the later call asks
    for. *)
Theorem quote_served_from_cache (Ext : Type) (clock : Ext -> Z)
    (requestQuote : Client.QuoteRequest -> Ext ->
       Js.Outcome (Client.Layer403Response (list Types.RegionQuote))
         Errors.Exception * Ext)
    (numberToString : Q -> string)
    (i : Types.PaymentIntent) (options options' : Client.QuoteOptions)
    (st st1 st2 : Client.State Ext) (r : Strategy.QuoteResult) :
  Client.force options = false ->
  Client.force options' = false ->
  Client.quote clock requestQuote numberToString i options st = (Js.Return r, st1) ->
  Strategy.fromCache r = false ->
  Client.client st2 = Client.client st1 ->
  clock (Client.ext st2)
  <= clock (Client.ext st1) + CacheM.ttlMs (Client.cache (Client.client st)) ->
  fst (Client.quote clock requestQuote numberToString i options' st2)
  = Js.Return
      (Strategy.mkQuoteResult (Strategy.intentId r) (Strategy.quotes r)
         (Strategy.best r) (Strategy.generatedAt r) (Strategy.durationMs r)
         true (Strategy.warnings r))
  /\ Client.ext (snd (Client.quote clock requestQuote numberToString i options' st2))
     = Client.ext st2.
Proof.
  intros Hf Hf' Hq Hfresh Hc Ht.
  destruct (quote_fresh clock requestQuote numberToString i options st st1 r Hq Hfresh)
    as (response & _ & _ & _ & _ & Hcache).
  rewrite Hf in Hcache.
  unfold Client.quote. rewrite Hf'. cbn [negb]. unfold Client.now at 2.
  rewrite Hc, Hcache.
  match goal with
  | |- context [CacheM.get ?t (CacheM.set ?n ?c ?k ?v None) ?k] =>
      pose proof (get_store_set_default n c k v None) as Hg;
      rewrite (get_fresh t _ _ _ Hg)
        by (cbn [CacheM.expiresAt]; rewrite get_config; exact Ht)
  end.
  cbn [fst snd Client.with_cache Client.ext CacheM.value]. auto.
Qed.

Lemma quote_served_from_cache_witness :
  let first :=
    Client.quote Samples.clock Samples.requestQuote Samples.numberToString
      Samples.intent Client.noQuoteOptions Samples.start in
  exists r,
    fst first = Js.Return r
    /\ fst (Client.quote Samples.clock Samples.requestQuote Samples.numberToString
              Samples.intent
              (Client.mkQuoteOptions false true (Some ["BR"%string]))
              (Client.mkState (Client.client (snd first)) 60010 []))
       = Js.Return
           (Strategy.mkQuoteResult (Strategy.intentId r) (Strategy.quotes r)
              (Strategy.best r) (Strategy.generatedAt r) (Strategy.durationMs r)
              true (Strategy.warnings r)).
Proof.
  intros first. subst first.
  destruct (Client.quote Samples.clock Samples.requestQuote Samples.numberToString
              Samples.intent Client.noQuoteOptions Samples.start)
    as [[r|x] st1] eqn:Hq; [|vm_compute in Hq; discriminate].
  exists r. split; [reflexivity|]. cbn [snd].
  apply (quote_served_from_cache Z Samples.clock Samples.requestQuote
           Samples.numberToString Samples.intent Client.noQuoteOptions
           (Client.mkQuoteOptions false true (Some ["BR"%string]))
           Samples.start st1
           (Client.mkState (Client.client st1) 60010 []) r).
  - reflexivity.
  - reflexivity.
  - exact Hq.
  - vm_compute in Hq. injection Hq as <- _. reflexivity.
  - reflexivity.
  - vm_compute in Hq. injection Hq as _ <-. vm_compute. discriminate.
Defined.

Section BestFacts.
Import Types.

(** [best] is a quote of the ranking with the lowest score. *)
Lemma scoreQuotes_best quotes w b :
  Scorer.best (Scorer.scoreQuotes quotes w) = Some b ->
  In b (Scorer.quotes (Scorer.scoreQuotes quotes w))
  /\ forall q, In q (Scorer.quotes (Scorer.scoreQuotes quotes w)) ->
               (score b <= score q)%Q.
Proof.
  unfold Scorer.scoreQuotes. destruct quotes as [|q1 qs]; [discriminate|].
  cbn [Scorer.quotes Scorer.best].
  pose proof (sort_sorted
                (map (Scorer.scoreOne w (Scorer.computeRanges (q1 :: qs))) (q1 :: qs)))
    as Hs.
  destruct (Scorer.sort Scorer.byScore _) as [|first rest]; [discriminate|].
  cbn [hd_error]. intros H. injection H as ->.
  split; [now left|]. intros q [<-|Hin].
  - apply Qle_refl.
  - inversion Hs as [|? ? _ Hall]; subst.
    rewrite Forall_forall in Hall. now apply Hall.
Qed.

Lemma passed_checkQuote raw i rc cc q :
  In q (Filter.passed (Filter.filterQuotes raw i rc cc)) ->
  In q raw /\ Filter.checkQuote q i rc cc = None.
Proof.
  rewrite filterQuotes_spec. cbn [Filter.passed]. rewrite filter_In.
  unfold Filter.fails. intros [Hin Hc]. split; [exact Hin|].
  now destruct (Filter.checkQuote q i rc cc).
Qed.
End BestFacts.

(** X20: a forced quote neither reads nor writes the cache: its result
    and its request to the gateway are the same whatever the cache holds, and
    the cache is left as it was. *)
Theorem quote_force_bypasses_cache (Ext : Type) (clock : Ext -> Z)
    (requestQuote : Client.QuoteRequest -> Ext ->
       Js.Outcome (Client.Layer403Response (list Types.RegionQuote))
         Errors.Exception * Ext)
    (numberToString : Q -> string)
    (i : Types.PaymentIntent) (options : Client.QuoteOptions)
    (st : Client.State Ext) (c : CacheM.Cache Strategy.QuoteResult) :
  Client.force options = true ->
  let run := Client.quote clock requestQuote numberToString i options st in
  let run' :=
    Client.quote clock requestQuote numberToString i options
      (Client.with_cache st c) in
  fst run' = fst run
  /\ Client.ext (snd run') = Client.ext (snd run)
  /\ Client.cache (Client.client (snd run')) = c
  /\ Client.cache (Client.client (snd run)) = Client.cache (Client.client st).
Proof.
  intros Hf run run'. subst run run'.
  unfold Client.quote, Client.getQuotes, Client.now. rewrite Hf. cbn [negb].
  cbn [Client.with_cache Client.ext Client.client Client.routingConfig
       Client.complianceConfig].
  destruct (requestQuote _ (Client.ext st)) as [[response|x] e];
    cbn [fst snd Client.client Client.ext Client.cache Client.routingConfig
         Client.complianceConfig]; auto.
Qed.

Lemma quote_force_bypasses_cache_witness :
  let options := Client.mkQuoteOptions true false None in
  let c :=
    CacheM.set 0 (CacheM.new 60000 (Some 1000))
      (Client.intentKey Samples.numberToString Samples.intent)
      (Strategy.mkQuoteResult "pi_1" [] None 0 0 false None) None in
  let run :=
    Client.quote Samples.clock Samples.requestQuote Samples.numberToString
      Samples.intent options Samples.start in
  let run' :=
    Client.quote Samples.clock Samples.requestQuote Samples.numberToString
      Samples.intent options (Client.with_cache Samples.start c) in
  fst run' = fst run
  /\ Client.ext (snd run') = Client.ext (snd run)
  /\ Client.cache (Client.client (snd run')) = c
  /\ Client.cache (Client.client (snd run))
     = Client.cache (Client.client Samples.start).
Proof.
  intros options c.
  apply (quote_force_bypasses_cache Z Samples.clock Samples.requestQuote
           Samples.numberToString Samples.intent options Samples.start c).
  reflexivity.
Defined.

(** X21: the best quote of a result fetched from the gateway is a quote
    the gateway returned that passes every filter gate, with its score
    recomputed; it is in the returned list, and when unavailable quotes are
    not asked for no returned quote has a lower score. *)
Theorem quote_best_passes_filters (Ext : Type) (clock : Ext -> Z)
    (requestQuote : Client.QuoteRequest -> Ext ->
       Js.Outcome (Client.Layer403Response (list Types.RegionQuote))
         Errors.Exception * Ext)
    (numberToString : Q -> string)
    (i : Types.PaymentIntent) (options : Client.QuoteOptions)
    (st st1 : Client.State Ext) (r : Strategy.QuoteResult)
    (b : Types.RegionQuote) :
  Client.quote clock requestQuote numberToString i options st = (Js.Return r, st1) ->
  Strategy.fromCache r = false ->
  Strategy.best r = Some b ->
  (exists response q0,
      requestQuote
        (Client.mkQuoteRequest i (Client.regions options)
           (Client.includeUnavailable options)) (Client.ext st)
      = (Js.Return response, Client.ext st1)
      /\ In q0 (Js.orElse (Client.r_data response) [])
      /\ Spec.unscored b = Spec.unscored q0
      /\ Filter.checkQuote q0 i
           (Some (Client.routingConfig (Client.client st)))
           (Some (Client.complianceConfig (Client.client st))) = None)
  /\ In b (Strategy.quotes r)
  /\ (Client.includeUnavailable options = false ->
      forall q, In q (Strategy.quotes r) -> (Types.score b <= Types.score q)%Q).
Proof.
  intros Hq Hfresh Hb.
  destruct (quote_fresh clock requestQuote numberToString i options st st1 r Hq Hfresh)
    as (response & Hreq & Hquotes & Hbest & _).
  rewrite Hbest in Hb. apply scoreQuotes_best in Hb. destruct Hb as [Hin Hmin].
  split; [|split].
  - destruct (scoreQuotes_members _ _ _ Hin) as (q0 & Hq0 & Hu).
    apply passed_checkQuote in Hq0. destruct Hq0 as [Hraw Hc].
    exists response, q0. auto.
  - rewrite Hquotes. destruct (Client.includeUnavailable options); [|exact Hin].
    apply in_or_app. now left.
  - intros Hinc q. rewrite Hquotes, Hinc. apply Hmin.
Qed.

Lemma quote_best_passes_filters_witness :
  let run :=
    Client.quote Samples.clock Samples.requestQuote Samples.numberToString
      Samples.intent Client.noQuoteOptions Samples.start in
  exists r b,
    fst run = Js.Return r
    /\ Strategy.best r = Some b
    /\ In b (Strategy.quotes r)
    /\ forall q, In q (Strategy.quotes r) -> (Types.score b <= Types.score q)%Q.
Proof.
  intros run. subst run.
  destruct (Client.quote Samples.clock Samples.requestQuote Samples.numberToString
              Samples.intent Client.noQuoteOptions Samples.start)
    as [[r|x] st1] eqn:Hq; [|vm_compute in Hq; discriminate].
  destruct (Strategy.best r) as [b|] eqn:Hb;
    [|vm_compute in Hq; injection Hq as <- _; discriminate].
  exists r, b. split; [reflexivity|]. split; [exact Hb|].
  destruct (quote_best_passes_filters Z Samples.clock Samples.requestQuote
              Samples.numberToString Samples.intent Client.noQuoteOptions
              Samples.start st1 r b Hq) as (_ & Hin & Hmin).
  - vm_compute in Hq. injection Hq as <- _. reflexivity.
  - exact Hb.
  - split; [exact Hin | exact (Hmin eq_refl)].
Defined.

(** ** Error classification *)

(** X22: an error built from an HTTP status is retryable exactly for the
    statuses 408, 429, 500, 502, 503 and 504; every other status, known or
    not, gives an error that is not retryable. *)
Theorem http_status_retryable (now status : Z) (message : string)
    (details : Errors.Details) (requestId : option string) :
  Errors.isRetryableError
    (Errors.createError now (Errors.httpStatusToErrorCode status) message
       details requestId) = true
  <-> In status [408; 429; 500; 502; 503; 504].
Proof.
  unfold Errors.isRetryableError, Errors.createError, Errors.httpStatusToErrorCode.
  cbn [Errors.isRetryable In].
  repeat match goal with
         | |- context [?a =? ?b] => destruct (Z.eqb_spec a b)
         end;
    cbn [orb Errors.RETRYABLE_CODES_has];
    split; intros H; try reflexivity; try discriminate; lia.
Qed.

(** X23: when the gateway answers a payment request with a body that
    reports failure or carries no data, [executePayment] throws a
    LAYER403_ERROR, which is retryable whatever error the body names; the
    request has been sent all the same. *)
Theorem executePayment_rejected_is_retryable (Ext : Type) (clock : Ext -> Z)
    (requestPay : Client.PayRequest -> Ext ->
       Js.Outcome (Client.Layer403Response Errors.PaymentResult)
         Errors.Exception * Ext)
    (request : Client.PayRequest) (st : Client.State Ext)
    (response : Client.Layer403Response Errors.PaymentResult) (e : Ext) :
  requestPay request (Client.ext st) = (Js.Return response, e) ->
  Client.r_success response = false \/ Client.r_data response = None ->
  exists error,
    Client.executePayment clock requestPay request st
    = (Js.Throw (Errors.GeoPayException error),
       Client.mkState (Client.client st) e (Client.payCalls st ++ [request]))
    /\ Errors.code error = Errors.LAYER403_ERROR
    /\ Errors.isRetryableError error = true
    /\ Errors.message error
       = match Client.r_error response with
         | Some (m, _) => m
         | None => "Payment failed"%string
         end.
Proof.
  intros Hr Hbad. unfold Client.executePayment. rewrite Hr.
  destruct (Client.r_success response), (Client.r_data response);
    try (destruct Hbad; discriminate);
    eexists; (split; [reflexivity|]); cbn; auto.
Qed.

Lemma executePayment_rejected_is_retryable_witness :
  let refuse (request : Client.PayRequest) (t : Z) :=
    (Js.Return
       (Client.mkResponse (T:=Errors.PaymentResult) false None
          (Some ("Card declined"%string, Errors.NoDetails)) (Some "req_p"%string)),
     t + 20)
    : Js.Outcome (Client.Layer403Response Errors.PaymentResult) Errors.Exception * Z in
  let request :=
    Client.mkPayRequest Samples.intent "UK" "router_UK" "k-1" in
  exists error,
    Client.executePayment Samples.clock refuse request Samples.start
    = (Js.Throw (Errors.GeoPayException error),
       Client.mkState Samples.geopay 20 [request])
    /\ Errors.code error = Errors.LAYER403_ERROR
    /\ Errors.isRetryableError error = true
    /\ Errors.message error = "Card declined"%string.
Proof.
  intros refuse request.
  apply (executePayment_rejected_is_retryable Z Samples.clock refuse request
           Samples.start
           (Client.mkResponse false None
              (Some ("Card declined"%string, Errors.NoDetails))
              (Some "req_p"%string)) 20).
  - reflexivity.
  - left. reflexivity.
Defined.

(** ** Circuit breaker: admission, window, statistics *)

Section MoreBreakerFacts.
Import Js CircuitBreaker.
Context {T E : Type}.
Implicit Types (b : CircuitBreaker.t T E) (fn : Z -> Outcome T E * Z).

Lemma isAllowed_letThrough now b :
  isAllowed now b = match letThrough now b with Some _ => true | None => false end.
Proof.
  unfold isAllowed, letThrough. destruct (state b); try reflexivity.
  now destruct (shouldAttemptReset now b).
Qed.

Lemma not_due now b o :
  state b = open -> openedAt b = Some o -> o <> 0 ->
  now - o < resetTimeoutMs (config b) ->
  letThrough now b = None.
Proof.
  intros Hs Ho Hz Ht. unfold letThrough, shouldAttemptReset. rewrite Hs, Ho.
  destruct (Z.eqb_spec o 0); [contradiction|].
  destruct (Z.leb_spec (resetTimeoutMs (config b)) (now - o)); [lia | reflexivity].
Qed.

Lemma letThrough_calls startTime b b1 :
  letThrough startTime b = Some b1 -> incl (calls b1) (calls b).
Proof.
  unfold letThrough, transitionTo.
  destruct (state b); cbn [state_eqb];
    try (intros H; injection H as <-; apply incl_refl).
  destruct (shouldAttemptReset startTime b); [|discriminate].
  intros H; injection H as <-. cbn [calls cleanupOldCalls].
  apply incl_filter.
Qed.

(** The calls kept after recording one at [now]. *)
Lemma recorded_calls now w (l : list (CircuitCall E)) call :
  timestamp call = now ->
  let kept := filter (fun c => now - w <=? timestamp c) (l ++ [call]) in
  Forall (fun c => now - w <= timestamp c) kept
  /\ (0 <= w -> exists earlier, kept = earlier ++ [call] /\ incl earlier l).
Proof.
  intros Hts kept. subst kept. split.
  - apply Forall_forall. intros c Hc. apply filter_In in Hc.
    destruct Hc as [_ Hc]. now apply Z.leb_le.
  - intros Hw. rewrite filter_app. cbn [filter]. rewrite Hts.
    destruct (Z.leb_spec (now - w) now); [|lia].
    eexists. split; [reflexivity | apply incl_filter].
Qed.

Lemma getStats_counts now b :
  let s := fst (getStats now b) in
  (st_failures s + st_successes s = st_totalCalls s)%nat
  /\ (st_totalCalls s <= length (calls b))%nat.
Proof.
  cbn [getStats fst st_failures st_successes st_totalCalls cleanupOldCalls calls].
  split.
  - rewrite Nat.add_comm. apply filter_length_split.
  - apply filter_length_le.
Qed.
End MoreBreakerFacts.

(** X24: [isAllowed] tells what [execute] does at the same instant: the
    wrapped function is invoked exactly when [isAllowed] answers true. *)
Theorem isAllowed_predicts_execute (T E : Type) (b : CircuitBreaker.t T E)
    (now : Z) (fn : Z -> Js.Outcome T E * Z) :
  CircuitBreaker.invoked (CircuitBreaker.execute now fn b)
  = CircuitBreaker.isAllowed now b.
Proof.
  rewrite isAllowed_letThrough. unfold CircuitBreaker.execute.
  destruct (CircuitBreaker.letThrough now b) as [b1|]; [|reflexivity].
  destruct (fn now) as [[v|e] endTime]; [reflexivity|].
  destruct (CircuitBreaker.isFailure (CircuitBreaker.config b1) e); reflexivity.
Qed.

(** X25: an open circuit whose reset time-out has not passed fails fast:
    [execute] answers with the configured fallback without invoking the
    function and leaves the breaker untouched, no call recorded; under the
    default fallback [executeWithFallback] returns the value it was given. *)
Theorem open_circuit_fails_fast (T E : Type) (b : CircuitBreaker.t T E)
    (now o : Z) (fn : Z -> Js.Outcome T E * Z) :
  CircuitBreaker.state b = CircuitBreaker.open ->
  CircuitBreaker.openedAt b = Some o ->
  o <> 0 ->
  now - o < CircuitBreaker.resetTimeoutMs (CircuitBreaker.config b) ->
  CircuitBreaker.execute now fn b
  = CircuitBreaker.mkRun (CircuitBreaker.fallback (CircuitBreaker.config b)) false b
  /\ forall message value,
       CircuitBreaker.fallback (CircuitBreaker.config b)
       = Js.Throw (CircuitBreaker.CircuitOpenError message) ->
       CircuitBreaker.executeWithFallback now fn value b
       = CircuitBreaker.mkRun (Js.Return value) false b.
Proof.
  intros Hs Ho Hz Ht.
  pose proof (execute_refused now fn b (not_due now b o Hs Ho Hz Ht)) as He.
  split; [exact He|].
  intros message value Hf. unfold CircuitBreaker.executeWithFallback.
  rewrite He. cbn [CircuitBreaker.result CircuitBreaker.invoked CircuitBreaker.after].
  now rewrite Hf.
Qed.

Lemma open_circuit_fails_fast_witness :
  CircuitBreaker.execute 5000 (fun t => (Js.Throw (Errors.OtherError "down"%string), t + 5)) Samples.trippedBreaker
  = CircuitBreaker.mkRun
      (CircuitBreaker.fallback (CircuitBreaker.config Samples.trippedBreaker))
      false Samples.trippedBreaker
  /\ forall message value,
       CircuitBreaker.fallback (CircuitBreaker.config Samples.trippedBreaker)
       = Js.Throw (CircuitBreaker.CircuitOpenError message) ->
       CircuitBreaker.executeWithFallback 5000 (fun t => (Js.Throw (Errors.OtherError "down"%string), t + 5))
         value Samples.trippedBreaker
       = CircuitBreaker.mkRun (Js.Return value) false Samples.trippedBreaker.
Proof.
  apply (open_circuit_fails_fast Errors.PaymentResult Errors.Exception Samples.trippedBreaker
           5000 4000 (fun t => (Js.Throw (Errors.OtherError "down"%string), t + 5))).
  - reflexivity.
  - reflexivity.
  - discriminate.
  - vm_compute. reflexivity.
Defined.

(** X26: after a call that went through, every call the breaker still
    holds lies inside the rolling window that ends when the call completed;
    with a window that is not negative the call just made is the last one
    held, and the others were held before. *)
Theorem execute_keeps_rolling_window (T E : Type) (b : CircuitBreaker.t T E)
    (startTime : Z) (fn : Z -> Js.Outcome T E * Z) :
  CircuitBreaker.invoked (CircuitBreaker.execute startTime fn b) = true ->
  let endTime := snd (fn startTime) in
  let held := CircuitBreaker.calls (CircuitBreaker.after
                                      (CircuitBreaker.execute startTime fn b)) in
  Forall (fun c =>
            endTime - CircuitBreaker.rollingWindowMs (CircuitBreaker.config b)
            <= CircuitBreaker.timestamp c) held
  /\ (0 <= CircuitBreaker.rollingWindowMs (CircuitBreaker.config b) ->
      exists earlier call,
        held = earlier ++ [call]
        /\ CircuitBreaker.timestamp call = endTime
        /\ CircuitBreaker.duration call = endTime - startTime
        /\ incl earlier (CircuitBreaker.calls b)).
Proof.
  intros Hinv endTime held. subst endTime held.
  destruct (invoked_letThrough startTime fn b Hinv) as [b1 Ha].
  rewrite (execute_letThrough startTime fn b b1 Ha).
  pose proof (letThrough_config startTime b b1 Ha) as Hc.
  pose proof (letThrough_calls startTime b b1 Ha) as Hincl.
  assert (Hrec : forall (call : CircuitBreaker.CircuitCall E),
             CircuitBreaker.timestamp call = snd (fn startTime) ->
             CircuitBreaker.duration call = snd (fn startTime) - startTime ->
             let kept :=
               filter (fun c =>
                         snd (fn startTime)
                         - CircuitBreaker.rollingWindowMs (CircuitBreaker.config b1)
                         <=? CircuitBreaker.timestamp c)
                 (CircuitBreaker.calls b1 ++ [call]) in
             Forall (fun c =>
                       snd (fn startTime)
                       - CircuitBreaker.rollingWindowMs (CircuitBreaker.config b)
                       <= CircuitBreaker.timestamp c) kept
             /\ (0 <= CircuitBreaker.rollingWindowMs (CircuitBreaker.config b) ->
                 exists earlier call0,
                   kept = earlier ++ [call0]
                   /\ CircuitBreaker.timestamp call0 = snd (fn startTime)
                   /\ CircuitBreaker.duration call0 = snd (fn startTime) - startTime
                   /\ incl earlier (CircuitBreaker.calls b))).
  { intros call Hts Hd kept. subst kept. rewrite Hc.
    destruct (recorded_calls (snd (fn startTime))
                (CircuitBreaker.rollingWindowMs (CircuitBreaker.config b))
                (CircuitBreaker.calls b1) call Hts) as [Hall Hlast].
    split; [exact Hall|]. intros Hw.
    destruct (Hlast Hw) as (earlier & Hk & Hi).
    exists earlier, call. split; [exact Hk|]. split; [exact Hts|].
    split; [exact Hd|]. eapply incl_tran; eassumption. }
  destruct (fn startTime) as [[v|e] endTime]; cbn [snd] in *.
  - cbn [CircuitBreaker.after]. rewrite recordSuccess_calls. now apply Hrec.
  - destruct (CircuitBreaker.isFailure (CircuitBreaker.config b1) e);
      cbn [CircuitBreaker.after];
      [rewrite recordFailure_calls | rewrite recordSuccess_calls];
      now apply Hrec.
Qed.

Lemma execute_keeps_rolling_window_witness :
  let held :=
    CircuitBreaker.calls
      (CircuitBreaker.after
         (CircuitBreaker.execute 100 (Samples.failAfter "boom" 5)
            (CircuitBreaker.new Samples.breakerConfig))) in
  Forall (fun c => 105 - 60000 <= CircuitBreaker.timestamp c) held
  /\ (0 <= 60000 ->
      exists earlier call,
        held = earlier ++ [call]
        /\ CircuitBreaker.timestamp call = 105
        /\ CircuitBreaker.duration call = 105 - 100
        /\ incl earlier []).
Proof.
  apply (execute_keeps_rolling_window unit string
           (CircuitBreaker.new Samples.breakerConfig) 100
           (Samples.failAfter "boom" 5)).
  reflexivity.
Defined.

(** The statistics add up: failures and successes together are the
    calls counted, no more calls are counted than the breaker held, and the
    failure rate lies between 0 and 1 (0 when no call is in the window). *)
Lemma getStats_adds_up (T E : Type) (b : CircuitBreaker.t T E) (now : Z) :
  let s := fst (CircuitBreaker.getStats now b) in
  (CircuitBreaker.st_failures s + CircuitBreaker.st_successes s
   = CircuitBreaker.st_totalCalls s)%nat
  /\ (CircuitBreaker.st_totalCalls s <= length (CircuitBreaker.calls b))%nat
  /\ (0 <= CircuitBreaker.st_failureRate s <= 1)%Q
  /\ (CircuitBreaker.st_totalCalls s = 0%nat ->
      CircuitBreaker.st_failureRate s == 0)%Q.
Proof.
  intros s. destruct (getStats_counts now b) as [Hsum Hle]. fold s in Hsum, Hle.
  split; [exact Hsum|]. split; [exact Hle|].
  subst s. revert Hsum Hle.
  cbn [CircuitBreaker.getStats fst CircuitBreaker.st_failures
       CircuitBreaker.st_successes CircuitBreaker.st_totalCalls
       CircuitBreaker.st_failureRate].
  set (held := CircuitBreaker.calls (CircuitBreaker.cleanupOldCalls now b)).
  set (failures := length (filter (fun c => negb (CircuitBreaker.success c)) held)).
  intros Hsum _.
  destruct (Nat.ltb_spec 0 (length held)) as [Hpos|Hz].
  - split; [|intros H0; lia].
    assert (Hn : (0 < inject_Z (Z.of_nat (length held)))%Q).
    { change 0%Q with (inject_Z 0). rewrite <- Zlt_Qlt. lia. }
    split.
    + apply Qle_shift_div_l; [exact Hn|]. rewrite Qmult_0_l.
      change 0%Q with (inject_Z 0). rewrite <- Zle_Qle. lia.
    + apply Qle_shift_div_r; [exact Hn|]. rewrite Qmult_1_l.
      rewrite <- Zle_Qle. lia.
  - split; [split; [apply Qle_refl | discriminate]|].
    intros _. reflexivity.
Qed.

(** ** Idempotency: locks, retries, clean-up *)

Section MoreIdempotencyFacts.
Import Js Idempotency.
Context {D T E : Type}.
Variable hashRequest : D -> string.
Implicit Types (m : @IdempotencyManager T E) (k : string).

Lemma wf_storage_get now (s : @Storage T E) k :
  JsMap.wf s -> JsMap.wf (snd (storage_get now s k)).
Proof.
  intros H. unfold storage_get. destruct (JsMap.get s k) as [r|]; [|exact H].
  destruct (expiresAt r <? now); [|exact H]. now apply JsMap_wf_delete.
Qed.

(** A key that is absent, or that holds a failed record of the same
    payload, lets the request proceed. *)
Lemma check_proceeds t m k data :
  JsMap.wf (storage m) ->
  JsMap.get (storage m) k = None
  \/ (exists r, JsMap.get (storage m) k = Some r
                /\ requestHash r = hashRequest data /\ status r = failed) ->
  exists c m1,
    check hashRequest t m k data = (Return c, m1) /\ canProceed c = true.
Proof.
  intros Hwf H. unfold check, storage_get.
  destruct H as [Hn|(r & Hg & Hh & Hs)].
  - rewrite Hn. eauto.
  - rewrite Hg. destruct (expiresAt r <? t); [eauto|].
    rewrite Hh, String.eqb_refl, Hs. cbn [negb]. eauto.
Qed.

Lemma execute_runs_invoked now m k data fn c m1 :
  check hashRequest now m k data = (Return c, m1) ->
  canProceed c = true \/ existingResponse c = None ->
  invoked (execute hashRequest now m k data fn) = true.
Proof.
  intros Hc Hp. rewrite (execute_runs hashRequest now m k data fn c m1 Hc Hp).
  cbv zeta. destruct (fn now) as [[r|e] endTime]; [|reflexivity].
  destruct (complete _ _ _ _) as [[u|err] m3]; reflexivity.
Qed.

(** What [fail] leaves under the key right after [startProcessing]. *)
Lemma fail_after_start now endTime m k data err :
  JsMap.wf (storage m) ->
  let m2 := snd (startProcessing hashRequest now m k data) in
  JsMap.wf (storage (fail endTime m2 k err))
  /\ (JsMap.get (storage (fail endTime m2 k err)) k = None
      \/ exists r,
           JsMap.get (storage (fail endTime m2 k err)) k = Some r
           /\ requestHash r = hashRequest data /\ status r = failed).
Proof.
  intros Hwf m2. subst m2. unfold fail, storage_get, startProcessing, storage_set.
  cbn [snd storage with_storage].
  rewrite JsMap_get_set_same. cbn [expiresAt].
  assert (Hwf2 : JsMap.wf
                   (JsMap.set (storage m) k
                      (mkRecord k (hashRequest data) None processing now None
                         (now + ttlMs m) (Some (now + lockTimeoutMs m)))))
    by now apply JsMap_wf_set.
  destruct (now + ttlMs m <? endTime); cbn [storage with_storage].
  - split; [now apply JsMap_wf_delete|]. left. now apply JsMap_get_delete_same.
  - split; [now apply JsMap_wf_set|]. right. eexists.
    rewrite JsMap_get_set_same. split; [reflexivity|]. split; reflexivity.
Qed.

(** The loop of [cleanup], one record at a time. *)
Lemma cleanup_fold now (l : @Storage T E) : forall pre n,
  JsMap.wf (pre ++ l) ->
  fold_left (cleanup_step now) l (n, pre ++ l)
  = ((n + length (filter (fun kr => (expiresAt (snd kr) <? now)%Z) l))%nat,
     pre ++ filter (fun kr => negb (expiresAt (snd kr) <? now)) l).
Proof.
  induction l as [|[k r] l IH]; intros pre n Hwf; cbn [fold_left filter].
  - f_equal. simpl. lia.
  - unfold cleanup_step at 2. cbn [fst snd].
    assert (Hk : ~ In k (JsMap.keys pre)).
    { unfold JsMap.wf, JsMap.keys in Hwf. rewrite map_app in Hwf.
      simpl in Hwf. apply NoDup_remove_2 in Hwf.
      intros Hin. apply Hwf. apply in_or_app. now left. }
    destruct (expiresAt r <? now) eqn:He; cbn [negb].
    + rewrite JsMap_delete_app_notin by assumption. simpl JsMap.delete.
      rewrite String.eqb_refl.
      rewrite IH.
      * f_equal. simpl. lia.
      * unfold JsMap.wf, JsMap.keys in *. rewrite map_app in *. simpl in Hwf.
        now apply NoDup_remove_1 in Hwf.
    + replace (pre ++ (k, r) :: l) with ((pre ++ [(k, r)]) ++ l)
        by now rewrite <- app_assoc.
      rewrite IH.
      * now rewrite <- app_assoc.
      * now rewrite <- app_assoc.
Qed.

Lemma storage_cleanup_spec now (s : @Storage T E) :
  JsMap.wf s ->
  storage_cleanup now s
  = (length (filter (fun kr => expiresAt (snd kr) <? now) s),
     filter (fun kr => negb (expiresAt (snd kr) <? now)) s).
Proof.
  intros Hwf. unfold storage_cleanup.
  exact (cleanup_fold now s [] 0 Hwf).
Qed.
End MoreIdempotencyFacts.

(** X27: [startProcessing] locks the key.  Until the lock times out a
    request with the same key and payload is refused with IN_PROGRESS, its
    function not invoked and the manager untouched; once the lock has timed
    out the request goes through and its function is invoked. *)
Theorem startProcessing_locks_key (D T E : Type) (hashRequest : D -> string)
    (m : @Idempotency.IdempotencyManager T E) (k : string) (data data' : D)
    (now t : Z) (fn : Z -> Js.Outcome (option T) E * Z) :
  hashRequest data' = hashRequest data ->
  t <= now + Idempotency.ttlMs m ->
  now + Idempotency.lockTimeoutMs m <> 0 ->
  let record := fst (Idempotency.startProcessing hashRequest now m k data) in
  let m2 := snd (Idempotency.startProcessing hashRequest now m k data) in
  let run := Idempotency.execute hashRequest t m2 k data' fn in
  (t < now + Idempotency.lockTimeoutMs m ->
   Idempotency.result run
   = Js.Throw (Idempotency.Guard
                 (Idempotency.mkError Idempotency.IN_PROGRESS (Some record)))
   /\ Idempotency.invoked run = false
   /\ Idempotency.after run = m2)
  /\ (now + Idempotency.lockTimeoutMs m <= t -> Idempotency.invoked run = true).
Proof.
  intros Hh Ht Hz record m2 run.
  assert (Hg : JsMap.get (Idempotency.storage m2) k = Some record)
    by (subst m2 record; unfold Idempotency.startProcessing, Idempotency.storage_set;
        cbn [fst snd Idempotency.storage Idempotency.with_storage];
        apply JsMap_get_set_same).
  assert (Hcheck : Idempotency.check hashRequest t m2 k data'
                   = if t <? now + Idempotency.lockTimeoutMs m
                     then (Js.Throw (Idempotency.mkError Idempotency.IN_PROGRESS
                                       (Some record)), m2)
                     else (Js.Return (Idempotency.mkCheck true None (Some record)),
                           m2)).
  { unfold Idempotency.check.
    rewrite (storage_get_live t (Idempotency.storage m2) k record Hg)
      by (subst record; cbn; exact Ht).
    rewrite with_storage_same.
    subst record. cbn [fst Idempotency.startProcessing Idempotency.requestHash
                       Idempotency.status Idempotency.lockedUntil].
    rewrite Hh, String.eqb_refl. cbn [negb].
    destruct (Z.eqb_spec (now + Idempotency.lockTimeoutMs m) 0); [contradiction|].
    cbn [negb andb]. destruct (t <? now + Idempotency.lockTimeoutMs m); reflexivity. }
  split.
  - intros Hlt. subst run. unfold Idempotency.execute. rewrite Hcheck.
    destruct (Z.ltb_spec t (now + Idempotency.lockTimeoutMs m)); [|lia].
    cbn. auto.
  - intros Hge. subst run.
    destruct (Z.ltb_spec t (now + Idempotency.lockTimeoutMs m)); [lia|].
    eapply execute_runs_invoked; [exact Hcheck | left; reflexivity].
Qed.

Lemma startProcessing_locks_key_witness :
  let m := Idempotency.new (T:=string) (E:=string) None None None in
  let hash := fun d : string => d in
  let fn := fun t : Z => (Js.Return (Some "paid"%string), t + 5)
            : Js.Outcome (option string) string * Z in
  let record := fst (Idempotency.startProcessing hash 100 m "k" "body"%string) in
  let m2 := snd (Idempotency.startProcessing hash 100 m "k" "body"%string) in
  let run := Idempotency.execute hash 200 m2 "k" "body"%string fn in
  (200 < 100 + Idempotency.lockTimeoutMs m ->
   Idempotency.result run
   = Js.Throw (Idempotency.Guard
                 (Idempotency.mkError Idempotency.IN_PROGRESS (Some record)))
   /\ Idempotency.invoked run = false
   /\ Idempotency.after run = m2)
  /\ (100 + Idempotency.lockTimeoutMs m <= 200 -> Idempotency.invoked run = true).
Proof.
  intros m hash fn.
  apply (startProcessing_locks_key string string string hash m "k"%string
           "body"%string "body"%string 100 200 fn).
  - reflexivity.
  - vm_compute. discriminate.
  - vm_compute. discriminate.
Defined.

(** X28: a request whose function threw is not replayed: a later request
    with the same key and payload invokes its function again, at any time. *)
Theorem failed_request_runs_again (D T E : Type) (hashRequest : D -> string)
    (m : @Idempotency.IdempotencyManager T E) (k : string) (data data' : D)
    (now t : Z) (fn fn' : Z -> Js.Outcome (option T) E * Z) (e : E) :
  JsMap.wf (Idempotency.storage m) ->
  Idempotency.result (Idempotency.execute hashRequest now m k data fn)
  = Js.Throw (Idempotency.Fn e) ->
  hashRequest data' = hashRequest data ->
  Idempotency.invoked
    (Idempotency.execute hashRequest t
       (Idempotency.after (Idempotency.execute hashRequest now m k data fn))
       k data' fn') = true.
Proof.
  intros Hwf Hres Hh.
  pose proof (check_manager hashRequest now m k data) as Hm1.
  assert (Hafter : exists m1 endTime err,
             JsMap.wf (Idempotency.storage m1)
             /\ Idempotency.after (Idempotency.execute hashRequest now m k data fn)
                = Idempotency.fail endTime
                    (snd (Idempotency.startProcessing hashRequest now m1 k data))
                    k err).
  { revert Hres. unfold Idempotency.execute.
    destruct (Idempotency.check hashRequest now m k data) as [[c|err] m1];
      [|discriminate].
    cbn [snd] in Hm1.
    assert (Hwf1 : JsMap.wf (Idempotency.storage m1))
      by (rewrite Hm1; cbn [Idempotency.storage Idempotency.with_storage];
          now apply wf_storage_get).
    assert (Hrun : forall run,
               run
               = (let m2 := snd (Idempotency.startProcessing hashRequest now m1 k data) in
                  let '(out, endTime) := fn now in
                  match out with
                  | Js.Return r =>
                      match Idempotency.complete endTime m2 k r with
                      | (Js.Return _, m3) =>
                          Idempotency.mkRun (Js.Return (option_map Idempotency.Result r))
                            true m3
                      | (Js.Throw e0, m3) =>
                          Idempotency.mkRun (Js.Throw (Idempotency.Guard e0)) true
                            (Idempotency.fail endTime m3 k None)
                      end
                  | Js.Throw e0 =>
                      Idempotency.mkRun (Js.Throw (Idempotency.Fn e0)) true
                        (Idempotency.fail endTime m2 k
                           (Some (Idempotency.Failure e0)))
                  end) ->
               Idempotency.result run = Js.Throw (Idempotency.Fn e) ->
               exists m1' endTime err,
                 JsMap.wf (Idempotency.storage m1')
                 /\ Idempotency.after run
                    = Idempotency.fail endTime
                        (snd (Idempotency.startProcessing hashRequest now m1' k data))
                        k err).
    { intros run ->. cbv zeta.
      destruct (fn now) as [[r|e0] endTime].
      - destruct (Idempotency.complete _ _ _ _) as [[u|err] m3]; discriminate.
      - intros _. exists m1, endTime, (Some (Idempotency.Failure e0)).
        split; [exact Hwf1 | reflexivity]. }
    destruct (Idempotency.canProceed c), (Idempotency.existingResponse c);
      try (apply Hrun; reflexivity).
    discriminate. }
  destruct Hafter as (m1 & endTime & err & Hwf1 & ->).
  destruct (fail_after_start hashRequest now endTime m1 k data err Hwf1)
    as [Hwf2 Hrec].
  destruct (check_proceeds hashRequest t _ k data' Hwf2) as (c & m3 & Hc & Hp).
  - destruct Hrec as [Hn|(r & Hg & Hrh & Hs)]; [now left|].
    right. exists r. rewrite Hh. auto.
  - eapply execute_runs_invoked; [exact Hc | now left].
Qed.

Lemma failed_request_runs_again_witness :
  let m := Idempotency.new (T:=string) (E:=string) None None None in
  let hash := fun d : string => d in
  let failing := fun t : Z => (Js.Throw "boom"%string, t + 5)
                 : Js.Outcome (option string) string * Z in
  let paying := fun t : Z => (Js.Return (Some "paid"%string), t + 5)
                : Js.Outcome (option string) string * Z in
  Idempotency.invoked
    (Idempotency.execute hash 200
       (Idempotency.after (Idempotency.execute hash 100 m "k" "body"%string failing))
       "k" "body"%string paying) = true.
Proof.
  intros m hash failing paying.
  apply (failed_request_runs_again string string string hash m "k"%string
           "body"%string "body"%string 100 200 failing paying "boom"%string).
  - constructor.
  - reflexivity.
  - reflexivity.
Defined.

Section SlowFunctionFacts.
Import Js Idempotency.
Context {D T E : Type}.
Variable hashRequest : D -> string.

(** When the function was invoked, [execute] went past the check. *)
Lemma execute_invoked_shape now (m : @IdempotencyManager T E) k data fn :
  invoked (execute hashRequest now m k data fn) = true ->
  let m1 := with_storage m (snd (storage_get now (storage m) k)) in
  execute hashRequest now m k data fn
  = let m2 := snd (startProcessing hashRequest now m1 k data) in
    match fn now with
    | (Return r, endTime) =>
        match complete endTime m2 k r with
        | (Return _, m3) => mkRun (Return (option_map Result r)) true m3
        | (Throw e, m3) => mkRun (Throw (Guard e)) true (fail endTime m3 k None)
        end
    | (Throw e, endTime) =>
        mkRun (Throw (Fn e)) true (fail endTime m2 k (Some (Failure e)))
    end.
Proof.
  intros Hinv m1. subst m1. rewrite <- (check_manager hashRequest now m k data).
  destruct (check hashRequest now m k data) as [[c|err] m1] eqn:Hc.
  - cbn [snd].
    destruct (canProceed c) eqn:Hp.
    + apply (execute_runs hashRequest now m k data fn c m1 Hc). now left.
    + destruct (existingResponse c) as [resp|] eqn:Hr.
      * rewrite (execute_replays hashRequest now m k data fn c m1 resp Hc Hp Hr)
          in Hinv.
        discriminate.
      * apply (execute_runs hashRequest now m k data fn c m1 Hc). now right.
  - unfold execute in Hinv. rewrite Hc in Hinv. discriminate.
Qed.
End SlowFunctionFacts.

(** X29: a function that completes after the record's time to live has
    run out loses its result: [execute] has invoked it, yet throws NOT_FOUND
    and leaves no record under the key, so that the next request with the key
    starts afresh. *)
Theorem slow_function_loses_result (D T E : Type) (hashRequest : D -> string)
    (m : @Idempotency.IdempotencyManager T E) (k : string) (data : D)
    (now endTime : Z) (fn : Z -> Js.Outcome (option T) E * Z) (r : option T) :
  JsMap.wf (Idempotency.storage m) ->
  Idempotency.invoked (Idempotency.execute hashRequest now m k data fn) = true ->
  fn now = (Js.Return r, endTime) ->
  now + Idempotency.ttlMs m < endTime ->
  let run := Idempotency.execute hashRequest now m k data fn in
  Idempotency.result run
  = Js.Throw (Idempotency.Guard (Idempotency.mkError Idempotency.NOT_FOUND None))
  /\ JsMap.get (Idempotency.storage (Idempotency.after run)) k = None.
Proof.
  intros Hwf Hinv Hfn Ht run. subst run.
  rewrite (execute_invoked_shape hashRequest now m k data fn Hinv).
  cbv zeta. rewrite Hfn.
  set (m1 := Idempotency.with_storage m
               (snd (Idempotency.storage_get now (Idempotency.storage m) k))).
  rewrite (complete_after_start hashRequest now endTime m1 k data r).
  assert (Httl : Idempotency.ttlMs m1 = Idempotency.ttlMs m) by reflexivity.
  rewrite Httl.
  destruct (Z.ltb_spec (now + Idempotency.ttlMs m) endTime); [|lia].
  cbn [Idempotency.result Idempotency.after]. split; [reflexivity|].
  assert (Hwf2 : JsMap.wf
                   (Idempotency.storage
                      (snd (Idempotency.startProcessing hashRequest now m1 k data)))).
  { unfold Idempotency.startProcessing, Idempotency.storage_set.
    cbn [snd Idempotency.storage Idempotency.with_storage].
    apply JsMap_wf_set. now apply wf_storage_get. }
  unfold Idempotency.fail, Idempotency.storage_get.
  cbn [Idempotency.storage Idempotency.with_storage].
  rewrite (JsMap_get_delete_same _ k Hwf2).
  cbn [Idempotency.storage Idempotency.with_storage].
  now apply JsMap_get_delete_same.
Qed.

Lemma slow_function_loses_result_witness :
  let m := Idempotency.new (T:=string) (E:=string) (Some 1000) None None in
  let hash := fun d : string => d in
  let slow := fun t : Z => (Js.Return (Some "paid"%string), t + 5000)
              : Js.Outcome (option string) string * Z in
  let run := Idempotency.execute hash 100 m "k" "body"%string slow in
  Idempotency.result run
  = Js.Throw (Idempotency.Guard (Idempotency.mkError Idempotency.NOT_FOUND None))
  /\ JsMap.get (Idempotency.storage (Idempotency.after run)) "k" = None.
Proof.
  intros m hash slow.
  apply (slow_function_loses_result string string string hash m "k"%string
           "body"%string 100 5100 slow (Some "paid"%string)).
  - constructor.
  - reflexivity.
  - reflexivity.
  - vm_compute. reflexivity.
Defined.

(** X30: [cleanup] removes the expired records and no other: afterwards a
    key holds what it held before if that record has not expired and nothing
    otherwise; the count returned is the number of records that went away;
    and what [get] answers at that moment is the same with and without the
    clean-up. *)
Theorem cleanup_removes_exactly_expired (T E : Type)
    (m : @Idempotency.IdempotencyManager T E) (now : Z) :
  JsMap.wf (Idempotency.storage m) ->
  let r := Idempotency.cleanup now m in
  (forall k,
     JsMap.get (Idempotency.storage (snd r)) k
     = match JsMap.get (Idempotency.storage m) k with
       | Some record =>
           if Idempotency.expiresAt record <? now then None else Some record
       | None => None
       end)
  /\ (fst r + JsMap.size (Idempotency.storage (snd r)))%nat
     = JsMap.size (Idempotency.storage m)
  /\ (forall k,
        fst (Idempotency.get now (snd r) k) = fst (Idempotency.get now m k)).
Proof.
  intros Hwf r. subst r. unfold Idempotency.cleanup.
  rewrite (storage_cleanup_spec now (Idempotency.storage m) Hwf).
  cbn [fst snd Idempotency.storage Idempotency.with_storage].
  assert (Hget : forall k,
             JsMap.get
               (filter (fun kr => negb (Idempotency.expiresAt (snd kr) <? now))
                  (Idempotency.storage m)) k
             = match JsMap.get (Idempotency.storage m) k with
               | Some record =>
                   if Idempotency.expiresAt record <? now then None else Some record
               | None => None
               end).
  { intros k. rewrite JsMap_get_filter by exact Hwf.
    destruct (JsMap.get (Idempotency.storage m) k) as [record|]; [|reflexivity].
    cbn [snd]. now destruct (Idempotency.expiresAt record <? now). }
  split; [exact Hget|]. split.
  - unfold JsMap.size. apply filter_length_split.
  - intros k. unfold Idempotency.get, Idempotency.storage_get.
    cbn [Idempotency.storage Idempotency.with_storage]. rewrite Hget.
    destruct (JsMap.get (Idempotency.storage m) k) as [record|]; [|reflexivity].
    destruct (Idempotency.expiresAt record <? now) eqn:He; [reflexivity|].
    rewrite He. reflexivity.
Qed.

Lemma cleanup_removes_exactly_expired_witness :
  let old := Idempotency.mkRecord (T:=string) (E:=string) "a" "hash-a"
               (Some (Idempotency.Result "paid"%string)) Idempotency.completed
               0 (Some 5) 1000 None in
  let live := Idempotency.mkRecord (T:=string) (E:=string) "b" "hash-b"
                None Idempotency.processing 1500 None 2500 (Some 1600) in
  let m := Idempotency.mkManager [("a"%string, old); ("b"%string, live)]
             1000 60000 1000 in
  let r := Idempotency.cleanup 2000 m in
  (forall k,
     JsMap.get (Idempotency.storage (snd r)) k
     = match JsMap.get (Idempotency.storage m) k with
       | Some record =>
           if Idempotency.expiresAt record <? 2000 then None else Some record
       | None => None
       end)
  /\ (fst r + JsMap.size (Idempotency.storage (snd r)))%nat
     = JsMap.size (Idempotency.storage m)
  /\ (forall k,
        fst (Idempotency.get 2000 (snd r) k) = fst (Idempotency.get 2000 m k)).
Proof.
  intros old live m.
  apply (cleanup_removes_exactly_expired string string m 2000).
  repeat constructor; simpl; intuition discriminate.
Defined.
